(** * sam3u_benchmark: the libusb isochronous benchmark example

    A shallow embedding of [examples/sam3u_benchmark.c].  The program is a
    thin client of libusb: every library call is recorded in a trace, the
    library's answers come from a [world], and the C globals live in a
    [state] that is threaded through a small state-and-exit monad. *)

From Stdlib Require Import ZArith List String Bool Lia.
Import ListNotations.
Open Scope Z_scope.

(** ** Machine integers (LP64: [int] is 32 bits, [long] is 64 bits) *)

Definition ULONG_MODULUS : Z := 2 ^ 64.

(** Conversion to [unsigned long]. *)
Definition to_ulong (z : Z) : Z := z mod ULONG_MODULUS.

(** Two's complement wrap-around of a [long]. *)
Definition to_long (z : Z) : Z := (z + 2 ^ 63) mod ULONG_MODULUS - 2 ^ 63.

(** Two's complement wrap-around of an [int]. *)
Definition to_int (z : Z) : Z := (z + 2 ^ 31) mod 2 ^ 32 - 2 ^ 31.

(** ** Declarations of libusb.h and of the C library used by the program

    The header libusb.h is not among the sources of the example; its
    enumerations and structures are written down here as the program uses
    them. *)

(** [struct timeval] and [struct timespec]. *)
Record timeval := { tv_sec : Z; tv_usec : Z }.
Record timespec := { ts_sec : Z; ts_nsec : Z }.

(** Modelled from the spec: [enum libusb_transfer_status] of libusb.h.  The
    program only compares a status with [LIBUSB_TRANSFER_COMPLETED] and
    prints it. *)
Inductive libusb_transfer_status :=
| LIBUSB_TRANSFER_COMPLETED
| LIBUSB_TRANSFER_ERROR
| LIBUSB_TRANSFER_TIMED_OUT
| LIBUSB_TRANSFER_CANCELLED
| LIBUSB_TRANSFER_STALL
| LIBUSB_TRANSFER_NO_DEVICE
| LIBUSB_TRANSFER_OVERFLOW.

(** The integer printed by ["%d"] for a status. *)
Definition status_code (st : libusb_transfer_status) : Z :=
  match st with
  | LIBUSB_TRANSFER_COMPLETED => 0
  | LIBUSB_TRANSFER_ERROR => 1
  | LIBUSB_TRANSFER_TIMED_OUT => 2
  | LIBUSB_TRANSFER_CANCELLED => 3
  | LIBUSB_TRANSFER_STALL => 4
  | LIBUSB_TRANSFER_NO_DEVICE => 5
  | LIBUSB_TRANSFER_OVERFLOW => 6
  end.

Definition is_completed (st : libusb_transfer_status) : bool :=
  match st with LIBUSB_TRANSFER_COMPLETED => true | _ => false end.

(** Modelled from the spec: [enum libusb_transfer_type] of libusb.h.  The
    program only compares a type with [LIBUSB_TRANSFER_TYPE_ISOCHRONOUS]. *)
Inductive libusb_transfer_type :=
| LIBUSB_TRANSFER_TYPE_CONTROL
| LIBUSB_TRANSFER_TYPE_ISOCHRONOUS
| LIBUSB_TRANSFER_TYPE_BULK
| LIBUSB_TRANSFER_TYPE_INTERRUPT
| LIBUSB_TRANSFER_TYPE_BULK_STREAM.

Definition is_isochronous (ty : libusb_transfer_type) : bool :=
  match ty with LIBUSB_TRANSFER_TYPE_ISOCHRONOUS => true | _ => false end.

(** Modelled from the spec: [LIBUSB_SUCCESS] of [enum libusb_error] in
    libusb.h; it is 0 and the errors are negative. *)
Definition LIBUSB_SUCCESS : Z := 0.

(** Modelled from the spec: [struct libusb_iso_packet_descriptor] of
    libusb.h, a packet of an isochronous transfer with its own lengths and
    completion status. *)
Record libusb_iso_packet_descriptor := {
  pk_length : Z;
  pk_actual_length : Z;
  pk_status : libusb_transfer_status
}.

(** Modelled from the spec: [struct libusb_transfer] of libusb.h, a single
    asynchronous transfer; these are the fields that the program reads.  The
    flexible array [iso_packet_desc] and the memory behind [buffer] are
    lists; reading past their end is undefined behaviour. *)
Record libusb_transfer := {
  xfr_type : libusb_transfer_type;
  xfr_status : libusb_transfer_status;
  xfr_length : Z;
  xfr_actual_length : Z;
  xfr_buffer : list Z;
  xfr_num_iso_packets : Z;
  xfr_iso_packet_desc : list libusb_iso_packet_descriptor
}.

(** Pointers are addresses; [NULL] is 0. *)
Definition pointer := Z.
Definition NULL : pointer := 0.

(** ** Constants of the program *)

Definition NSEC_PER_SEC : Z := 1000000000.
Definition EP_DATA_IN : Z := 0x82.
Definition EP_ISO_IN : Z := 0x86.
(** [sizeof(buf)] for [static uint8_t buf[2048]]. *)
Definition sizeof_buf : Z := 2048.

(** ** Observable actions *)

Inductive event :=
| Call_sigaction
| Call_init_context (ctx : pointer)
| Call_error_name (rc : Z)
| Call_open_device_with_vid_pid (ctx : pointer) (vid pid : Z)
| Call_claim_interface (dev : pointer) (iface : Z)
| Call_alloc_transfer (iso_packets : Z)
| Call_fill_iso_transfer (xfr dev : pointer) (ep len num_iso_packets timeout : Z)
| Call_set_iso_packet_lengths (xfr : pointer) (len : Z)
| Call_fill_bulk_transfer (xfr dev : pointer) (ep len timeout : Z)
| Call_get_timestamp
| Call_submit_transfer (xfr : pointer)
| Call_handle_events (ctx : pointer)
| Call_free_transfer (xfr : pointer)
| Call_release_interface (dev : pointer) (iface : Z)
| Call_close (dev : pointer)
| Call_exit (ctx : pointer)
| Stderr (fmt : string) (args : list Z)
| Stdout (fmt : string) (args : list Z).

(** Who performs an action: [main] and the functions it calls, the
    completion callback run by the library inside
    [libusb_handle_events], or the SIGINT handler. *)
Inductive origin := Main | Callback | Handler.

Definition trace := list (origin * event).

(** ** The environment *)

(** What happens inside one call of [libusb_handle_events]: transfers
    complete (the library runs the callback on the transfer, whose
    contents it has updated) and SIGINT may be delivered. *)
Inductive occurrence :=
| Completion (p : pointer) (xfr : libusb_transfer)
| Interrupt.

Record round := {
  r_occurrences : list occurrence;
  r_rc : Z
}.

(** The answers of the library, of the clock and of the user.  SIGINT can
    be delivered at the points where [main] is about to call the library
    or to test [do_exit]; these points are numbered in the order in which
    [main] reaches them.  [w_rounds] is finite: a run whose event loop
    outlives it is still waiting in [libusb_handle_events]. *)
Record world := {
  w_init_rc : Z;
  w_open : pointer;
  w_claim_rc : Z;
  w_alloc : pointer;
  w_submit_rc : nat -> Z;
  w_clock : nat -> timespec;
  w_sigint : nat -> bool;
  w_rounds : list round
}.

(** ** The globals of the program and the bookkeeping of the run *)

Record state := {
  do_exit : bool;
  devh : pointer;
  num_bytes : Z;
  num_xfer : Z;
  tv_start : timeval;
  (** [static struct libusb_transfer *xfr] of [benchmark_in] *)
  bench_xfr : pointer;
  (** actions so far, oldest first *)
  log : trace;
  (** how many answers of the world have been used *)
  n_submit : nat;
  n_clock : nat;
  n_point : nat
}.

Definition initial_state : state :=
  {| do_exit := false; devh := NULL; num_bytes := 0; num_xfer := 0;
     tv_start := {| tv_sec := 0; tv_usec := 0 |}; bench_xfr := NULL;
     log := []; n_submit := 0; n_clock := 0; n_point := 0 |}.

(** ** The monad: state, [exit], undefined behaviour, waiting *)

Inductive result (A : Type) : Type :=
| Ok (a : A) (s : state)
| Exited (code : Z) (s : state)
| Fault (s : state)
| Waiting (s : state).

Arguments Ok {A} a s.
Arguments Exited {A} code s.
Arguments Fault {A} s.
Arguments Waiting {A} s.

Definition M (A : Type) : Type := state -> result A.

Definition ret {A} (a : A) : M A := fun s => Ok a s.

Definition bind {A B} (m : M A) (f : A -> M B) : M B :=
  fun s =>
    match m s with
    | Ok a s' => f a s'
    | Exited c s' => Exited c s'
    | Fault s' => Fault s'
    | Waiting s' => Waiting s'
    end.

Notation "x <- m ;; f" := (bind m (fun x => f))
  (at level 61, m at next level, right associativity).
Notation "m ;;; f" := (bind m (fun _ => f))
  (at level 61, right associativity).

Definition final {A} (r : result A) : state :=
  match r with
  | Ok _ s | Exited _ s | Fault s | Waiting s => s
  end.

(** [exit(code)]. *)
Definition exit {A} (code : Z) : M A := fun s => Exited code s.

(** Undefined behaviour. *)
Definition undefined {A} : M A := fun s => Fault s.

Definition get {A} (f : state -> A) : M A := fun s => Ok (f s) s.

(** The state after more actions. *)
Definition append (l : trace) (s : state) : state :=
  {| do_exit := do_exit s; devh := devh s; num_bytes := num_bytes s;
     num_xfer := num_xfer s; tv_start := tv_start s;
     bench_xfr := bench_xfr s; log := log s ++ l;
     n_submit := n_submit s; n_clock := n_clock s;
     n_point := n_point s |}.

Definition emit (o : origin) (e : event) : M unit :=
  fun s => Ok tt (append [(o, e)] s).

Definition set_do_exit (b : bool) : M unit :=
  fun s =>
    Ok tt {| do_exit := b; devh := devh s; num_bytes := num_bytes s;
             num_xfer := num_xfer s; tv_start := tv_start s;
             bench_xfr := bench_xfr s; log := log s;
             n_submit := n_submit s; n_clock := n_clock s;
             n_point := n_point s |}.

Definition set_devh (d : pointer) : M unit :=
  fun s =>
    Ok tt {| do_exit := do_exit s; devh := d; num_bytes := num_bytes s;
             num_xfer := num_xfer s; tv_start := tv_start s;
             bench_xfr := bench_xfr s; log := log s;
             n_submit := n_submit s; n_clock := n_clock s;
             n_point := n_point s |}.

Definition set_counters (nb nx : Z) : M unit :=
  fun s =>
    Ok tt {| do_exit := do_exit s; devh := devh s; num_bytes := nb;
             num_xfer := nx; tv_start := tv_start s;
             bench_xfr := bench_xfr s; log := log s;
             n_submit := n_submit s; n_clock := n_clock s;
             n_point := n_point s |}.

Definition set_tv_start (tv : timeval) : M unit :=
  fun s =>
    Ok tt {| do_exit := do_exit s; devh := devh s; num_bytes := num_bytes s;
             num_xfer := num_xfer s; tv_start := tv;
             bench_xfr := bench_xfr s; log := log s;
             n_submit := n_submit s; n_clock := n_clock s;
             n_point := n_point s |}.

Definition set_bench_xfr (p : pointer) : M unit :=
  fun s =>
    Ok tt {| do_exit := do_exit s; devh := devh s; num_bytes := num_bytes s;
             num_xfer := num_xfer s; tv_start := tv_start s;
             bench_xfr := p; log := log s;
             n_submit := n_submit s; n_clock := n_clock s;
             n_point := n_point s |}.

(** The next answer to [libusb_submit_transfer]. *)
Definition next_submit (w : world) : M Z :=
  fun s =>
    Ok (w_submit_rc w (n_submit s))
       {| do_exit := do_exit s; devh := devh s; num_bytes := num_bytes s;
          num_xfer := num_xfer s; tv_start := tv_start s;
          bench_xfr := bench_xfr s; log := log s;
          n_submit := S (n_submit s); n_clock := n_clock s;
          n_point := n_point s |}.

(** The next reading of the monotonic clock. *)
Definition next_clock (w : world) : M timespec :=
  fun s =>
    Ok (w_clock w (n_clock s))
       {| do_exit := do_exit s; devh := devh s; num_bytes := num_bytes s;
          num_xfer := num_xfer s; tv_start := tv_start s;
          bench_xfr := bench_xfr s; log := log s;
          n_submit := n_submit s; n_clock := S (n_clock s);
          n_point := n_point s |}.

(** Whether SIGINT arrives at the next delivery point. *)
Definition next_point (w : world) : M bool :=
  fun s =>
    Ok (w_sigint w (n_point s))
       {| do_exit := do_exit s; devh := devh s; num_bytes := num_bytes s;
          num_xfer := num_xfer s; tv_start := tv_start s;
          bench_xfr := bench_xfr s; log := log s;
          n_submit := n_submit s; n_clock := n_clock s;
          n_point := S (n_point s) |}.

(** [for (i = lo; i < lo + n; i++) body(i)]. *)
Fixpoint for_loop (lo : Z) (n : nat) (body : Z -> M unit) : M unit :=
  match n with
  | O => ret tt
  | S n' => body lo ;;; for_loop (lo + 1) n' body
  end.

(** ** Signals *)

(** [get_timestamp], in its [clock_gettime(CLOCK_MONOTONIC)] variant. *)
Definition read_clock (w : world) : M timeval :=
  ts <- next_clock w ;;
  ret {| tv_sec := ts_sec ts; tv_usec := to_int (Z.quot (ts_nsec ts) 1000) |}.

(** The arithmetic of [measure]: the value of [diff_msec]. *)
Definition measure_diff_msec (start stop : timeval) : Z :=
  let diff_sec := to_long (tv_sec stop - tv_sec start) in
  let diff_usec := to_long (tv_usec stop - tv_usec start) in
  let diff_usec' :=
    if diff_usec <? 0 then to_long (diff_usec + NSEC_PER_SEC) else diff_usec in
  let diff_sec' :=
    if diff_usec <? 0 then to_long (diff_sec - 1) else diff_sec in
  let diff_msec := to_ulong (to_ulong diff_sec' * 1000) in
  to_ulong (diff_msec + to_ulong diff_usec' / 1000).

(** The bytes-per-second figure printed by [measure]; dividing by zero is
    undefined behaviour. *)
Definition measure_rate (nb diff_msec : Z) : option Z :=
  if diff_msec =? 0 then None else Some (to_ulong (nb * 1000) / diff_msec).

Definition measure_fmt : string :=
  "%lu transfers (total %lu bytes) in %lu milliseconds => %lu bytes/sec\n".

Definition measure (w : world) : M unit :=
  emit Handler Call_get_timestamp ;;;
  tv_stop <- read_clock w ;;
  start <- get tv_start ;;
  let diff_msec := measure_diff_msec start tv_stop in
  nx <- get num_xfer ;;
  nb <- get num_bytes ;;
  match measure_rate nb diff_msec with
  | None => undefined
  | Some rate => emit Handler (Stdout measure_fmt [nx; nb; diff_msec; rate])
  end.

Definition sig_hdlr (w : world) : M unit :=
  measure w ;;;
  set_do_exit true.

(** A point of [main] at which SIGINT may be delivered. *)
Definition sigpoint (w : world) : M unit :=
  b <- next_point w ;;
  if b then sig_hdlr w else ret tt.

(** A library call: SIGINT can arrive before a call of [main]; the
    callback is not interrupted. *)
Definition call (w : world) (o : origin) (e : event) : M unit :=
  match o with
  | Main => sigpoint w ;;; emit o e
  | _ => emit o e
  end.

(** ** The library *)

Definition libusb_init_context (w : world) (ctx : pointer) : M Z :=
  call w Main (Call_init_context ctx) ;;; ret (w_init_rc w).

Definition libusb_error_name (w : world) (rc : Z) : M unit :=
  call w Main (Call_error_name rc).

Definition libusb_open_device_with_vid_pid (w : world) (ctx : pointer)
    (vid pid : Z) : M pointer :=
  call w Main (Call_open_device_with_vid_pid ctx vid pid) ;;; ret (w_open w).

Definition libusb_claim_interface (w : world) (dev : pointer) (iface : Z) : M Z :=
  call w Main (Call_claim_interface dev iface) ;;; ret (w_claim_rc w).

Definition libusb_alloc_transfer (w : world) (iso_packets : Z) : M pointer :=
  call w Main (Call_alloc_transfer iso_packets) ;;; ret (w_alloc w).

Definition libusb_fill_iso_transfer (w : world) (xfr dev : pointer)
    (ep len num_iso_packets timeout : Z) : M unit :=
  call w Main (Call_fill_iso_transfer xfr dev ep len num_iso_packets timeout).

Definition libusb_set_iso_packet_lengths (w : world) (xfr : pointer) (len : Z)
    : M unit :=
  call w Main (Call_set_iso_packet_lengths xfr len).

Definition libusb_fill_bulk_transfer (w : world) (xfr dev : pointer)
    (ep len timeout : Z) : M unit :=
  call w Main (Call_fill_bulk_transfer xfr dev ep len timeout).

Definition libusb_submit_transfer (w : world) (o : origin) (xfr : pointer) : M Z :=
  call w o (Call_submit_transfer xfr) ;;; next_submit w.

Definition libusb_free_transfer (w : world) (o : origin) (xfr : pointer) : M unit :=
  call w o (Call_free_transfer xfr).

Definition libusb_release_interface (w : world) (dev : pointer) (iface : Z)
    : M unit :=
  call w Main (Call_release_interface dev iface).

Definition libusb_close (w : world) (dev : pointer) : M unit :=
  call w Main (Call_close dev).

Definition libusb_exit (w : world) (ctx : pointer) : M unit :=
  call w Main (Call_exit ctx).

Definition get_timestamp (w : world) : M timeval :=
  call w Main Call_get_timestamp ;;; read_clock w.

(** ** The completion callback *)

Definition pack_fmt : string := "pack%d length:%u, actual_length:%u\n".
Definition pack_error_fmt : string := "Error: pack %d status %d\n".
Definition length_fmt : string := "length:%u, actual_length:%u\n".

(** The body of the loop over the isochronous packets. *)
Definition check_pack (xfr : libusb_transfer) (i : Z) : M unit :=
  match nth_error (xfr_iso_packet_desc xfr) (Z.to_nat i) with
  | None => undefined
  | Some pack =>
      (if negb (is_completed (pk_status pack)) then
         emit Callback (Stderr pack_error_fmt [i; status_code (pk_status pack)]) ;;;
         exit 5
       else ret tt) ;;;
      emit Callback (Stdout pack_fmt [i; pk_length pack; pk_actual_length pack])
  end.

(** The body of the loop that dumps the buffer. *)
Definition dump_byte (xfr : libusb_transfer) (i : Z) : M unit :=
  match nth_error (xfr_buffer xfr) (Z.to_nat i) with
  | None => undefined
  | Some b =>
      emit Callback (Stdout "%02x" [b]) ;;;
      if negb (Z.rem i 16 =? 0) then emit Callback (Stdout "\n" [])
      else if negb (Z.rem i 8 =? 0) then emit Callback (Stdout "  " [])
      else emit Callback (Stdout " " [])
  end.

Definition cb_xfr (w : world) (p : pointer) (xfr : libusb_transfer) : M unit :=
  (if negb (is_completed (xfr_status xfr)) then
     emit Callback (Stderr "transfer status %d\n" [status_code (xfr_status xfr)]) ;;;
     libusb_free_transfer w Callback p ;;;
     exit 3
   else ret tt) ;;;
  (if is_isochronous (xfr_type xfr) then
     for_loop 0 (Z.to_nat (xfr_num_iso_packets xfr)) (check_pack xfr)
   else ret tt) ;;;
  emit Callback (Stdout length_fmt [xfr_length xfr; xfr_actual_length xfr]) ;;;
  for_loop 0 (Z.to_nat (xfr_actual_length xfr)) (dump_byte xfr) ;;;
  nb <- get num_bytes ;;
  nx <- get num_xfer ;;
  set_counters (to_ulong (nb + xfr_actual_length xfr)) (to_ulong (nx + 1)) ;;;
  rc <- libusb_submit_transfer w Callback p ;;
  if rc <? 0 then
    emit Callback (Stderr "error re-submitting URB\n" []) ;;;
    exit 1
  else ret tt.

(** ** Starting the benchmark *)

Definition benchmark_in (w : world) (ep : Z) : M Z :=
  let num_iso_pack := if ep =? EP_ISO_IN then 16 else 0 in
  x <- libusb_alloc_transfer w num_iso_pack ;;
  set_bench_xfr x ;;;
  if x =? NULL then
    (* errno = ENOMEM *)
    ret (-1)
  else
    d <- get devh ;;
    (if ep =? EP_ISO_IN then
       libusb_fill_iso_transfer w x d ep sizeof_buf num_iso_pack 0 ;;;
       libusb_set_iso_packet_lengths w x (sizeof_buf / num_iso_pack)
     else
       libusb_fill_bulk_transfer w x d ep sizeof_buf 0) ;;;
    tv <- get_timestamp w ;;
    set_tv_start tv ;;;
    libusb_submit_transfer w Main x.

(** ** The event loop and [main] *)

Fixpoint run_occurrences (w : world) (l : list occurrence) : M unit :=
  match l with
  | [] => ret tt
  | Completion p xfr :: l' => cb_xfr w p xfr ;;; run_occurrences w l'
  | Interrupt :: l' => sig_hdlr w ;;; run_occurrences w l'
  end.

Definition libusb_handle_events (w : world) (ctx : pointer) (r : round) : M Z :=
  call w Main (Call_handle_events ctx) ;;;
  run_occurrences w (r_occurrences r) ;;;
  ret (r_rc r).

(** [while (!do_exit) { rc = libusb_handle_events(NULL);
    if (rc != LIBUSB_SUCCESS) break; }], returning [rc]. *)
Fixpoint event_loop (w : world) (rounds : list round) (rc : Z) : M Z :=
  sigpoint w ;;;
  stop <- get do_exit ;;
  if stop then ret rc
  else
    match rounds with
    | [] => fun s => Waiting s
    | r :: rounds' =>
        rc' <- libusb_handle_events w NULL r ;;
        if negb (rc' =? LIBUSB_SUCCESS) then ret rc'
        else event_loop w rounds' rc'
    end.

(** The code from the label [out] on. *)
Definition out (w : world) (rc : Z) : M Z :=
  d <- get devh ;;
  (if negb (d =? NULL) then libusb_close w d else ret tt) ;;;
  libusb_exit w NULL ;;;
  ret rc.

Definition main (w : world) : M Z :=
  emit Main Call_sigaction ;;;
  rc <- libusb_init_context w NULL ;;
  (if rc <? 0 then
     libusb_error_name w rc ;;;
     emit Main (Stderr "Error initializing libusb: %s\n" [rc]) ;;;
     exit 1
   else ret tt) ;;;
  d <- libusb_open_device_with_vid_pid w NULL 0x16c0 0x0763 ;;
  set_devh d ;;;
  if d =? NULL then
    emit Main (Stderr "Error finding USB device\n" []) ;;;
    out w rc
  else
    rc <- libusb_claim_interface w d 2 ;;
    if rc <? 0 then
      libusb_error_name w rc ;;;
      emit Main (Stderr "Error claiming interface: %s\n" [rc]) ;;;
      out w rc
    else
      benchmark_in w EP_ISO_IN ;;;
      rc <- event_loop w (w_rounds w) rc ;;
      d <- get devh ;;
      libusb_release_interface w d 2 ;;;
      out w rc.

(** ** Reasoning about runs: definitions *)

(** The actions of [main] itself. *)
Fixpoint own (tr : trace) : list event :=
  match tr with
  | [] => []
  | (Main, e) :: tr' => e :: own tr'
  | _ :: tr' => own tr'
  end.

(** How a computation can end without returning. *)
Inductive abrupt := AExit (code : Z) | AFault | AWait.

(** Weakest precondition: [Q] for a normal return, [R] otherwise. *)
Definition wp {A} (m : M A) (Q : A -> state -> Prop)
    (R : abrupt -> state -> Prop) (s : state) : Prop :=
  match m s with
  | Ok a s' => Q a s'
  | Exited c s' => R (AExit c) s'
  | Fault s' => R AFault s'
  | Waiting s' => R AWait s'
  end.

(** A relation that holds between the state before and the state after,
    however the computation ends. *)
Definition steady {A} (F : state -> state -> Prop) (m : M A) : Prop :=
  forall s, F s (final (m s)).

(** What the SIGINT handler does: it reads the clock and prints. *)
Definition handler_kind (e : event) : Prop :=
  e = Call_get_timestamp \/ exists args, e = Stdout measure_fmt args.

Definition handler_event (oe : origin * event) : Prop :=
  fst oe = Handler /\ handler_kind (snd oe).

(** What the callback does: it prints, frees the transfer or submits it. *)
Definition callback_kind (e : event) : Prop :=
  match e with
  | Stdout _ _ | Stderr _ _ | Call_free_transfer _ | Call_submit_transfer _ =>
      True
  | _ => False
  end.

(** An action of the handler or of the callback. *)
Definition background_event (oe : origin * event) : Prop :=
  match fst oe with
  | Main => False
  | Callback => callback_kind (snd oe)
  | Handler => handler_kind (snd oe)
  end.

(** How [do_exit] changes while the actions [l] happen: only the handler
    sets it. *)
Definition raised (s s' : state) (l : trace) : Prop :=
  do_exit s' = do_exit s \/ (do_exit s' = true /\ exists e, In (Handler, e) l).

(** The state before and after SIGINT deliveries. *)
Definition handler_ran (s s' : state) : Prop :=
  devh s' = devh s /\ num_bytes s' = num_bytes s /\ num_xfer s' = num_xfer s /\
  tv_start s' = tv_start s /\ bench_xfr s' = bench_xfr s /\
  n_submit s' = n_submit s /\
  exists l, log s' = log s ++ l /\ Forall handler_event l /\ raised s s' l.

(** The state before and after actions of the handler and the callback. *)
Definition background (s s' : state) : Prop :=
  devh s' = devh s /\ tv_start s' = tv_start s /\ bench_xfr s' = bench_xfr s /\
  exists l, log s' = log s ++ l /\ Forall background_event l /\ raised s s' l.

(** The last action of [main] is a call of [libusb_handle_events]. *)
Definition in_loop (L : list event) : Prop :=
  exists L', L = L' ++ [Call_handle_events NULL].

(** [weave L tr]: the trace [tr] is made of the actions [L] of [main], in
    this order, with actions of the handler anywhere between them and
    actions of the callback only while [main] is inside
    [libusb_handle_events]. *)
Inductive weave : list event -> trace -> Prop :=
| weave_nil : weave [] []
| weave_main L tr e :
    weave L tr -> weave (L ++ [e]) (tr ++ [(Main, e)])
| weave_handler L tr e :
    weave L tr -> handler_kind e -> weave L (tr ++ [(Handler, e)])
| weave_callback L tr e :
    weave L tr -> callback_kind e -> in_loop L ->
    weave L (tr ++ [(Callback, e)]).

(** If [do_exit] is set, the handler has run. *)
Definition flagged (s : state) : Prop :=
  do_exit s = true -> exists e, In (Handler, e) (log s).

(** [main] has performed the actions [L] and [devh] is [d]. *)
Definition At (L : list event) (d : pointer) (s : state) : Prop :=
  weave L (log s) /\ devh s = d /\ flagged s.

(** ** The sequence of actions of [main] *)

Definition bench_script (w : world) (d : pointer) (ep : Z) : list event :=
  Call_alloc_transfer (if ep =? EP_ISO_IN then 16 else 0) ::
  if w_alloc w =? NULL then []
  else
    (if ep =? EP_ISO_IN then
       [Call_fill_iso_transfer (w_alloc w) d ep 2048 16 0;
        Call_set_iso_packet_lengths (w_alloc w) 128]
     else [Call_fill_bulk_transfer (w_alloc w) d ep 2048 0]) ++
    [Call_get_timestamp; Call_submit_transfer (w_alloc w)].

(** The actions of a run of [main] that calls [libusb_handle_events]
    [k] times and is not cut short. *)
Definition script (w : world) (k : nat) : list event :=
  Call_sigaction :: Call_init_context NULL ::
  if w_init_rc w <? 0 then
    [Call_error_name (w_init_rc w);
     Stderr "Error initializing libusb: %s\n" [w_init_rc w]]
  else
    Call_open_device_with_vid_pid NULL 0x16c0 0x0763 ::
    if w_open w =? NULL then
      [Stderr "Error finding USB device\n" []; Call_exit NULL]
    else
      Call_claim_interface (w_open w) 2 ::
      if w_claim_rc w <? 0 then
        [Call_error_name (w_claim_rc w);
         Stderr "Error claiming interface: %s\n" [w_claim_rc w];
         Call_close (w_open w); Call_exit NULL]
      else
        bench_script w (w_open w) EP_ISO_IN ++
        repeat (Call_handle_events NULL) k ++
        [Call_release_interface (w_open w) 2; Call_close (w_open w);
         Call_exit NULL].

(** The value that such a run returns. *)
Definition returned (w : world) (k : nat) : Z :=
  if w_open w =? NULL then w_init_rc w
  else
    match k with
    | O => w_claim_rc w
    | S j => if w_claim_rc w <? 0 then w_claim_rc w
             else r_rc (nth j (w_rounds w) {| r_occurrences := []; r_rc := 0 |})
    end.

(** The value of [rc] after [k] calls of [libusb_handle_events]. *)
Definition loop_rc (rounds : list round) (rc : Z) (k : nat) : Z :=
  match k with
  | O => rc
  | S j => r_rc (nth j rounds {| r_occurrences := []; r_rc := 0 |})
  end.

(** [l] is an initial segment of [l']. *)
Definition prefix_of {X} (l l' : list X) : Prop := exists rest, l' = l ++ rest.

(** The run gets as far as the event loop. *)
Definition reaches_loop (w : world) : bool :=
  negb (w_init_rc w <? 0) && negb (w_open w =? NULL) &&
  negb (w_claim_rc w <? 0).

(** What a run of [main] looks like, however it ends. *)
Definition main_shape (w : world) (r : result Z) : Prop :=
  exists k L, (k <= List.length (w_rounds w))%nat /\
    weave L (log (final r)) /\ flagged (final r) /\
    prefix_of L (script w k) /\
    match r with
    | Ok rc _ =>
        (w_init_rc w <? 0) = false /\ L = script w k /\ rc = returned w k
    | Exited c _ =>
        if w_init_rc w <? 0 then c = 1 /\ L = script w k
        else reaches_loop w = true
    | Fault _ => True
    | Waiting _ => reaches_loop w = true
    end.

(** An abrupt end as a result. *)
Definition abrupt_result {A} (h : abrupt) (s : state) : result A :=
  match h with
  | AExit c => Exited c s
  | AFault => Fault s
  | AWait => Waiting s
  end.

(** ** What the callback prints *)

(** The packets that the callback inspects. *)
Definition packets (xfr : libusb_transfer) : list libusb_iso_packet_descriptor :=
  firstn (Z.to_nat (xfr_num_iso_packets xfr)) (xfr_iso_packet_desc xfr).

(** The bytes that the callback dumps. *)
Definition received (xfr : libusb_transfer) : list Z :=
  firstn (Z.to_nat (xfr_actual_length xfr)) (xfr_buffer xfr).

(** The arrays of the transfer are as long as its counts say. *)
Definition wf_transfer (xfr : libusb_transfer) : Prop :=
  (Z.to_nat (xfr_num_iso_packets xfr) <= List.length (xfr_iso_packet_desc xfr))%nat /\
  (Z.to_nat (xfr_actual_length xfr) <= List.length (xfr_buffer xfr))%nat.

Definition pack_completed (pack : libusb_iso_packet_descriptor) : Prop :=
  pk_status pack = LIBUSB_TRANSFER_COMPLETED.

(** The transfer passes both status checks of the callback. *)
Definition completed (xfr : libusb_transfer) : Prop :=
  xfr_status xfr = LIBUSB_TRANSFER_COMPLETED /\
  (xfr_type xfr = LIBUSB_TRANSFER_TYPE_ISOCHRONOUS ->
   Forall pack_completed (packets xfr)).

(** Lines printed for consecutive elements of an array, from index [i]. *)
Fixpoint lines {X} (line : Z -> X -> trace) (i : Z) (l : list X) : trace :=
  match l with
  | [] => []
  | x :: l' => line i x ++ lines line (i + 1) l'
  end.

Definition pack_line (i : Z) (pack : libusb_iso_packet_descriptor) : trace :=
  [(Callback, Stdout pack_fmt [i; pk_length pack; pk_actual_length pack])].

Definition pack_error_line (i : Z) (pack : libusb_iso_packet_descriptor)
    : origin * event :=
  (Callback, Stderr pack_error_fmt [i; status_code (pk_status pack)]).

Definition separator (i : Z) : string :=
  if negb (Z.rem i 16 =? 0) then "\n"
  else if negb (Z.rem i 8 =? 0) then "  " else " ".

Definition dump_line (i : Z) (b : Z) : trace :=
  [(Callback, Stdout "%02x" [b]); (Callback, Stdout (separator i) [])].

Definition length_line (xfr : libusb_transfer) : origin * event :=
  (Callback, Stdout length_fmt [xfr_length xfr; xfr_actual_length xfr]).

(** Everything a callback prints for a transfer that passes the checks. *)
Definition report (xfr : libusb_transfer) : trace :=
  (if is_isochronous (xfr_type xfr) then lines pack_line 0 (packets xfr)
   else []) ++
  length_line xfr :: lines dump_line 0 (received xfr).

(** The state after the callback has counted and re-submitted [p]. *)
Definition resubmitted (p : pointer) (xfr : libusb_transfer) (s : state) : state :=
  {| do_exit := do_exit s; devh := devh s;
     num_bytes := to_ulong (num_bytes s + xfr_actual_length xfr);
     num_xfer := to_ulong (num_xfer s + 1);
     tv_start := tv_start s; bench_xfr := bench_xfr s;
     log := log s ++ report xfr ++ [(Callback, Call_submit_transfer p)];
     n_submit := S (n_submit s); n_clock := n_clock s;
     n_point := n_point s |}.

(** ** Elapsed time *)

(** A timestamp in microseconds. *)
Definition usec_of (tv : timeval) : Z := tv_sec tv * 1000000 + tv_usec tv.

(** The time between two timestamps in whole milliseconds, as the
    specification has it. *)
Definition elapsed_msec (start stop : timeval) : Z :=
  (usec_of stop - usec_of start) / 1000.

(** A timestamp as the clock gives it. *)
Definition valid_timeval (tv : timeval) : Prop :=
  0 <= tv_sec tv < 2 ^ 40 /\ 0 <= tv_usec tv < 1000000.

(** A measurement that borrows: started at 0.5 s, stopped at 1.0 s, with
    1000 bytes transferred in one transfer. *)
Definition borrow_start : timeval := {| tv_sec := 0; tv_usec := 500000 |}.
Definition borrow_stop : timeval := {| tv_sec := 1; tv_usec := 0 |}.

Definition borrow_state : state :=
  {| do_exit := false; devh := 100; num_bytes := 1000; num_xfer := 1;
     tv_start := borrow_start; bench_xfr := 200; log := [];
     n_submit := 1; n_clock := 1; n_point := 0 |}.

Definition borrow_world : world :=
  {| w_init_rc := 0; w_open := 100; w_claim_rc := 0; w_alloc := 200;
     w_submit_rc := fun _ => 0;
     w_clock := fun n =>
       match n with
       | O => {| ts_sec := 0; ts_nsec := 500000000 |}
       | _ => {| ts_sec := 1; ts_nsec := 0 |}
       end;
     w_sigint := fun _ => false;
     w_rounds := [] |}.

(** ** Sample inputs *)

Definition sample_packet (n : Z) (st : libusb_transfer_status)
    : libusb_iso_packet_descriptor :=
  {| pk_length := 128; pk_actual_length := n; pk_status := st |}.

(** An isochronous transfer of two packets that completed. *)
Definition sample_iso : libusb_transfer :=
  {| xfr_type := LIBUSB_TRANSFER_TYPE_ISOCHRONOUS;
     xfr_status := LIBUSB_TRANSFER_COMPLETED;
     xfr_length := 256; xfr_actual_length := 3; xfr_buffer := [17; 34; 51; 0];
     xfr_num_iso_packets := 2;
     xfr_iso_packet_desc :=
       [sample_packet 2 LIBUSB_TRANSFER_COMPLETED;
        sample_packet 1 LIBUSB_TRANSFER_COMPLETED] |}.

(** The same transfer with an error in its second packet. *)
Definition sample_iso_bad : libusb_transfer :=
  {| xfr_type := LIBUSB_TRANSFER_TYPE_ISOCHRONOUS;
     xfr_status := LIBUSB_TRANSFER_COMPLETED;
     xfr_length := 256; xfr_actual_length := 3; xfr_buffer := [17; 34; 51; 0];
     xfr_num_iso_packets := 2;
     xfr_iso_packet_desc :=
       [sample_packet 2 LIBUSB_TRANSFER_COMPLETED;
        sample_packet 0 LIBUSB_TRANSFER_ERROR] |}.

(** A world in which everything works; SIGINT arrives during the second
    call of [libusb_handle_events]. *)
Definition sample_world : world :=
  {| w_init_rc := 0; w_open := 100; w_claim_rc := 0; w_alloc := 200;
     w_submit_rc := fun _ => 0;
     w_clock := fun n => {| ts_sec := 10 + Z.of_nat n; ts_nsec := 0 |};
     w_sigint := fun _ => false;
     w_rounds :=
       [{| r_occurrences := [Completion 200 sample_iso]; r_rc := 0 |};
        {| r_occurrences := [Completion 200 sample_iso; Interrupt];
           r_rc := 0 |}] |}.

(** ** Counting *)

(** The [actual_length] that a callback reports for a transfer that has
    passed its checks. *)
Definition counted (oe : origin * event) : option Z :=
  match oe with
  | (Callback, Stdout fmt [_; n]) =>
      if String.eqb fmt length_fmt then Some n else None
  | _ => None
  end.

(** The [actual_length]s of the transfers completed so far. *)
Fixpoint completions (tr : trace) : list Z :=
  match tr with
  | [] => []
  | oe :: tr' =>
      match counted oe with
      | Some n => n :: completions tr'
      | None => completions tr'
      end
  end.

Definition sum (l : list Z) : Z := fold_right Z.add 0 l.

(** The counters agree with the transfers completed so far. *)
Definition tally (s : state) : Prop :=
  num_bytes s = to_ulong (sum (completions (log s))) /\
  num_xfer s = to_ulong (Z.of_nat (List.length (completions (log s)))).

(** Nothing was counted between [s] and [s']. *)
Definition uncounted (s s' : state) : Prop :=
  num_bytes s' = num_bytes s /\ num_xfer s' = num_xfer s /\
  completions (log s') = completions (log s).

(** The transfer [xfr] was counted between [s] and [s']. *)
Definition counted_once (xfr : libusb_transfer) (s s' : state) : Prop :=
  num_bytes s' = to_ulong (num_bytes s + xfr_actual_length xfr) /\
  num_xfer s' = to_ulong (num_xfer s + 1) /\
  completions (log s') = completions (log s) ++ [xfr_actual_length xfr].

(** [I] is kept by every run of [m] that does not end in undefined
    behaviour. *)
Definition preserves {A} (I : state -> Prop) (m : M A) : Prop :=
  forall s, I s ->
    match m s with
    | Fault _ => True
    | r => I (final r)
    end.

(** A world without the device. *)
Definition no_device_world : world :=
  {| w_init_rc := 0; w_open := NULL; w_claim_rc := 0; w_alloc := 200;
     w_submit_rc := fun _ => 0;
     w_clock := fun n => {| ts_sec := 10 + Z.of_nat n; ts_nsec := 0 |};
     w_sigint := fun _ => false;
     w_rounds := [] |}.

(** ** What [main] does after a failure *)

Definition after_init_error (w : world) : list event :=
  [Call_sigaction; Call_init_context NULL;
   Call_error_name (w_init_rc w);
   Stderr "Error initializing libusb: %s\n" [w_init_rc w]].

Definition after_no_device : list event :=
  [Call_sigaction; Call_init_context NULL;
   Call_open_device_with_vid_pid NULL 0x16c0 0x0763;
   Stderr "Error finding USB device\n" [];
   Call_exit NULL].

Definition after_claim_error (w : world) : list event :=
  [Call_sigaction; Call_init_context NULL;
   Call_open_device_with_vid_pid NULL 0x16c0 0x0763;
   Call_claim_interface (w_open w) 2;
   Call_error_name (w_claim_rc w);
   Stderr "Error claiming interface: %s\n" [w_claim_rc w];
   Call_close (w_open w); Call_exit NULL].

(** ** The nine steps *)

(** The step of the call sequence that an action belongs to: 1 init,
    2 open, 3 claim, 4 allocate, 5 fill, 6 submit, 7 event handling (with
    what the callback does inside it), 8 measure (what the handler does),
    9 tear down.  Messages, the installation of the handler and the first
    timestamp belong to no step. *)
Definition step_of (oe : origin * event) : option nat :=
  match oe with
  | (Handler, _) => Some 8%nat
  | (Callback, _) => Some 7%nat
  | (Main, e) =>
      match e with
      | Call_init_context _ => Some 1%nat
      | Call_open_device_with_vid_pid _ _ _ => Some 2%nat
      | Call_claim_interface _ _ => Some 3%nat
      | Call_alloc_transfer _ => Some 4%nat
      | Call_fill_iso_transfer _ _ _ _ _ _ => Some 5%nat
      | Call_set_iso_packet_lengths _ _ => Some 5%nat
      | Call_fill_bulk_transfer _ _ _ _ _ => Some 5%nat
      | Call_submit_transfer _ => Some 6%nat
      | Call_handle_events _ => Some 7%nat
      | Call_release_interface _ _ => Some 9%nat
      | Call_close _ => Some 9%nat
      | Call_exit _ => Some 9%nat
      | _ => None
      end
  end.

Fixpoint steps (tr : trace) : list nat :=
  match tr with
  | [] => []
  | oe :: tr' =>
      match step_of oe with
      | Some n => n :: steps tr'
      | None => steps tr'
      end
  end.

(** No number is smaller than one before it (or than [prev]). *)
Fixpoint in_order_from (prev : nat) (l : list nat) : bool :=
  match l with
  | [] => true
  | n :: l' => (prev <=? n)%nat && in_order_from n l'
  end.

(** No later step occurs before an earlier one. *)
Definition nine_step_order (tr : trace) : bool := in_order_from 0 (steps tr).

(** The actions of [main] and of the callback. *)
Definition foreground (tr : trace) : trace :=
  filter (fun oe => match fst oe with Handler => false | _ => true end) tr.

(** The actions of [main] as a trace. *)
Definition by_main (L : list event) : trace := map (pair Main) L.

(** A world in which SIGINT arrives while [libusb_init_context] is about
    to be called, five seconds after the clock started. *)
Definition early_sigint_world : world :=
  {| w_init_rc := 0; w_open := 100; w_claim_rc := 0; w_alloc := 200;
     w_submit_rc := fun _ => 0;
     w_clock := fun n => {| ts_sec := 5 + Z.of_nat n; ts_nsec := 0 |};
     w_sigint := fun n => Nat.eqb n 0;
     w_rounds := [] |}.

(** ** Kinds of calls *)

Definition is_open (e : event) : bool :=
  match e with Call_open_device_with_vid_pid _ _ _ => true | _ => false end.

Definition is_claim (e : event) : bool :=
  match e with Call_claim_interface _ _ => true | _ => false end.

(** A transfer is allocated or submitted. *)
Definition is_transfer_call (e : event) : bool :=
  match e with
  | Call_alloc_transfer _ | Call_submit_transfer _ => true
  | _ => false
  end.

(** The events of a trace that are calls of one kind. *)
Definition calls (P : event -> bool) (tr : trace) : trace :=
  filter (fun oe => P (snd oe)) tr.


Definition is_submit (e : event) : bool :=
  match e with Call_submit_transfer _ => true | _ => false end.

(** What [main] does before [benchmark_in]. *)
Definition prelude (w : world) : list event :=
  [Call_sigaction; Call_init_context NULL;
   Call_open_device_with_vid_pid NULL 0x16c0 0x0763;
   Call_claim_interface (w_open w) 2].

(** ** Further definitions: timestamps *)

(** Nanoseconds of a reading of the monotonic clock. *)
Definition nsec_of (ts : timespec) : Z := ts_sec ts * 1000000000 + ts_nsec ts.

(** A reading as the clock gives it. *)
Definition valid_timespec (ts : timespec) : Prop :=
  0 <= ts_sec ts < 2 ^ 40 /\ 0 <= ts_nsec ts < 1000000000.

(** [get_timestamp], in its [QueryPerformanceCounter] variant, where
    [LONGLONG] has 64 bits and [long] has 32.  [frequency] is the static
    variable of the function, [qpf] and [qpc] are what
    [QueryPerformanceFrequency] and [QueryPerformanceCounter] answer.  The
    result is the timestamp and the new value of [frequency]; dividing by
    a zero frequency is undefined behaviour. *)
Definition get_timestamp_windows (frequency qpf qpc : Z)
    : option (timeval * Z) :=
  let frequency' := if frequency =? 0 then qpf else frequency in
  let counter := to_long (qpc * 1000000) in
  if frequency' =? 0 then None
  else
    let counter' := Z.quot counter frequency' in
    Some ({| tv_sec := to_int (to_ulong counter' / 1000000);
             tv_usec := to_int (to_ulong counter' mod 1000000) |},
          frequency').

(** A state in which one second has passed since the start. *)
Definition measured_state : state :=
  {| do_exit := false; devh := 100; num_bytes := 6; num_xfer := 2;
     tv_start := {| tv_sec := 10; tv_usec := 0 |}; bench_xfr := 200;
     log := []; n_submit := 3; n_clock := 1; n_point := 16 |}.

(** A state in which no time has passed since the start. *)
Definition hasty_state : state :=
  {| do_exit := false; devh := 100; num_bytes := 0; num_xfer := 0;
     tv_start := {| tv_sec := 11; tv_usec := 0 |}; bench_xfr := 200;
     log := []; n_submit := 1; n_clock := 1; n_point := 10 |}.

(** ** Further definitions: kinds of calls and runs *)

Definition is_exit (e : event) : bool :=
  match e with Call_exit _ => true | _ => false end.

Definition is_close (e : event) : bool :=
  match e with Call_close _ => true | _ => false end.

Definition is_release (e : event) : bool :=
  match e with Call_release_interface _ _ => true | _ => false end.

Definition is_handle_events (e : event) : bool :=
  match e with Call_handle_events _ => true | _ => false end.

(** What [main] has done after [k] calls of [libusb_handle_events]. *)
Definition loop_script (w : world) (k : nat) : list event :=
  prelude w ++ bench_script w (w_open w) EP_ISO_IN ++
  repeat (Call_handle_events NULL) k.

(** The clean-up of [main] after the loop. *)
Definition teardown (w : world) : list event :=
  [Call_release_interface (w_open w) 2; Call_close (w_open w); Call_exit NULL].

(** A world in which the allocation fails and SIGINT arrives during the
    first call of [libusb_handle_events]. *)
Definition no_memory_world : world :=
  {| w_init_rc := 0; w_open := 100; w_claim_rc := 0; w_alloc := NULL;
     w_submit_rc := fun _ => 0;
     w_clock := fun n => {| ts_sec := 10 + Z.of_nat n; ts_nsec := 0 |};
     w_sigint := fun _ => false;
     w_rounds := [{| r_occurrences := [Interrupt]; r_rc := -10 |}] |}.

(** A world in which a transfer times out. *)
Definition timeout_world : world :=
  {| w_init_rc := 0; w_open := 100; w_claim_rc := 0; w_alloc := 200;
     w_submit_rc := fun _ => 0;
     w_clock := fun n => {| ts_sec := 10 + Z.of_nat n; ts_nsec := 0 |};
     w_sigint := fun _ => false;
     w_rounds :=
       [{| r_occurrences :=
             [Completion 200
                {| xfr_type := LIBUSB_TRANSFER_TYPE_ISOCHRONOUS;
                   xfr_status := LIBUSB_TRANSFER_TIMED_OUT;
                   xfr_length := 2048; xfr_actual_length := 0;
                   xfr_buffer := []; xfr_num_iso_packets := 0;
                   xfr_iso_packet_desc := [] |}];
           r_rc := 0 |}] |}.

(** How far [main] has got when the process exits or the event loop is
    still running. *)
Definition stopped_shape (w : world) (r : result Z) : Prop :=
  match r with
  | Exited c s =>
      (c = 1 /\ w_init_rc w < 0 /\ own (log s) = after_init_error w) \/
      (reaches_loop w = true /\
       exists k, (k <= List.length (w_rounds w))%nat /\
                 own (log s) = loop_script w k)
  | Waiting s =>
      reaches_loop w = true /\
      exists k, (k <= List.length (w_rounds w))%nat /\
                own (log s) = loop_script w k
  | _ => True
  end.

(** A call of [libusb_handle_events] in which nothing goes wrong and no
    SIGINT arrives: the transfers that complete pass the checks of the
    callback, and the call returns [LIBUSB_SUCCESS]. *)
Definition quiet_occurrence (o : occurrence) : Prop :=
  match o with
  | Completion _ xfr => wf_transfer xfr /\ completed xfr
  | Interrupt => False
  end.

Definition quiet_round (r : round) : Prop :=
  r_rc r = LIBUSB_SUCCESS /\ Forall quiet_occurrence (r_occurrences r).

(** The state after a point at which no SIGINT was delivered. *)
Definition tick (s : state) : state :=
  {| do_exit := do_exit s; devh := devh s; num_bytes := num_bytes s;
     num_xfer := num_xfer s; tv_start := tv_start s;
     bench_xfr := bench_xfr s; log := log s;
     n_submit := n_submit s; n_clock := n_clock s;
     n_point := S (n_point s) |}.


(** ** Further definitions: undefined behaviour *)

(** The timestamp that [get_timestamp] makes of a reading of the clock. *)
Definition timeval_of (ts : timespec) : timeval :=
  {| tv_sec := ts_sec ts; tv_usec := to_int (Z.quot (ts_nsec ts) 1000) |}.

(** The arrays of the transfers that complete in a call of
    [libusb_handle_events] are as long as their counts say. *)
Definition wf_occurrence (o : occurrence) : Prop :=
  match o with
  | Completion _ xfr => wf_transfer xfr
  | Interrupt => True
  end.

Definition wf_round (r : round) : Prop :=
  Forall wf_occurrence (r_occurrences r).

(** If the computation ended in undefined behaviour, it was the division
    by [diff_msec] in [measure]: the handler had read the clock and found
    that no millisecond had passed since the start time. *)
Definition fault_in_measure {A} (w : world) (r : result A) : Prop :=
  match r with
  | Fault s' =>
      exists tr n,
        log s' = tr ++ [(Handler, Call_get_timestamp)] /\
        n_clock s' = S n /\
        measure_diff_msec (tv_start s') (timeval_of (w_clock w n)) = 0
  | _ => True
  end.

Definition careful {A} (w : world) (m : M A) : Prop :=
  forall s, fault_in_measure w (m s).

(** A world in which SIGINT arrives at once, while the clock still shows
    zero. *)
Definition instant_world : world :=
  {| w_init_rc := 0; w_open := 100; w_claim_rc := 0; w_alloc := 200;
     w_submit_rc := fun _ => 0;
     w_clock := fun _ => {| ts_sec := 0; ts_nsec := 0 |};
     w_sigint := fun n => Nat.eqb n 0;
     w_rounds := [] |}.

(** ** Further definitions: runs without SIGINT outside the event loop *)

(** SIGINT arrives at none of the points at which [main] can be
    interrupted outside [libusb_handle_events]. *)
Definition no_sigint (w : world) : Prop := forall n, w_sigint w n = false.

(** What [main] does after the loop. *)
Definition after_loop (w : world) (rc : Z) : M Z :=
  d <- get devh ;;
  libusb_release_interface w d 2 ;;;
  out w rc.

(** The state in which [main] enters the loop when no SIGINT has arrived
    so far. *)
Definition loop_state (w : world) : state :=
  {| do_exit := false; devh := w_open w; num_bytes := 0; num_xfer := 0;
     tv_start := if w_alloc w =? NULL then tv_start initial_state
                 else timeval_of (w_clock w 0);
     bench_xfr := w_alloc w;
     log := by_main (loop_script w 0);
     n_submit := if w_alloc w =? NULL then 0 else 1;
     n_clock := if w_alloc w =? NULL then 0 else 1;
     n_point := if w_alloc w =? NULL then 4 else 8 |}.

(** The computation does not end up waiting for events. *)
Definition never_waits {A} (m : M A) : Prop :=
  forall s, match m s with Waiting _ => False | _ => True end.

(** A round that is never looked at. *)
Definition no_round : round := {| r_occurrences := []; r_rc := 0 |}.

(** Of the first [k] calls of [libusb_handle_events] all but the last
    returned [LIBUSB_SUCCESS]. *)
Definition earlier_succeeded (rounds : list round) (k : nat) : Prop :=
  forall j, (S j < k)%nat -> r_rc (nth j rounds no_round) = LIBUSB_SUCCESS.

(** How a run of [main] that got as far as the loop has returned. *)
Definition returned_shape (w : world) (r : result Z) : Prop :=
  match r with
  | Ok rc s =>
      reaches_loop w = true ->
      exists k, (k <= List.length (w_rounds w))%nat /\
        own (log s) = loop_script w k ++ teardown w /\
        rc = loop_rc (w_rounds w) (w_claim_rc w) k /\
        earlier_succeeded (w_rounds w) k /\
        ((do_exit s = true /\ exists e, In (Handler, e) (log s)) \/
         ((0 < k)%nat /\ rc <> LIBUSB_SUCCESS))
  | _ => True
  end.

(** No transfer completes during this call of [libusb_handle_events]. *)
Definition no_completion (r : round) : Prop :=
  forall p xfr, ~ In (Completion p xfr) (r_occurrences r).

(** Between the two states the callback has not run. *)
Definition unattended (s s' : state) : Prop :=
  exists l, log s' = log s ++ l /\ Forall (fun oe => fst oe <> Callback) l.

(** ** Further sample inputs *)

(** A world in which the library cannot be initialized. *)
Definition no_library_world : world :=
  {| w_init_rc := -1; w_open := 100; w_claim_rc := 0; w_alloc := 200;
     w_submit_rc := fun _ => 0;
     w_clock := fun n => {| ts_sec := 10 + Z.of_nat n; ts_nsec := 0 |};
     w_sigint := fun _ => false;
     w_rounds := [] |}.

(** A world in which the second call of [libusb_handle_events] fails and
    no SIGINT arrives. *)
Definition break_world : world :=
  {| w_init_rc := 0; w_open := 100; w_claim_rc := 0; w_alloc := 200;
     w_submit_rc := fun _ => 0;
     w_clock := fun n => {| ts_sec := 10 + Z.of_nat n; ts_nsec := 0 |};
     w_sigint := fun _ => false;
     w_rounds :=
       [{| r_occurrences := [Completion 200 sample_iso]; r_rc := 0 |};
        {| r_occurrences := []; r_rc := -1 |};
        {| r_occurrences := [Completion 200 sample_iso]; r_rc := 0 |}] |}.

(** A world in which the allocation fails and the second call of
    [libusb_handle_events] fails; no SIGINT arrives. *)
Definition no_memory_break_world : world :=
  {| w_init_rc := 0; w_open := 100; w_claim_rc := 0; w_alloc := NULL;
     w_submit_rc := fun _ => 0;
     w_clock := fun n => {| ts_sec := 10 + Z.of_nat n; ts_nsec := 0 |};
     w_sigint := fun _ => false;
     w_rounds :=
       [{| r_occurrences := []; r_rc := 0 |};
        {| r_occurrences := []; r_rc := -1 |}] |}.

Definition is_stderr (e : event) : bool :=
  match e with Stderr _ _ => true | _ => false end.
(** ** Reasoning about runs: lemmas *)

Lemma own_app (l1 l2 : trace) : own (l1 ++ l2) = own l1 ++ own l2.
Proof.
  induction l1 as [|[[| |] e] l1 IH]; simpl; rewrite ?IH; reflexivity.
Qed.

Lemma own_others (l : trace) :
  Forall (fun oe => fst oe <> Main) l -> own l = [].
Proof.
  induction 1 as [|[[| |] e] l H _ IH]; simpl in *; auto; congruence.
Qed.

Lemma append_nil (s : state) : append [] s = s.
Proof. destruct s; unfold append; simpl; rewrite app_nil_r; reflexivity. Qed.

Lemma append_append (l1 l2 : trace) (s : state) :
  append l2 (append l1 s) = append (l1 ++ l2) s.
Proof. unfold append; simpl; rewrite app_assoc; reflexivity. Qed.

Section Wp.
Context {A B : Type}.
Implicit Types (Q : A -> state -> Prop) (R : abrupt -> state -> Prop).

Lemma wp_ret (a : A) Q R s : Q a s -> wp (ret a) Q R s.
Proof. exact (fun H => H). Qed.

Lemma wp_bind (m : M A) (f : A -> M B) (Q' : B -> state -> Prop) R s :
  wp m (fun a s' => wp (f a) Q' R s') R s -> wp (bind m f) Q' R s.
Proof. unfold wp, bind; destruct (m s); auto. Qed.

Lemma wp_get (f : state -> A) Q R s : Q (f s) s -> wp (get f) Q R s.
Proof. exact (fun H => H). Qed.

Lemma wp_exit (c : Z) Q R s : R (AExit c) s -> wp (exit c) Q R s.
Proof. exact (fun H => H). Qed.

Lemma wp_undefined Q R s : R AFault s -> wp undefined Q R s.
Proof. exact (fun H => H). Qed.

Lemma wp_mono (m : M A) Q Q' R R' s :
  wp m Q R s ->
  (forall a s', Q a s' -> Q' a s') ->
  (forall h s', R h s' -> R' h s') ->
  wp m Q' R' s.
Proof. unfold wp; destruct (m s); auto. Qed.

Lemma steady_bind (F : state -> state -> Prop) (m : M A) (f : A -> M B) :
  (forall s1 s2 s3, F s1 s2 -> F s2 s3 -> F s1 s3) ->
  steady F m -> (forall a, steady F (f a)) -> steady F (bind m f).
Proof.
  intros Htrans Hm Hf s; unfold bind.
  specialize (Hm s); destruct (m s) as [a s'| | |]; simpl in *; auto.
  eapply Htrans; [exact Hm | apply Hf].
Qed.

Lemma wp_steady (F : state -> state -> Prop) (m : M A) Q R s :
  steady F m ->
  (forall a s', F s s' -> m s = Ok a s' -> Q a s') ->
  (forall h s', F s s' -> R h s') ->
  wp m Q R s.
Proof.
  intros Hm HQ HR; unfold wp; specialize (Hm s).
  destruct (m s) eqn:E; simpl in *; auto.
Qed.
End Wp.

(** *** Frames *)

Lemma steady_ret {A} (F : state -> state -> Prop) (a : A) :
  (forall s, F s s) -> steady F (ret a).
Proof. intros H s; apply H. Qed.

Lemma steady_get {A} (F : state -> state -> Prop) (f : state -> A) :
  (forall s, F s s) -> steady F (get f).
Proof. intros H s; apply H. Qed.

Lemma steady_exit {A} (F : state -> state -> Prop) (c : Z) :
  (forall s, F s s) -> steady F (@exit A c).
Proof. intros H s; apply H. Qed.

Lemma steady_undefined {A} (F : state -> state -> Prop) :
  (forall s, F s s) -> steady F (@undefined A).
Proof. intros H s; apply H. Qed.

Lemma steady_for_loop (F : state -> state -> Prop) body n :
  (forall s, F s s) ->
  (forall s1 s2 s3, F s1 s2 -> F s2 s3 -> F s1 s3) ->
  (forall i, steady F (body i)) ->
  forall lo, steady F (for_loop lo n body).
Proof.
  intros Hr Ht Hb; induction n as [|n IH]; intros lo; simpl.
  - apply steady_ret, Hr.
  - apply steady_bind; auto.
Qed.

Lemma raised_refl s : raised s s [].
Proof. left; reflexivity. Qed.

Lemma raised_trans s1 s2 s3 l1 l2 :
  raised s1 s2 l1 -> raised s2 s3 l2 -> raised s1 s3 (l1 ++ l2).
Proof.
  unfold raised. intros [E1|[E1 [e1 H1]]] [E2|[E2 [e2 H2]]].
  - left; congruence.
  - right; split; auto. exists e2; apply in_or_app; auto.
  - right; split; [congruence|]. exists e1; apply in_or_app; auto.
  - right; split; auto. exists e2; apply in_or_app; auto.
Qed.

(** *** The handler *)

Lemma handler_ran_refl s : handler_ran s s.
Proof.
  unfold handler_ran; repeat split; auto.
  exists []; rewrite app_nil_r; auto using raised_refl.
Qed.

Lemma handler_ran_trans s1 s2 s3 :
  handler_ran s1 s2 -> handler_ran s2 s3 -> handler_ran s1 s3.
Proof.
  unfold handler_ran.
  intros (a1 & b1 & c1 & d1 & e1 & f1 & l1 & h1 & i1 & j1)
         (a2 & b2 & c2 & d2 & e2 & f2 & l2 & h2 & i2 & j2).
  repeat split; try congruence.
  exists (l1 ++ l2); repeat split.
  - rewrite h2, h1, app_assoc; reflexivity.
  - apply Forall_app; auto.
  - eapply raised_trans; eauto.
Qed.

Lemma sig_hdlr_ran w : steady handler_ran (sig_hdlr w).
Proof.
  intros s.
  unfold sig_hdlr, measure, read_clock, bind, emit, next_clock, get, ret,
    undefined, set_do_exit, handler_ran, raised, handler_event, handler_kind.
  cbn [final append log do_exit devh num_bytes num_xfer tv_start bench_xfr
       n_submit n_clock n_point].
  destruct (measure_rate _ _) as [rate|];
    cbn [final append log do_exit devh num_bytes num_xfer tv_start bench_xfr
         n_submit n_clock n_point]; repeat split; auto.
  - eexists [_; _]; split; [|split].
    + rewrite <- app_assoc; reflexivity.
    + constructor; [split; [reflexivity | left; reflexivity]|].
      constructor; [split; [reflexivity | right; eexists; reflexivity]|].
      constructor.
    + right; split; auto. eexists; left; reflexivity.
  - eexists [_]; split; [|split].
    + reflexivity.
    + constructor; [split; [reflexivity | left; reflexivity]|]. constructor.
    + left; reflexivity.
Qed.

Lemma sig_hdlr_outcome w s :
  match sig_hdlr w s with
  | Ok _ s' => do_exit s' = true
  | Fault _ => True
  | _ => False
  end.
Proof.
  unfold sig_hdlr, measure, read_clock, bind, emit, next_clock, get, ret.
  cbn [append log do_exit].
  destruct (measure_rate _ _); unfold emit, undefined, set_do_exit;
    cbn [do_exit]; auto.
Qed.

Lemma sigpoint_ran w : steady handler_ran (sigpoint w).
Proof.
  intros s. unfold sigpoint, bind, next_point.
  destruct (w_sigint w (n_point s)).
  - match goal with |- context [sig_hdlr w ?s0] =>
      exact (sig_hdlr_ran w s0) end.
  - apply (handler_ran_refl s).
Qed.

Lemma sigpoint_outcome w s :
  match sigpoint w s with Ok _ _ | Fault _ => True | _ => False end.
Proof.
  unfold sigpoint, bind, next_point.
  destruct (w_sigint w (n_point s)).
  - match goal with |- context [sig_hdlr w ?s0] =>
      pose proof (sig_hdlr_outcome w s0) as H; destruct (sig_hdlr w s0) end; auto.
  - exact I.
Qed.

Lemma raised_mono s s' l :
  raised s s' l -> do_exit s = true -> do_exit s' = true.
Proof. intros [E|[E _]]; congruence. Qed.

Lemma raised_flagged s s' l :
  flagged s -> raised s s' l -> forall l', log s' = l' ++ l ->
  (forall oe, In oe (log s) -> In oe l') -> flagged s'.
Proof.
  intros Hf [E|[E [e He]]] l' El Hsub Hx.
  - rewrite E in Hx. destruct (Hf Hx) as [e He]. exists e.
    rewrite El; apply in_or_app; left; auto.
  - exists e. rewrite El; apply in_or_app; right; auto.
Qed.

Lemma weave_handlers L tr l :
  weave L tr -> Forall handler_event l -> weave L (tr ++ l).
Proof.
  intros Hw; induction l as [|[o e] l IH] using rev_ind; intros Hl.
  - rewrite app_nil_r; exact Hw.
  - apply Forall_app in Hl as [Hl Hx]. inversion Hx as [|? ? [Ho Hk] _]; subst.
    simpl in *; subst o. rewrite app_assoc. apply weave_handler; auto.
Qed.

Lemma weave_background L tr l :
  weave L tr -> in_loop L ->
  Forall background_event l -> weave L (tr ++ l).
Proof.
  intros Hw Hin; induction l as [|[o e] l IH] using rev_ind; intros Hl.
  - rewrite app_nil_r; exact Hw.
  - apply Forall_app in Hl as [Hl Hx]. inversion Hx as [|? ? Hk _]; subst.
    rewrite app_assoc. unfold background_event in Hk; simpl in Hk.
    destruct o; [contradiction | apply weave_callback | apply weave_handler];
      auto.
Qed.

Lemma weave_own L tr : weave L tr -> own tr = L.
Proof.
  induction 1; simpl; auto; rewrite own_app; simpl;
    rewrite ?app_nil_r; congruence.
Qed.

Lemma handler_ran_At L d s s' : At L d s -> handler_ran s s' -> At L d s'.
Proof.
  intros (Hw & Hd & Hf) (E & _ & _ & _ & _ & _ & l & El & Hl & Hr);
    repeat split.
  - rewrite El; apply weave_handlers; auto.
  - congruence.
  - eapply raised_flagged; eauto.
Qed.

Lemma flagged_append s l : flagged s -> flagged (append l s).
Proof.
  intros Hf Hx. destruct (Hf Hx) as [e He]. exists e.
  simpl; apply in_or_app; auto.
Qed.

(** Rule for a library call made by [main]. *)
Lemma wp_call_at w e L d (Q : unit -> state -> Prop) R s :
  At L d s ->
  (forall s', At (L ++ [e]) d s' ->
              (do_exit s = true -> do_exit s' = true) -> Q tt s') ->
  (forall s', At L d s' -> R AFault s') ->
  wp (call w Main e) Q R s.
Proof.
  intros HA HQ HR. unfold call. apply wp_bind.
  pose proof (sigpoint_ran w s) as Hf. pose proof (sigpoint_outcome w s) as Ho.
  unfold wp at 1. destruct (sigpoint w s) as [[] s1| |s1|]; simpl in *; try tauto.
  - unfold wp; simpl. apply HQ.
    + destruct (handler_ran_At _ _ _ _ HA Hf) as (Hw & Hd & Hfl).
      repeat split; simpl; auto.
      * apply weave_main; exact Hw.
      * apply (flagged_append s1); exact Hfl.
    + destruct Hf as (_ & _ & _ & _ & _ & _ & l & _ & _ & Hr).
      eapply raised_mono; eauto.
  - apply HR. eapply handler_ran_At; eauto.
Qed.

(** *** The callback *)

Lemma background_refl s : background s s.
Proof.
  unfold background; repeat split; auto.
  exists []; rewrite app_nil_r; auto using raised_refl.
Qed.

Lemma background_trans s1 s2 s3 :
  background s1 s2 -> background s2 s3 -> background s1 s3.
Proof.
  unfold background.
  intros (a1 & b1 & c1 & l1 & h1 & i1 & j1) (a2 & b2 & c2 & l2 & h2 & i2 & j2).
  repeat split; try congruence.
  exists (l1 ++ l2); repeat split.
  - rewrite h2, h1, app_assoc; reflexivity.
  - apply Forall_app; auto.
  - eapply raised_trans; eauto.
Qed.

Lemma handler_ran_background s s' : handler_ran s s' -> background s s'.
Proof.
  intros (a & _ & _ & b & c & _ & l & E & Hl & Hr).
  repeat split; auto. exists l; repeat split; auto.
  eapply Forall_impl; [|exact Hl].
  intros [o e] [Ho Hk]; unfold background_event; simpl in *; subst o; exact Hk.
Qed.

Lemma background_At L d s s' :
  At L d s -> in_loop L -> background s s' -> At L d s'.
Proof.
  intros (Hw & Hd & Hf) Hin (E & _ & _ & l & El & Hl & Hr); repeat split.
  - rewrite El; apply weave_background; auto.
  - congruence.
  - eapply raised_flagged; eauto.
Qed.

Lemma background_emit o e :
  background_event (o, e) -> steady background (emit o e).
Proof.
  intros H s; unfold background; simpl; repeat split; auto.
  exists [(o, e)]; repeat split; auto. left; reflexivity.
Qed.

Lemma background_set_counters nb nx : steady background (set_counters nb nx).
Proof.
  intros s; unfold background; simpl; repeat split; auto.
  exists []; rewrite app_nil_r; repeat split; auto. left; reflexivity.
Qed.

Lemma background_next_submit w : steady background (next_submit w).
Proof.
  intros s; unfold background; simpl; repeat split; auto.
  exists []; rewrite app_nil_r; repeat split; auto. left; reflexivity.
Qed.

Ltac background_tac :=
  repeat lazymatch goal with
    | |- steady _ (bind _ _) =>
        apply steady_bind; [exact background_trans | | intros ?]
    | |- steady _ (ret _) => apply steady_ret; exact background_refl
    | |- steady _ (get _) => apply steady_get; exact background_refl
    | |- steady _ (exit _) => apply steady_exit; exact background_refl
    | |- steady _ undefined => apply steady_undefined; exact background_refl
    | |- steady _ (emit _ _) => apply background_emit; exact I
    | |- steady _ (set_counters _ _) => apply background_set_counters
    | |- steady _ (next_submit _) => apply background_next_submit
    | |- steady _ (for_loop _ _ _) =>
        apply steady_for_loop;
        [exact background_refl | exact background_trans | intros ?]
    | |- steady _ (if ?b then _ else _) => destruct b
    | |- steady _ (match ?x with Some _ => _ | None => _ end) => destruct x
    end.

Lemma cb_xfr_background w p xfr : steady background (cb_xfr w p xfr).
Proof.
  unfold cb_xfr, libusb_free_transfer, libusb_submit_transfer, call,
    check_pack, dump_byte.
  background_tac.
Qed.

Lemma run_occurrences_background w l : steady background (run_occurrences w l).
Proof.
  induction l as [|[p xfr|] l IH]; simpl.
  - apply steady_ret, background_refl.
  - apply steady_bind; [exact background_trans | apply cb_xfr_background | auto].
  - apply steady_bind; [exact background_trans | | auto].
    intros s; apply handler_ran_background, sig_hdlr_ran.
Qed.

(** *** The event loop *)

Lemma wp_sigpoint_at w L d (Q : unit -> state -> Prop) R s :
  At L d s ->
  (forall s', At L d s' -> (do_exit s = true -> do_exit s' = true) -> Q tt s') ->
  (forall s', At L d s' -> R AFault s') ->
  wp (sigpoint w) Q R s.
Proof.
  intros HA HQ HR.
  pose proof (sigpoint_ran w s) as Hf. pose proof (sigpoint_outcome w s) as Ho.
  unfold wp. destruct (sigpoint w s) as [[] s1| |s1|]; simpl in *; try tauto.
  - apply HQ.
    + eapply handler_ran_At; eauto.
    + destruct Hf as (_ & _ & _ & _ & _ & _ & l & _ & _ & Hr).
      eapply raised_mono; eauto.
  - apply HR. eapply handler_ran_At; eauto.
Qed.

Lemma wp_handle_events_at w r L d (Q : Z -> state -> Prop) R s :
  At L d s ->
  (forall s', At (L ++ [Call_handle_events NULL]) d s' -> Q (r_rc r) s') ->
  (forall h s', At L d s' \/ At (L ++ [Call_handle_events NULL]) d s' ->
                R h s') ->
  wp (libusb_handle_events w NULL r) Q R s.
Proof.
  intros HA HQ HR. unfold libusb_handle_events.
  apply wp_bind. eapply wp_call_at; eauto.
  intros s1 H1 _. apply wp_bind.
  eapply wp_steady; [apply run_occurrences_background | |].
  - intros [] s2 Hb _. apply wp_ret, HQ.
    eapply background_At; eauto. exists L; reflexivity.
  - intros h s2 Hb. apply HR. right.
    eapply background_At; eauto. exists L; reflexivity.
Qed.

Lemma repeat_snoc {X} (x : X) (k : nat) L :
  (L ++ [x]) ++ repeat x k = L ++ repeat x (S k).
Proof. rewrite <- app_assoc; reflexivity. Qed.

(** The loop calls [libusb_handle_events] some number [k] of times and
    does nothing else itself; it is left when [do_exit] is set or when the
    last call did not return [LIBUSB_SUCCESS]. *)
Lemma wp_event_loop_at w rounds : forall rc L d (Q : Z -> state -> Prop) R s,
  At L d s ->
  (forall k rc' s', (k <= List.length rounds)%nat ->
     At (L ++ repeat (Call_handle_events NULL) k) d s' ->
     do_exit s' = true \/ ((0 < k)%nat /\ rc' <> LIBUSB_SUCCESS) ->
     rc' = loop_rc rounds rc k -> Q rc' s') ->
  (forall h k s', (k <= List.length rounds)%nat ->
     At (L ++ repeat (Call_handle_events NULL) k) d s' -> R h s') ->
  wp (event_loop w rounds rc) Q R s.
Proof.
  induction rounds as [|r rounds IH]; intros rc L d Q R s HA HQ HR.
  - simpl. apply wp_bind. eapply wp_sigpoint_at; eauto.
    + intros s1 H1 _. apply wp_bind, wp_get.
      destruct (do_exit s1) eqn:E.
      * apply wp_ret. apply (HQ O); simpl; auto. rewrite app_nil_r; auto.
      * unfold wp. apply (HR AWait O); simpl; auto. rewrite app_nil_r; auto.
    + intros s1 H1. apply (HR AFault O); simpl; auto. rewrite app_nil_r; auto.
  - simpl. apply wp_bind. eapply wp_sigpoint_at; eauto.
    + intros s1 H1 _. apply wp_bind, wp_get.
      destruct (do_exit s1) eqn:E.
      * apply wp_ret. apply (HQ O); simpl; auto with arith.
        rewrite app_nil_r; auto.
      * apply wp_bind. eapply wp_handle_events_at; eauto.
        -- intros s2 H2.
           destruct (r_rc r =? LIBUSB_SUCCESS) eqn:Erc; simpl.
           ++ eapply IH; eauto.
              ** intros k rc' s3 Hk H3 Hex Hrc. rewrite repeat_snoc in H3.
                 apply (HQ (S k));
                   [simpl; lia | auto | | subst rc'; destruct k; reflexivity].
                 destruct Hex as [Hex|[_ Hex]]; [left | right; split]; auto.
                 lia.
              ** intros h k s3 Hk H3. rewrite repeat_snoc in H3.
                 apply (HR h (S k)); [simpl; lia | auto].
           ++ apply wp_ret.
              apply (HQ 1%nat); [simpl; lia | auto | | reflexivity].
              right. split; [lia|]. apply Z.eqb_neq; exact Erc.
        -- intros h s2 [H2|H2].
           ++ apply (HR h O); [simpl; lia | simpl; rewrite app_nil_r; auto].
           ++ apply (HR h 1%nat); [simpl; lia | auto].
    + intros s1 H1. apply (HR AFault O); simpl; auto with arith.
      rewrite app_nil_r; auto.
Qed.

(** *** [main] *)

Lemma wp_result {A} (m : M A) (P : result A -> Prop) s :
  wp m (fun a s' => P (Ok a s')) (fun h s' => P (abrupt_result h s')) s ->
  P (m s).
Proof. unfold wp; destruct (m s); auto. Qed.

Lemma wp_emit_at e L d (Q : unit -> state -> Prop) R s :
  At L d s ->
  (forall s', At (L ++ [e]) d s' -> do_exit s' = do_exit s -> Q tt s') ->
  wp (emit Main e) Q R s.
Proof.
  intros (HL & Hd & Hf) HQ. unfold wp; simpl. apply HQ; auto.
  repeat split; simpl; auto.
  - apply weave_main; exact HL.
  - apply (flagged_append s); exact Hf.
Qed.

Lemma wp_set_devh_at d' L d (Q : unit -> state -> Prop) R s :
  At L d s ->
  (forall s', At L d' s' -> do_exit s' = do_exit s -> Q tt s') ->
  wp (set_devh d') Q R s.
Proof.
  intros (HL & Hd & Hf) HQ. unfold wp; simpl. apply HQ; auto.
  repeat split; auto.
Qed.

Lemma wp_set_bench_xfr_at p L d (Q : unit -> state -> Prop) R s :
  At L d s ->
  (forall s', At L d s' -> do_exit s' = do_exit s -> Q tt s') ->
  wp (set_bench_xfr p) Q R s.
Proof.
  intros (HL & Hd & Hf) HQ. unfold wp; simpl. apply HQ; auto.
  repeat split; auto.
Qed.

Lemma wp_set_tv_start_at tv L d (Q : unit -> state -> Prop) R s :
  At L d s ->
  (forall s', At L d s' -> do_exit s' = do_exit s -> Q tt s') ->
  wp (set_tv_start tv) Q R s.
Proof.
  intros (HL & Hd & Hf) HQ. unfold wp; simpl. apply HQ; auto.
  repeat split; auto.
Qed.

Lemma wp_next_clock_at w L d (Q : timespec -> state -> Prop) R s :
  At L d s ->
  (forall ts s', At L d s' -> do_exit s' = do_exit s -> Q ts s') ->
  wp (next_clock w) Q R s.
Proof.
  intros (HL & Hd & Hf) HQ. unfold wp; simpl. apply HQ; auto.
  repeat split; auto.
Qed.

Lemma wp_next_submit_at w L d (Q : Z -> state -> Prop) R s :
  At L d s ->
  (forall rc s', At L d s' -> do_exit s' = do_exit s -> Q rc s') ->
  wp (next_submit w) Q R s.
Proof.
  intros (HL & Hd & Hf) HQ. unfold wp; simpl. apply HQ; auto.
  repeat split; auto.
Qed.

Lemma wp_get_devh_at L d (Q : pointer -> state -> Prop) R s :
  At L d s -> Q d s -> wp (get devh) Q R s.
Proof. intros (_ & Hd & _) HQ. unfold wp; simpl. rewrite Hd; exact HQ. Qed.

(** Decide a test from what is known, or split on it. *)
Ltac wp_test b :=
  first
    [ match goal with E : b = _ |- _ => rewrite E end
    | destruct b eqn:? ];
  cbn [negb].

Ltac wp_at_step :=
  lazymatch goal with
  | |- wp (bind _ _) _ _ _ => apply wp_bind
  | |- wp (ret _) _ _ _ => apply wp_ret
  | |- wp (get devh) _ _ _ => eapply wp_get_devh_at; [eassumption |]
  | |- wp (get _) _ _ _ => apply wp_get
  | |- wp (if negb ?b then _ else _) _ _ _ => wp_test b
  | |- wp (if ?b then _ else _) _ _ _ => wp_test b
  | |- wp (exit _) _ _ _ => apply wp_exit
  | |- wp (emit Main _) _ _ _ => eapply wp_emit_at; [eassumption | intros ? ? _]
  | |- wp (set_devh _) _ _ _ =>
      eapply wp_set_devh_at; [eassumption | intros ? ? _]
  | |- wp (set_bench_xfr _) _ _ _ =>
      eapply wp_set_bench_xfr_at; [eassumption | intros ? ? _]
  | |- wp (set_tv_start _) _ _ _ =>
      eapply wp_set_tv_start_at; [eassumption | intros ? ? _]
  | |- wp (next_clock _) _ _ _ =>
      eapply wp_next_clock_at; [eassumption | intros ? ? ? _]
  | |- wp (next_submit _) _ _ _ =>
      eapply wp_next_submit_at; [eassumption | intros ? ? ? _]
  | |- wp (call _ Main _) _ _ _ =>
      eapply wp_call_at; [eassumption | intros ? ? _ | intros ? ?]
  end.

Ltac wp_at := repeat wp_at_step.

Lemma initial_At : At [] NULL initial_state.
Proof.
  repeat split; [apply weave_nil |]. intros H; discriminate H.
Qed.

Lemma prefix_of_app {X} (L l l' : list X) :
  prefix_of l l' -> prefix_of (L ++ l) (L ++ l').
Proof. intros [r ->]. exists r. rewrite app_assoc; reflexivity. Qed.

(** Use the tests decided so far. *)
Ltac use_tests :=
  repeat match goal with
         | E : _ = true |- _ => rewrite ?E in *; clear E
         | E : _ = false |- _ => rewrite ?E in *; clear E
         end.

Lemma wp_benchmark_in_at w ep L d (Q : Z -> state -> Prop) R s :
  At L d s ->
  (forall rc s', At (L ++ bench_script w d ep) d s' -> Q rc s') ->
  (forall s' L', prefix_of L' (bench_script w d ep) -> At (L ++ L') d s' ->
                 R AFault s') ->
  wp (benchmark_in w ep) Q R s.
Proof.
  intros HA HQ HR.
  unfold benchmark_in, libusb_alloc_transfer, libusb_fill_iso_transfer,
    libusb_set_iso_packet_lengths, libusb_fill_bulk_transfer, get_timestamp,
    read_clock, libusb_submit_transfer.
  wp_at; unfold bench_script in *; use_tests;
    change (sizeof_buf / 16) with 128 in *; change sizeof_buf with 2048 in *;
    match goal with
    | H : At _ d ?s |- Q _ ?s =>
        apply HQ; rewrite <- ?app_assoc in H; exact H
    | H : At L d ?s |- R AFault ?s =>
        apply (HR s []); [eexists; reflexivity | rewrite app_nil_r; exact H]
    | H : At _ d ?s |- R AFault ?s =>
        rewrite <- ?app_assoc in H; eapply HR; [|exact H];
        simpl; eexists; reflexivity
    end.
Qed.

Ltac goal_tests :=
  repeat match goal with
         | E : ?b = _ |- context [?b] => rewrite E
         end.

Ltac wp_main :=
  repeat first
    [ wp_at_step
    | eapply wp_benchmark_in_at; [eassumption | intros ? ? ? | intros ? ? ? ?]
    | eapply wp_event_loop_at;
      [eassumption | intros ? ? ? ? ? ? ? | intros ? ? ? ? ?] ].

(** The actions so far agree with the script. *)
Ltac on_script :=
  match goal with
  | H : At _ _ ?s |- context [log ?s] =>
      let Hw := fresh in
      let Hf := fresh in
      destruct H as (Hw & _ & Hf); eexists;
      split; [assumption || lia | split; [exact Hw | split; [exact Hf|]]]
  end;
  unfold script, returned, loop_rc, reaches_loop in *; goal_tests;
  try match goal with
      | H : prefix_of _ (bench_script _ _ _) |- _ =>
          let r := fresh "r" in destruct H as [r ->]
      end;
  repeat match goal with
         | |- _ /\ _ => split
         | |- prefix_of _ _ => eexists
         end;
  subst; rewrite <- ?app_assoc; simpl; try reflexivity.

Lemma main_runs w : main_shape w (main w initial_state).
Proof.
  apply wp_result. pose proof initial_At as H0.
  unfold main, libusb_init_context, libusb_error_name,
    libusb_open_device_with_vid_pid, libusb_claim_interface, out,
    libusb_close, libusb_exit, libusb_release_interface.
  wp_main.
  all: unfold main_shape;
    try match goal with |- context [abrupt_result ?h _] => is_var h; destruct h end;
    unfold abrupt_result, final.
  all: first [ match goal with
               | Hk : (?k <= Datatypes.length _)%nat |- _ => exists k
               end
             | exists O ].
  all: on_script.
Qed.

(** *** The loops of the callback *)

Lemma for_loop_lines {X} (good : X -> Prop) (line : Z -> X -> trace)
    (body : Z -> M unit) (l : list X) :
  forall (pre tail : list X) (s : state),
  (forall i x s', nth_error (pre ++ l ++ tail) (Z.to_nat i) = Some x ->
                  good x -> body i s' = Ok tt (append (line i x) s')) ->
  Forall good l ->
  for_loop (Z.of_nat (List.length pre)) (List.length l) body s =
  Ok tt (append (lines line (Z.of_nat (List.length pre)) l) s).
Proof.
  induction l as [|x l IH]; intros pre tail s Hbody Hgood; simpl.
  - unfold ret; rewrite append_nil; reflexivity.
  - inversion Hgood as [|? ? Hx Hl]; subst.
    unfold bind. rewrite (Hbody _ x).
    + replace (Z.of_nat (List.length pre) + 1)
        with (Z.of_nat (List.length (pre ++ [x])))
        by (rewrite length_app; simpl; lia).
      rewrite (IH (pre ++ [x]) tail).
      * rewrite append_append; reflexivity.
      * intros i y s' Hn Hy. apply Hbody; auto.
        rewrite <- app_assoc in Hn; exact Hn.
      * exact Hl.
    + rewrite Nat2Z.id, nth_error_app2, Nat.sub_diag; auto.
    + exact Hx.
Qed.

Lemma for_loop_stops {X} (good : X -> Prop) (line : Z -> X -> trace)
    (body : Z -> M unit) (c : Z) (stop : origin * event) (l1 : list X) :
  forall (pre : list X) (x : X) (rest : list X) (s : state),
  (forall i y s', nth_error (pre ++ l1 ++ x :: rest) (Z.to_nat i) = Some y ->
                  good y -> body i s' = Ok tt (append (line i y) s')) ->
  (forall s', body (Z.of_nat (List.length pre + List.length l1)) s' =
              Exited c (append [stop] s')) ->
  Forall good l1 ->
  forall n, (List.length l1 < n)%nat ->
  for_loop (Z.of_nat (List.length pre)) n body s =
  Exited c (append (lines line (Z.of_nat (List.length pre)) l1 ++ [stop]) s).
Proof.
  induction l1 as [|y l1 IH]; intros pre x rest s Hbody Hstop Hgood n Hn;
    (destruct n as [|n]; [simpl in Hn; lia|]); simpl.
  - unfold bind. simpl in Hstop. rewrite Nat.add_0_r in Hstop.
    rewrite Hstop; reflexivity.
  - inversion Hgood as [|? ? Hy Hl]; subst.
    unfold bind. rewrite (Hbody _ y).
    + replace (Z.of_nat (List.length pre) + 1)
        with (Z.of_nat (List.length (pre ++ [y])))
        by (rewrite length_app; simpl; lia).
      rewrite (IH (pre ++ [y]) x rest).
      * rewrite append_append, app_assoc; reflexivity.
      * intros i z s' Hz Hg. apply Hbody; auto.
        rewrite <- app_assoc in Hz; exact Hz.
      * intros s'. rewrite <- Hstop. f_equal. rewrite length_app; simpl. lia.
      * exact Hl.
      * simpl in Hn; lia.
    + rewrite Nat2Z.id, nth_error_app2, Nat.sub_diag; auto.
    + exact Hy.
Qed.

Lemma check_pack_good xfr i pack s :
  nth_error (xfr_iso_packet_desc xfr) (Z.to_nat i) = Some pack ->
  pack_completed pack ->
  check_pack xfr i s = Ok tt (append (pack_line i pack) s).
Proof.
  intros Hn Hp. unfold check_pack. rewrite Hn. unfold pack_completed in Hp.
  rewrite Hp. reflexivity.
Qed.

Lemma check_pack_bad xfr i pack s :
  nth_error (xfr_iso_packet_desc xfr) (Z.to_nat i) = Some pack ->
  ~ pack_completed pack ->
  check_pack xfr i s = Exited 5 (append [pack_error_line i pack] s).
Proof.
  intros Hn Hp. unfold check_pack. rewrite Hn. unfold pack_completed in Hp.
  unfold pack_error_line.
  destruct (pk_status pack) eqn:E; try reflexivity. congruence.
Qed.

Lemma dump_byte_ok xfr i b s :
  nth_error (xfr_buffer xfr) (Z.to_nat i) = Some b ->
  dump_byte xfr i s = Ok tt (append (dump_line i b) s).
Proof.
  intros Hn. unfold dump_byte, dump_line, separator. rewrite Hn.
  unfold bind, emit.
  destruct (negb (Z.rem i 16 =? 0)); [|destruct (negb (Z.rem i 8 =? 0))];
    rewrite append_append; reflexivity.
Qed.

Lemma packets_loop_ok xfr s :
  wf_transfer xfr -> Forall pack_completed (packets xfr) ->
  for_loop 0 (Z.to_nat (xfr_num_iso_packets xfr)) (check_pack xfr) s =
  Ok tt (append (lines pack_line 0 (packets xfr)) s).
Proof.
  intros [Hwf _] Hgood.
  replace (Z.to_nat (xfr_num_iso_packets xfr)) with (List.length (packets xfr))
    by (unfold packets; rewrite length_firstn; lia).
  apply (for_loop_lines pack_completed pack_line (check_pack xfr) (packets xfr)
           [] (skipn (Z.to_nat (xfr_num_iso_packets xfr)) (xfr_iso_packet_desc xfr)));
    auto.
  intros i x s' Hn Hx. apply check_pack_good; auto.
  simpl in Hn. unfold packets in Hn. rewrite firstn_skipn in Hn. exact Hn.
Qed.

Lemma dump_loop_ok xfr s :
  wf_transfer xfr ->
  for_loop 0 (Z.to_nat (xfr_actual_length xfr)) (dump_byte xfr) s =
  Ok tt (append (lines dump_line 0 (received xfr)) s).
Proof.
  intros [_ Hwf].
  replace (Z.to_nat (xfr_actual_length xfr)) with (List.length (received xfr))
    by (unfold received; rewrite length_firstn; lia).
  apply (for_loop_lines (fun _ => True) dump_line (dump_byte xfr) (received xfr)
           [] (skipn (Z.to_nat (xfr_actual_length xfr)) (xfr_buffer xfr))).
  - intros i x s' Hn _. apply dump_byte_ok.
    simpl in Hn. unfold received in Hn. rewrite firstn_skipn in Hn. exact Hn.
  - apply Forall_forall; auto.
Qed.

(** A transfer that passes the checks is reported, counted and
    re-submitted. *)
Lemma cb_xfr_completed w p xfr s :
  wf_transfer xfr -> completed xfr ->
  cb_xfr w p xfr s =
  if w_submit_rc w (n_submit s) <? 0 then
    Exited 1 (append [(Callback, Stderr "error re-submitting URB\n" [])]
                     (resubmitted p xfr s))
  else Ok tt (resubmitted p xfr s).
Proof.
  intros Hwf [Hst Hiso]. unfold cb_xfr. rewrite Hst. simpl negb. cbv iota.
  unfold bind at 1. unfold ret at 1.
  unfold bind at 1.
  assert (Hpk : (if is_isochronous (xfr_type xfr)
                 then for_loop 0 (Z.to_nat (xfr_num_iso_packets xfr)) (check_pack xfr)
                 else ret tt) s =
                Ok tt (append (if is_isochronous (xfr_type xfr)
                               then lines pack_line 0 (packets xfr) else []) s)).
  { destruct (xfr_type xfr) eqn:Ety; simpl;
      try (unfold ret; rewrite append_nil; reflexivity).
    apply packets_loop_ok; auto. }
  rewrite Hpk. unfold bind at 1. unfold emit at 1.
  unfold bind at 1. rewrite dump_loop_ok by exact Hwf.
  unfold bind, get, set_counters, libusb_submit_transfer, call, emit,
    next_submit, ret, exit. simpl.
  unfold resubmitted, report, append; simpl.
  destruct (w_submit_rc w (n_submit s) <? 0); simpl;
    repeat (f_equal; rewrite <- ?app_assoc; simpl); reflexivity.
Qed.

(** A transfer that did not complete: message, free, [exit(3)]. *)
Lemma cb_xfr_failed w p xfr s :
  xfr_status xfr <> LIBUSB_TRANSFER_COMPLETED ->
  cb_xfr w p xfr s =
  Exited 3 (append [(Callback, Stderr "transfer status %d\n"
                                [status_code (xfr_status xfr)]);
                    (Callback, Call_free_transfer p)] s).
Proof.
  intros Hst. unfold cb_xfr.
  destruct (xfr_status xfr) eqn:E; try congruence;
    unfold bind, emit, libusb_free_transfer, call, exit; simpl;
    rewrite append_append; reflexivity.
Qed.

Lemma pack_completed_dec pack : {pack_completed pack} + {~ pack_completed pack}.
Proof.
  unfold pack_completed. destruct (pk_status pack); auto; right; discriminate.
Qed.

(** The first packet that did not complete, if there is one. *)
Lemma first_bad_pack (l : list libusb_iso_packet_descriptor) :
  ~ Forall pack_completed l ->
  exists l1 x l2, l = l1 ++ x :: l2 /\ Forall pack_completed l1 /\
                  ~ pack_completed x.
Proof.
  induction l as [|y l IH]; intros Hn.
  - exfalso; apply Hn; constructor.
  - destruct (pack_completed_dec y) as [Hy|Hy].
    + destruct IH as (l1 & x & l2 & -> & H1 & Hx).
      * intros Hl; apply Hn; constructor; auto.
      * exists (y :: l1), x, l2; repeat split; auto.
    + exists [], y, l; repeat split; auto.
Qed.

(** An isochronous transfer with a packet that did not complete: the
    packets before it are printed, then message and [exit(5)]. *)
Lemma cb_xfr_bad_pack w p xfr l1 x l2 s :
  wf_transfer xfr ->
  xfr_status xfr = LIBUSB_TRANSFER_COMPLETED ->
  xfr_type xfr = LIBUSB_TRANSFER_TYPE_ISOCHRONOUS ->
  packets xfr = l1 ++ x :: l2 ->
  Forall pack_completed l1 -> ~ pack_completed x ->
  cb_xfr w p xfr s =
  Exited 5 (append (lines pack_line 0 l1 ++
                    [pack_error_line (Z.of_nat (List.length l1)) x]) s).
Proof.
  intros [Hwf _] Hst Hty Hsplit Hgood Hbad. unfold cb_xfr.
  rewrite Hst, Hty. simpl negb. simpl is_isochronous. cbv iota.
  unfold bind at 1. unfold ret at 1. unfold bind at 1.
  assert (Hdesc : xfr_iso_packet_desc xfr =
                  [] ++ l1 ++ x :: l2 ++
                  skipn (Z.to_nat (xfr_num_iso_packets xfr))
                        (xfr_iso_packet_desc xfr)).
  { simpl.
    rewrite <- (firstn_skipn (Z.to_nat (xfr_num_iso_packets xfr))
                             (xfr_iso_packet_desc xfr)) at 1.
    fold (packets xfr). rewrite Hsplit, <- app_assoc. reflexivity. }
  rewrite (for_loop_stops pack_completed pack_line (check_pack xfr) 5
             (pack_error_line (Z.of_nat (List.length l1)) x) l1 []
             x (l2 ++ skipn (Z.to_nat (xfr_num_iso_packets xfr))
                           (xfr_iso_packet_desc xfr))); auto.
  - intros i y s' Hn Hy. apply check_pack_good; auto. rewrite Hdesc; exact Hn.
  - intros s'. simpl. apply check_pack_bad; auto.
    rewrite Hdesc, Nat2Z.id. simpl.
    rewrite nth_error_app2, Nat.sub_diag; auto.
  - assert (E : List.length (packets xfr) = Z.to_nat (xfr_num_iso_packets xfr))
      by (unfold packets; rewrite length_firstn; lia).
    rewrite Hsplit, length_app in E. simpl in E. lia.
Qed.

(** ** The elapsed time computed by [measure] *)

Lemma to_long_small z : - 2 ^ 63 <= z < 2 ^ 63 -> to_long z = z.
Proof.
  intros H. unfold to_long, ULONG_MODULUS. rewrite Z.mod_small; lia.
Qed.

Lemma to_ulong_small z : 0 <= z < 2 ^ 64 -> to_ulong z = z.
Proof. intros H. unfold to_ulong, ULONG_MODULUS. apply Z.mod_small; lia. Qed.

(** Without a borrow the result is the elapsed time. *)
Lemma measure_without_borrow start stop :
  valid_timeval start -> valid_timeval stop ->
  tv_sec start <= tv_sec stop -> tv_usec start <= tv_usec stop ->
  measure_diff_msec start stop = elapsed_msec start stop.
Proof.
  intros [Hs1 Hu1] [Hs2 Hu2] Hsec Husec.
  unfold measure_diff_msec, elapsed_msec, usec_of.
  rewrite !to_long_small by lia.
  destruct (tv_usec stop - tv_usec start <? 0) eqn:E;
    [apply Z.ltb_lt in E; lia|].
  assert (0 <= (tv_usec stop - tv_usec start) / 1000 < 1000)
    by (split; [apply Z.div_pos; lia | apply Z.div_lt_upper_bound; lia]).
  rewrite ?(to_long_small (tv_sec stop - tv_sec start)) by lia.
  rewrite (to_ulong_small (tv_sec stop - tv_sec start)) by lia.
  rewrite (to_ulong_small ((tv_sec stop - tv_sec start) * 1000)) by lia.
  rewrite (to_ulong_small (tv_usec stop - tv_usec start)) by lia.
  rewrite to_ulong_small by lia.
  replace (tv_sec stop * 1000000 + tv_usec stop -
           (tv_sec start * 1000000 + tv_usec start))
    with ((tv_sec stop - tv_sec start) * 1000 * 1000 +
          (tv_usec stop - tv_usec start)) by lia.
  rewrite Z.div_add_l by lia. reflexivity.
Qed.

(** With a borrow the result is 999000 milliseconds too large: a second
    has 1000000 microseconds, the code adds [NSEC_PER_SEC]. *)
Lemma measure_with_borrow start stop :
  valid_timeval start -> valid_timeval stop ->
  tv_sec start < tv_sec stop -> tv_usec stop < tv_usec start ->
  measure_diff_msec start stop = elapsed_msec start stop + 999000.
Proof.
  intros [Hs1 Hu1] [Hs2 Hu2] Hsec Husec.
  unfold measure_diff_msec, elapsed_msec, usec_of, NSEC_PER_SEC.
  rewrite !to_long_small by lia.
  destruct (tv_usec stop - tv_usec start <? 0) eqn:E;
    [|apply Z.ltb_ge in E; lia].
  rewrite ?(to_long_small (tv_sec stop - tv_sec start)) by lia.
  rewrite ?(to_long_small (tv_sec stop - tv_sec start - 1)) by lia.
  rewrite ?(to_long_small (tv_usec stop - tv_usec start + 1000000000)) by lia.
  replace (tv_usec stop - tv_usec start + 1000000000)
    with ((tv_usec stop - tv_usec start) + 1000000 * 1000) by lia.
  assert (H1 : -1000 <= (tv_usec stop - tv_usec start) / 1000 < 0)
    by (split; [apply Z.div_le_lower_bound; lia
               | apply Z.div_lt_upper_bound; lia]).
  rewrite (to_ulong_small (tv_sec stop - tv_sec start - 1)) by lia.
  rewrite (to_ulong_small ((tv_sec stop - tv_sec start - 1) * 1000)) by lia.
  rewrite (to_ulong_small (tv_usec stop - tv_usec start + 1000000 * 1000))
    by lia.
  rewrite Z.div_add by lia.
  rewrite to_ulong_small by lia.
  replace (tv_sec stop * 1000000 + tv_usec stop -
           (tv_sec start * 1000000 + tv_usec start))
    with ((tv_sec stop - tv_sec start) * 1000 * 1000 +
          (tv_usec stop - tv_usec start)) by lia.
  rewrite Z.div_add_l by lia. lia.
Qed.

(** C1 (code defect).  The specification wants [diff_msec] to be the
    elapsed time also when a second is borrowed.  From 0.5 s to 1.0 s
    there are 500 ms, but [measure] computes 999500 ms and prints a rate
    of 1 byte/sec for 1000 bytes instead of 2000. *)
Theorem measure_borrow_is_wrong :
  elapsed_msec borrow_start borrow_stop = 500 /\
  measure_diff_msec borrow_start borrow_stop = 999500 /\
  log (final (measure borrow_world borrow_state)) =
    [(Handler, Call_get_timestamp);
     (Handler, Stdout measure_fmt [1; 1000; 999500; 1])] /\
  measure_rate 1000 (elapsed_msec borrow_start borrow_stop) = Some 2000.
Proof. repeat apply conj; vm_compute; reflexivity. Qed.

(** ** The completion callback re-submits *)

(** C2.  Whenever the callback is invoked on a transfer whose status is
    [LIBUSB_TRANSFER_COMPLETED] and, if it is isochronous, whose packets
    all have that status, it calls [libusb_submit_transfer] on the very
    transfer [p] it received, as the last action of its report; if that
    call fails the process terminates with [exit(1)], otherwise the
    callback returns.  This holds in every state, so on every completion,
    whether or not [do_exit] is already set. *)
Theorem cb_xfr_resubmits w p xfr s :
  wf_transfer xfr -> completed xfr ->
  exists s',
    log s' = log s ++ report xfr ++ [(Callback, Call_submit_transfer p)] /\
    n_submit s' = S (n_submit s) /\
    (0 <= w_submit_rc w (n_submit s) -> cb_xfr w p xfr s = Ok tt s') /\
    (w_submit_rc w (n_submit s) < 0 ->
     cb_xfr w p xfr s =
     Exited 1 (append [(Callback, Stderr "error re-submitting URB\n" [])] s')).
Proof.
  intros Hwf Hc. exists (resubmitted p xfr s).
  rewrite (cb_xfr_completed w p xfr s Hwf Hc).
  repeat split.
  - intros H. apply Z.ltb_ge in H. rewrite H. reflexivity.
  - intros H. apply Z.ltb_lt in H. rewrite H. reflexivity.
Qed.

Lemma cb_xfr_resubmits_witness :
  exists s',
    log s' = log initial_state ++ report sample_iso ++
             [(Callback, Call_submit_transfer 200)] /\
    n_submit s' = S (n_submit initial_state) /\
    (0 <= w_submit_rc sample_world (n_submit initial_state) ->
     cb_xfr sample_world 200 sample_iso initial_state = Ok tt s') /\
    (w_submit_rc sample_world (n_submit initial_state) < 0 ->
     cb_xfr sample_world 200 sample_iso initial_state =
     Exited 1 (append [(Callback, Stderr "error re-submitting URB\n" [])] s')).
Proof.
  apply (cb_xfr_resubmits sample_world 200 sample_iso initial_state).
  - split; simpl; lia.
  - split; [reflexivity|]. intros _. repeat constructor.
Defined.

(** ** The callback checks every isochronous packet *)

Lemma packets_length xfr :
  wf_transfer xfr ->
  List.length (packets xfr) = Z.to_nat (xfr_num_iso_packets xfr).
Proof. intros [H _]. unfold packets. rewrite length_firstn. lia. Qed.

(** C6.  For a completed isochronous transfer the callback goes through
    the first [num_iso_packets] descriptors, each with its own status and
    lengths.  If one of them did not complete the process terminates with
    [exit(5)]; otherwise the callback prints, for every packet in order,
    its index, [length] and [actual_length]. *)
Theorem cb_xfr_checks_packets w p xfr s :
  wf_transfer xfr ->
  xfr_status xfr = LIBUSB_TRANSFER_COMPLETED ->
  xfr_type xfr = LIBUSB_TRANSFER_TYPE_ISOCHRONOUS ->
  List.length (packets xfr) = Z.to_nat (xfr_num_iso_packets xfr) /\
  (Exists (fun pack => ~ pack_completed pack) (packets xfr) ->
   exists s', cb_xfr w p xfr s = Exited 5 s') /\
  (Forall pack_completed (packets xfr) ->
   exists rest,
     log (final (cb_xfr w p xfr s)) =
     log s ++ lines pack_line 0 (packets xfr) ++ rest).
Proof.
  intros Hwf Hst Hty. split; [apply packets_length; exact Hwf|]. split.
  - intros Hex.
    destruct (first_bad_pack (packets xfr)) as (l1 & x & l2 & E & H1 & Hx).
    + apply Exists_Forall_neg; auto.
      intros pack; destruct (pack_completed_dec pack); auto.
    + eexists. eapply cb_xfr_bad_pack; eauto.
  - intros Hall.
    assert (Hc : completed xfr) by (split; auto).
    rewrite (cb_xfr_completed w p xfr s Hwf Hc).
    unfold resubmitted, report. rewrite Hty. simpl is_isochronous. cbv iota.
    destruct (w_submit_rc w (n_submit s) <? 0); simpl;
      rewrite <- ?app_assoc; eexists; reflexivity.
Qed.

Lemma cb_xfr_checks_packets_witness :
  List.length (packets sample_iso_bad) =
    Z.to_nat (xfr_num_iso_packets sample_iso_bad) /\
  (Exists (fun pack => ~ pack_completed pack) (packets sample_iso_bad) ->
   exists s', cb_xfr sample_world 200 sample_iso_bad initial_state =
              Exited 5 s') /\
  (Forall pack_completed (packets sample_iso_bad) ->
   exists rest,
     log (final (cb_xfr sample_world 200 sample_iso_bad initial_state)) =
     log initial_state ++ lines pack_line 0 (packets sample_iso_bad) ++ rest).
Proof.
  apply (cb_xfr_checks_packets sample_world 200 sample_iso_bad initial_state).
  - split; simpl; lia.
  - reflexivity.
  - reflexivity.
Defined.

(** ** The counters *)

Lemma completions_app l1 l2 :
  completions (l1 ++ l2) = completions l1 ++ completions l2.
Proof.
  induction l1 as [|oe l1 IH]; simpl; auto.
  destruct (counted oe); simpl; rewrite IH; reflexivity.
Qed.

Lemma completions_handler l : Forall handler_event l -> completions l = [].
Proof.
  induction 1 as [|[o e] l [Ho _] _ IH]; simpl in *; auto.
  subst o. exact IH.
Qed.

Lemma uncounted_refl s : uncounted s s.
Proof. repeat split. Qed.

Lemma uncounted_trans s1 s2 s3 :
  uncounted s1 s2 -> uncounted s2 s3 -> uncounted s1 s3.
Proof.
  intros (a1 & b1 & c1) (a2 & b2 & c2); repeat split; congruence.
Qed.

Lemma uncounted_emit o e : counted (o, e) = None -> steady uncounted (emit o e).
Proof.
  intros H s; unfold uncounted, emit, final, append.
  cbn [log num_bytes num_xfer]; repeat split.
  rewrite completions_app. cbn [completions]. rewrite H, app_nil_r.
  reflexivity.
Qed.

Lemma handler_ran_uncounted s s' : handler_ran s s' -> uncounted s s'.
Proof.
  intros (_ & a & b & _ & _ & _ & l & E & Hl & _); repeat split; auto.
  rewrite E, completions_app, (completions_handler l Hl), app_nil_r.
  reflexivity.
Qed.

Lemma uncounted_sigpoint w : steady uncounted (sigpoint w).
Proof. intros s; apply handler_ran_uncounted, sigpoint_ran. Qed.

Lemma uncounted_sig_hdlr w : steady uncounted (sig_hdlr w).
Proof. intros s; apply handler_ran_uncounted, sig_hdlr_ran. Qed.

Lemma uncounted_set_devh d : steady uncounted (set_devh d).
Proof. intros s; repeat split. Qed.

Lemma uncounted_set_bench_xfr p : steady uncounted (set_bench_xfr p).
Proof. intros s; repeat split. Qed.

Lemma uncounted_set_tv_start tv : steady uncounted (set_tv_start tv).
Proof. intros s; repeat split. Qed.

Lemma uncounted_next_clock w : steady uncounted (next_clock w).
Proof. intros s; repeat split. Qed.

Lemma uncounted_next_submit w : steady uncounted (next_submit w).
Proof. intros s; repeat split. Qed.

Ltac uncounted_tac :=
  repeat lazymatch goal with
    | |- steady _ (bind _ _) =>
        apply steady_bind; [exact uncounted_trans | | intros ?]
    | |- steady _ (ret _) => apply steady_ret; exact uncounted_refl
    | |- steady _ (get _) => apply steady_get; exact uncounted_refl
    | |- steady _ (exit _) => apply steady_exit; exact uncounted_refl
    | |- steady _ undefined => apply steady_undefined; exact uncounted_refl
    | |- steady _ (emit _ _) => apply uncounted_emit; reflexivity
    | |- steady _ (sigpoint _) => apply uncounted_sigpoint
    | |- steady _ (sig_hdlr _) => apply uncounted_sig_hdlr
    | |- steady _ (set_devh _) => apply uncounted_set_devh
    | |- steady _ (set_bench_xfr _) => apply uncounted_set_bench_xfr
    | |- steady _ (set_tv_start _) => apply uncounted_set_tv_start
    | |- steady _ (next_clock _) => apply uncounted_next_clock
    | |- steady _ (next_submit _) => apply uncounted_next_submit
    | |- steady _ (for_loop _ _ _) =>
        apply steady_for_loop;
        [exact uncounted_refl | exact uncounted_trans | intros ?]
    | |- steady _ (if ?b then _ else _) => destruct b
    | |- steady _ (match ?x with Some _ => _ | None => _ end) => destruct x
    | |- steady _ (call _ _ _) => unfold call; cbv iota
    end.

Lemma sum_app l1 l2 : sum (l1 ++ l2) = sum l1 + sum l2.
Proof. induction l1; simpl; lia. Qed.

Lemma tally_uncounted s s' : tally s -> uncounted s s' -> tally s'.
Proof. intros [a b] (c & d & e); split; rewrite e; congruence. Qed.

Lemma tally_counted_once xfr s s' : tally s -> counted_once xfr s s' -> tally s'.
Proof.
  intros [a b] (c & d & e); split; rewrite e.
  - rewrite c, a, sum_app. simpl. unfold to_ulong.
    rewrite Z.add_0_r, Zplus_mod_idemp_l. reflexivity.
  - rewrite d, b, length_app. simpl. unfold to_ulong.
    rewrite Zplus_mod_idemp_l. f_equal. lia.
Qed.

Lemma uncounted_append l s : completions l = [] -> uncounted s (append l s).
Proof.
  intros H; unfold uncounted, append; cbn [log num_bytes num_xfer].
  repeat split. rewrite completions_app, H, app_nil_r. reflexivity.
Qed.

(** The dump loop prints, or reads past the end of the buffer. *)
Lemma wp_dump_loop xfr n : forall lo (Q : unit -> state -> Prop) R s,
  (forall s', uncounted s s' -> Q tt s') ->
  R AFault ->
  wp (for_loop lo n (dump_byte xfr)) Q (fun h _ => R h) s.
Proof.
  induction n as [|n IH]; intros lo Q R s HQ HR; simpl.
  - apply wp_ret, HQ, uncounted_refl.
  - apply wp_bind. unfold wp at 1.
    destruct (nth_error (xfr_buffer xfr) (Z.to_nat lo)) as [b|] eqn:E.
    + rewrite (dump_byte_ok xfr lo b s E). apply IH; auto.
      intros s' H. apply HQ. eapply uncounted_trans; [|exact H].
      apply uncounted_append. reflexivity.
    + unfold dump_byte. rewrite E. exact HR.
Qed.

(** What the callback does to the counters, however it ends. *)
Lemma cb_xfr_counts w p xfr s :
  wp (cb_xfr w p xfr)
     (fun _ s' => counted_once xfr s s')
     (fun h s' => h = AFault \/ uncounted s s' \/ counted_once xfr s s') s.
Proof.
  unfold cb_xfr.
  apply wp_bind.
  eapply (wp_steady uncounted).
  { unfold libusb_free_transfer. uncounted_tac. }
  2: { intros h s1 H1; auto. }
  intros [] s1 H1 _. apply wp_bind.
  eapply (wp_steady uncounted).
  { unfold check_pack. uncounted_tac. }
  2: { intros h s2 H2; right; left; eapply uncounted_trans; eauto. }
  intros [] s2 H2 _. apply wp_bind.
  pose proof (uncounted_trans _ _ _ H1 H2) as (Hb & Hx & Hc).
  unfold wp at 1; simpl. apply wp_bind.
  eapply wp_mono.
  { apply (wp_dump_loop xfr _ 0
             (fun _ s3 => uncounted (append [length_line xfr] s2) s3)
             (fun h => h = AFault)); auto. }
  2: { intros h s3 H3; auto. }
  intros [] s3 (Hb3 & Hx3 & Hc3). cbv beta.
  assert (Hc' : completions (log s3) =
                completions (log s) ++ [xfr_actual_length xfr]).
  { rewrite Hc3. simpl. rewrite completions_app, Hc. reflexivity. }
  simpl in Hb3, Hx3.
  apply wp_bind, wp_get, wp_bind, wp_get, wp_bind.
  unfold wp at 1; simpl. apply wp_bind.
  unfold libusb_submit_transfer, call, emit, next_submit, bind, wp at 1.
  simpl.
  assert (Hfin : forall l,
    completions l = [] ->
    counted_once xfr s
      {| do_exit := do_exit s3; devh := devh s3;
         num_bytes := to_ulong (num_bytes s3 + xfr_actual_length xfr);
         num_xfer := to_ulong (num_xfer s3 + 1);
         tv_start := tv_start s3; bench_xfr := bench_xfr s3;
         log := (log s3 ++ [(Callback, Call_submit_transfer p)]) ++ l;
         n_submit := S (n_submit s3); n_clock := n_clock s3;
         n_point := n_point s3 |}).
  { intros l Hl. unfold counted_once; simpl. repeat split; try congruence.
    rewrite !completions_app, Hc', Hl. simpl. rewrite !app_nil_r.
    reflexivity. }
  destruct (w_submit_rc w (n_submit s3) <? 0); unfold wp; simpl.
  - right; right. apply (Hfin [_]). reflexivity.
  - specialize (Hfin [] eq_refl). rewrite app_nil_r in Hfin. exact Hfin.
Qed.

Lemma preserves_bind {A B} (I : state -> Prop) (m : M A) (f : A -> M B) :
  preserves I m -> (forall a, preserves I (f a)) -> preserves I (bind m f).
Proof.
  intros Hm Hf s Hs. unfold bind. specialize (Hm s Hs).
  destruct (m s) as [a s'| | |]; simpl in *; auto.
  apply Hf; exact Hm.
Qed.

Lemma preserves_steady {A} (I : state -> Prop) (F : state -> state -> Prop)
    (m : M A) :
  (forall s s', I s -> F s s' -> I s') -> steady F m -> preserves I m.
Proof.
  intros HI Hm s Hs. specialize (Hm s).
  destruct (m s); simpl in *; eauto.
Qed.

Lemma tally_uncounted_steady {A} (m : M A) :
  steady uncounted m -> preserves tally m.
Proof. apply preserves_steady. exact tally_uncounted. Qed.

Lemma cb_xfr_tally w p xfr : preserves tally (cb_xfr w p xfr).
Proof.
  intros s Hs. pose proof (cb_xfr_counts w p xfr s) as H. unfold wp in H.
  destruct (cb_xfr w p xfr s); simpl.
  - eapply tally_counted_once; eauto.
  - destruct H as [H|[H|H]]; [discriminate | |].
    + eapply tally_uncounted; eauto.
    + eapply tally_counted_once; eauto.
  - exact I.
  - destruct H as [H|[H|H]]; [discriminate | |].
    + eapply tally_uncounted; eauto.
    + eapply tally_counted_once; eauto.
Qed.

Lemma run_occurrences_tally w l : preserves tally (run_occurrences w l).
Proof.
  induction l as [|[p xfr|] l IH]; simpl.
  - apply tally_uncounted_steady, steady_ret, uncounted_refl.
  - apply preserves_bind; [apply cb_xfr_tally | auto].
  - apply preserves_bind; [|auto].
    apply tally_uncounted_steady, uncounted_sig_hdlr.
Qed.

Ltac tally_tac :=
  repeat lazymatch goal with
    | |- preserves _ (bind _ _) => apply preserves_bind; [| intros ?]
    | |- preserves _ (run_occurrences _ _) => apply run_occurrences_tally
    | |- preserves _ (if ?b then _ else _) => destruct b
    | |- preserves _ (event_loop _ _ _) => fail
    | |- preserves _ (libusb_handle_events _ _ _) => fail
    | |- preserves _ (benchmark_in _ _) => fail
    | |- preserves _ (fun s => Waiting s) => fail
    | |- preserves _ _ => apply tally_uncounted_steady; solve [uncounted_tac]
    end.

Lemma handle_events_tally w r :
  preserves tally (libusb_handle_events w NULL r).
Proof. unfold libusb_handle_events. tally_tac. Qed.

Lemma event_loop_tally w rounds : forall rc, preserves tally (event_loop w rounds rc).
Proof.
  induction rounds as [|r rounds IH]; intros rc; simpl.
  - tally_tac. intros s Hs; exact Hs.
  - tally_tac; [apply handle_events_tally | apply IH].
Qed.

Lemma benchmark_in_uncounted w ep : steady uncounted (benchmark_in w ep).
Proof.
  unfold benchmark_in, libusb_alloc_transfer, libusb_fill_iso_transfer,
    libusb_set_iso_packet_lengths, libusb_fill_bulk_transfer, get_timestamp,
    read_clock, libusb_submit_transfer.
  uncounted_tac.
Qed.

Lemma main_tally w : preserves tally (main w).
Proof.
  unfold main, libusb_init_context, libusb_error_name,
    libusb_open_device_with_vid_pid, libusb_claim_interface, out,
    libusb_close, libusb_exit, libusb_release_interface.
  tally_tac;
    first [ apply event_loop_tally
          | apply tally_uncounted_steady, benchmark_in_uncounted ].
Qed.

Lemma initial_tally : tally initial_state.
Proof. split; reflexivity. Qed.

(** C10.  A callback that returns has added the transfer's
    [actual_length] to [num_bytes] and 1 to [num_xfer] (in [unsigned long]
    arithmetic, so exactly as long as the counters do not wrap around).
    The handler and [benchmark_in] leave the counters alone, and at the end
    of every run of [main], wherever it stops, [num_bytes] is the sum of
    the lengths of the transfers that passed the callback's checks and
    [num_xfer] is their number. *)
Theorem counters_count_completed_transfers w :
  (forall p xfr s s',
     cb_xfr w p xfr s = Ok tt s' ->
     num_bytes s' = to_ulong (num_bytes s + xfr_actual_length xfr) /\
     num_xfer s' = to_ulong (num_xfer s + 1) /\
     (0 <= num_bytes s -> 0 <= xfr_actual_length xfr ->
      num_bytes s + xfr_actual_length xfr < ULONG_MODULUS ->
      num_bytes s' = num_bytes s + xfr_actual_length xfr) /\
     (0 <= num_xfer s -> num_xfer s + 1 < ULONG_MODULUS ->
      num_xfer s' = num_xfer s + 1)) /\
  (forall s, num_bytes (final (sig_hdlr w s)) = num_bytes s /\
             num_xfer (final (sig_hdlr w s)) = num_xfer s) /\
  (forall ep s, num_bytes (final (benchmark_in w ep s)) = num_bytes s /\
                num_xfer (final (benchmark_in w ep s)) = num_xfer s) /\
  match main w initial_state with
  | Fault _ => True
  | r =>
      num_bytes (final r) = to_ulong (sum (completions (log (final r)))) /\
      num_xfer (final r) =
        to_ulong (Z.of_nat (List.length (completions (log (final r)))))
  end.
Proof.
  repeat split.
  - pose proof (cb_xfr_counts w p xfr s) as Hc. unfold wp in Hc.
    rewrite H in Hc. apply Hc.
  - pose proof (cb_xfr_counts w p xfr s) as Hc. unfold wp in Hc.
    rewrite H in Hc. apply Hc.
  - intros H0 H1 H2.
    pose proof (cb_xfr_counts w p xfr s) as Hc. unfold wp in Hc.
    rewrite H in Hc. destruct Hc as (-> & _). apply Z.mod_small. lia.
  - intros H0 H1.
    pose proof (cb_xfr_counts w p xfr s) as Hc. unfold wp in Hc.
    rewrite H in Hc. destruct Hc as (_ & -> & _). apply Z.mod_small. lia.
  - apply (uncounted_sig_hdlr w s).
  - apply (uncounted_sig_hdlr w s).
  - apply (benchmark_in_uncounted w ep s).
  - apply (benchmark_in_uncounted w ep s).
  - pose proof (main_tally w initial_state initial_tally) as H.
    destruct (main w initial_state); auto.
Qed.

(** ** Failures in [main] *)

Lemma main_init_error w :
  w_init_rc w < 0 ->
  match main w initial_state with
  | Exited c s => c = 1 /\ own (log s) = after_init_error w
  | Fault s => prefix_of (own (log s)) (after_init_error w)
  | _ => False
  end.
Proof.
  intros H. apply Z.ltb_lt in H.
  destruct (main_runs w) as (k & L & Hk & Hw & Hf & Hp & Hr).
  apply weave_own in Hw. unfold script in *. rewrite H in *.
  destruct (main w initial_state); simpl in *; rewrite ?Hw.
  - destruct Hr; discriminate.
  - destruct Hr as [-> ->]; auto.
  - exact Hp.
  - unfold reaches_loop in Hr. rewrite H in Hr. discriminate.
Qed.

Lemma main_no_device w :
  0 <= w_init_rc w -> w_open w = NULL ->
  match main w initial_state with
  | Ok rc s => rc = w_init_rc w /\ own (log s) = after_no_device
  | Fault s => prefix_of (own (log s)) after_no_device
  | _ => False
  end.
Proof.
  intros H Ho. apply Z.ltb_ge in H.
  destruct (main_runs w) as (k & L & Hk & Hw & Hf & Hp & Hr).
  apply weave_own in Hw. unfold script, returned, reaches_loop in *.
  rewrite H, Ho in *. simpl in *.
  destruct (main w initial_state); simpl in *; rewrite ?Hw.
  - destruct Hr as (_ & -> & ->); auto.
  - discriminate.
  - exact Hp.
  - discriminate.
Qed.

Lemma main_claim_error w :
  0 <= w_init_rc w -> w_open w <> NULL -> w_claim_rc w < 0 ->
  match main w initial_state with
  | Ok rc s => rc = w_claim_rc w /\ own (log s) = after_claim_error w
  | Fault s => prefix_of (own (log s)) (after_claim_error w)
  | _ => False
  end.
Proof.
  intros H Ho Hc. apply Z.ltb_ge in H. apply Z.eqb_neq in Ho.
  apply Z.ltb_lt in Hc.
  destruct (main_runs w) as (k & L & Hk & Hw & Hf & Hp & Hr).
  apply weave_own in Hw. unfold script, returned, reaches_loop in *.
  rewrite H, Ho, Hc in *. simpl in *.
  destruct (main w initial_state); simpl in *; rewrite ?Hw.
  - destruct Hr as (_ & -> & ->); split; auto. destruct k; reflexivity.
  - discriminate.
  - exact Hp.
  - discriminate.
Qed.

(** C9.  When the device cannot be opened, [main] prints the error, does
    not claim an interface or start the benchmark, calls [libusb_exit] and
    returns the value that the successful [libusb_init_context] left in
    [rc]: the exit status is 0. *)
Theorem open_failure_exit_status w :
  0 <= w_init_rc w -> w_open w = NULL ->
  (forall s, main w initial_state <> Fault s) ->
  exists s,
    main w initial_state = Ok (w_init_rc w) s /\
    own (log s) =
      [Call_sigaction; Call_init_context NULL;
       Call_open_device_with_vid_pid NULL 0x16c0 0x0763;
       Stderr "Error finding USB device\n" [];
       Call_exit NULL] /\
    (w_init_rc w = LIBUSB_SUCCESS -> main w initial_state = Ok 0 s).
Proof.
  intros H Ho Hnf. pose proof (main_no_device w H Ho) as Hm.
  destruct (main w initial_state) as [rc s| |s|] eqn:E; try contradiction.
  - destruct Hm as [-> Hl]. exists s. repeat split; auto.
    intros E0. rewrite E0. reflexivity.
  - exfalso. apply (Hnf s). reflexivity.
Qed.

Lemma open_failure_exit_status_witness :
  exists s,
    main no_device_world initial_state = Ok (w_init_rc no_device_world) s /\
    own (log s) =
      [Call_sigaction; Call_init_context NULL;
       Call_open_device_with_vid_pid NULL 0x16c0 0x0763;
       Stderr "Error finding USB device\n" [];
       Call_exit NULL] /\
    (w_init_rc no_device_world = LIBUSB_SUCCESS ->
     main no_device_world initial_state = Ok 0 s).
Proof.
  apply (open_failure_exit_status no_device_world).
  - simpl; lia.
  - reflexivity.
  - intros s H. vm_compute in H. discriminate H.
Defined.

(** ** The order of the steps *)

Lemma steps_app l1 l2 : steps (l1 ++ l2) = steps l1 ++ steps l2.
Proof.
  induction l1 as [|oe l1 IH]; simpl; auto.
  destruct (step_of oe); simpl; rewrite IH; reflexivity.
Qed.

Lemma last_cons {X} (l : list X) : forall x d, last (x :: l) d = last l x.
Proof.
  induction l as [|y l IH]; intros x d; [reflexivity|].
  change (last (x :: y :: l) d) with (last (y :: l) d).
  rewrite (IH y d), (IH y x). reflexivity.
Qed.

Lemma in_order_app l1 : forall p l2,
  in_order_from p (l1 ++ l2) =
  in_order_from p l1 && in_order_from (last l1 p) l2.
Proof.
  induction l1 as [|n l1 IH]; intros p l2; [reflexivity|].
  rewrite last_cons. simpl. rewrite IH, andb_assoc. reflexivity.
Qed.

Lemma last_app_same {X} (l1 l1' l2 : list X) d :
  last l1 d = last l1' d -> last (l1 ++ l2) d = last (l1' ++ l2) d.
Proof.
  intros H. destruct l2 as [|x l2] using rev_ind.
  - rewrite !app_nil_r; exact H.
  - rewrite !app_assoc, !last_last. reflexivity.
Qed.

Lemma foreground_app l1 l2 :
  foreground (l1 ++ l2) = foreground l1 ++ foreground l2.
Proof. apply filter_app. Qed.

Lemma by_main_app L1 L2 : by_main (L1 ++ L2) = by_main L1 ++ by_main L2.
Proof. apply map_app. Qed.

(** The order of the steps of [main] is the order of the steps of [main]
    and the callback together. *)
Lemma weave_in_order L tr :
  weave L tr ->
  in_order_from 0 (steps (by_main L)) = true ->
  in_order_from 0 (steps (foreground tr)) = true /\
  last (steps (foreground tr)) O = last (steps (by_main L)) O.
Proof.
  induction 1 as [|L tr e Hw IH|L tr e Hw IH Hk|L tr e Hw IH Hk Hl];
    intros Hord.
  - split; reflexivity.
  - rewrite by_main_app, steps_app, in_order_app in Hord.
    apply andb_true_iff in Hord as [H1 H2].
    destruct (IH H1) as [IH1 IH2].
    rewrite foreground_app, steps_app, by_main_app, steps_app. split.
    + rewrite in_order_app, IH1, IH2. exact H2.
    + apply last_app_same; exact IH2.
  - destruct (IH Hord) as [IH1 IH2].
    rewrite foreground_app. simpl. rewrite app_nil_r. auto.
  - destruct (IH Hord) as [IH1 IH2]. destruct Hl as [L' ->].
    rewrite by_main_app, steps_app in IH2. simpl in IH2.
    rewrite last_last in IH2.
    rewrite foreground_app, steps_app. simpl. split.
    + rewrite in_order_app, IH1, IH2. reflexivity.
    + rewrite last_last, by_main_app, steps_app. simpl.
      rewrite last_last. reflexivity.
Qed.

Lemma steps_repeat_handle_events k :
  steps (by_main (repeat (Call_handle_events NULL) k)) = repeat 7%nat k.
Proof. induction k; simpl; congruence. Qed.

Lemma in_order_loop k : forall p l,
  (p <= 7)%nat -> in_order_from 7 l = true -> in_order_from p l = true ->
  in_order_from p (repeat 7%nat k ++ l) = true.
Proof.
  induction k as [|k IH]; intros p l Hp H7 Hl; simpl; auto.
  rewrite IH by auto. rewrite andb_true_r. apply Nat.leb_le; exact Hp.
Qed.

Lemma script_in_order w k :
  in_order_from 0 (steps (by_main (script w k))) = true.
Proof.
  unfold script, bench_script.
  destruct (w_init_rc w <? 0); [reflexivity|].
  destruct (w_open w =? NULL); [reflexivity|].
  destruct (w_claim_rc w <? 0); [reflexivity|].
  change (EP_ISO_IN =? EP_ISO_IN) with true. cbv iota.
  destruct (w_alloc w =? NULL); simpl;
    rewrite by_main_app, steps_app, steps_repeat_handle_events;
    simpl; apply in_order_loop; auto with arith.
Qed.

Lemma prefix_in_order L L' :
  prefix_of L L' ->
  in_order_from 0 (steps (by_main L')) = true ->
  in_order_from 0 (steps (by_main L)) = true.
Proof.
  intros [rest ->]. rewrite by_main_app, steps_app, in_order_app.
  intros H. apply andb_true_iff in H. tauto.
Qed.

Lemma weave_handler_kind L tr :
  weave L tr ->
  forall oe, In oe tr -> fst oe = Handler -> handler_kind (snd oe).
Proof.
  induction 1 as [|L tr e Hw IH|L tr e Hw IH Hk|L tr e Hw IH Hk Hl];
    intros oe Hin Ho; try contradiction;
    apply in_app_or in Hin as [Hin|[<-|[]]]; auto; discriminate Ho.
Qed.

(** C4, as stated: it fails.  The handler is installed before
    [libusb_init_context] is called, and it measures whenever SIGINT
    arrives.  When SIGINT arrives at once, the elapsed time is measured
    (step 8) before the library is initialized (step 1); [main] then skips
    the loop and tears down. *)
Lemma early_sigint_breaks_order :
  main early_sigint_world initial_state =
    Ok 0 (final (main early_sigint_world initial_state)) /\
  log (final (main early_sigint_world initial_state)) =
    [(Main, Call_sigaction);
     (Handler, Call_get_timestamp);
     (Handler, Stdout measure_fmt [0; 0; 5000; 0]);
     (Main, Call_init_context NULL);
     (Main, Call_open_device_with_vid_pid NULL 0x16c0 0x0763);
     (Main, Call_claim_interface 100 2);
     (Main, Call_alloc_transfer 16);
     (Main, Call_fill_iso_transfer 200 100 0x86 2048 16 0);
     (Main, Call_set_iso_packet_lengths 200 128);
     (Main, Call_get_timestamp);
     (Main, Call_submit_transfer 200);
     (Main, Call_release_interface 100 2);
     (Main, Call_close 100);
     (Main, Call_exit NULL)] /\
  steps (log (final (main early_sigint_world initial_state))) =
    [8; 8; 1; 2; 3; 4; 5; 5; 6; 9; 9; 9]%nat /\
  nine_step_order (log (final (main early_sigint_world initial_state))) =
    false.
Proof. repeat apply conj; vm_compute; reflexivity. Qed.

(** C4, amended.  In every run, wherever it stops, the calls of [main] and
    of the callback are in the order of the steps: init, open, claim,
    allocate, fill, submit, event handling, tear down.  The measurement is
    not a step of [main]: everything the handler does is to read the clock
    and print the measurement, at whatever point SIGINT arrives. *)
Theorem foreground_in_nine_step_order w :
  nine_step_order (foreground (log (final (main w initial_state)))) = true /\
  (forall oe, In oe (log (final (main w initial_state))) ->
              fst oe = Handler -> handler_kind (snd oe)) /\
  (forall oe, In oe (log (final (main w initial_state))) ->
              step_of oe = Some 8%nat -> fst oe = Handler).
Proof.
  destruct (main_runs w) as (k & L & Hk & Hw & Hf & Hp & Hr).
  split; [|split].
  - unfold nine_step_order. apply (weave_in_order L); auto.
    eapply prefix_in_order; [exact Hp | apply script_in_order].
  - eapply weave_handler_kind; eauto.
  - intros [[| |] e] _ H; auto; simpl in H; [destruct e|]; discriminate.
Qed.

(** ** Positions in a run *)

Lemma weave_in L tr e : weave L tr -> In e L -> In (Main, e) tr.
Proof.
  induction 1 as [|L tr e' Hw IH|L tr e' Hw IH Hk|L tr e' Hw IH Hk Hl];
    intros Hin; try contradiction.
  - apply in_or_app. apply in_app_or in Hin as [Hin|[<-|[]]]; auto.
    right; left; reflexivity.
  - apply in_or_app; auto.
  - apply in_or_app; auto.
Qed.

Lemma exists_last_or_nil {X} (l : list X) :
  l = [] \/ exists l' x, l = l' ++ [x].
Proof.
  induction l as [|x l _] using rev_ind; [left | right]; eauto.
Qed.

Lemma snoc_split {X} (l l1 l2 : list X) (x y : X) :
  l ++ [x] = l1 ++ y :: l2 ->
  (l2 = [] /\ x = y /\ l = l1) \/
  (exists l2', l2 = l2' ++ [x] /\ l = l1 ++ y :: l2').
Proof.
  intros H. destruct (exists_last_or_nil l2) as [->|(l2' & z & ->)].
  - left. apply app_inj_tail in H as [-> ->]. auto.
  - right. exists l2'.
    change (l1 ++ y :: l2' ++ [z]) with (l1 ++ (y :: l2') ++ [z]) in H.
    rewrite app_assoc in H. apply app_inj_tail in H as [-> ->]. auto.
Qed.

Lemma prefix_of_refl {X} (l : list X) : prefix_of l l.
Proof. exists []; rewrite app_nil_r; reflexivity. Qed.

Lemma prefix_of_trans {X} (l1 l2 l3 : list X) :
  prefix_of l1 l2 -> prefix_of l2 l3 -> prefix_of l1 l3.
Proof. intros [r1 ->] [r2 ->]. exists (r1 ++ r2). symmetry; apply app_assoc. Qed.

Lemma prefix_of_snoc {X} (l : list X) x : prefix_of l (l ++ [x]).
Proof. exists [x]; reflexivity. Qed.

(** What precedes an action of a run is itself a run: of an initial
    segment of the actions of [main]. *)
Lemma weave_split L tr :
  weave L tr ->
  forall tr1 o e tr2, tr = tr1 ++ (o, e) :: tr2 ->
  exists L1, weave L1 tr1 /\ prefix_of L1 L /\
    match o with
    | Main => prefix_of (L1 ++ [e]) L
    | Callback => in_loop L1
    | Handler => handler_kind e
    end.
Proof.
  induction 1 as [|L tr e' Hw IH|L tr e' Hw IH Hk|L tr e' Hw IH Hk Hl];
    intros tr1 o e tr2 E.
  - destruct tr1; discriminate E.
  - apply snoc_split in E as [(-> & E & ->)|(tr2' & -> & ->)].
    + inversion E; subst. exists L. repeat split; auto.
      * apply prefix_of_snoc.
      * apply prefix_of_refl.
    + destruct (IH _ _ _ _ eq_refl) as (L1 & H1 & H2 & H3).
      exists L1. repeat split; auto.
      * eapply prefix_of_trans; [exact H2 | apply prefix_of_snoc].
      * destruct o; auto.
        eapply prefix_of_trans; [exact H3 | apply prefix_of_snoc].
  - apply snoc_split in E as [(-> & E & ->)|(tr2' & -> & ->)].
    + inversion E; subst. exists L. repeat split; auto.
      apply prefix_of_refl.
    + apply (IH _ _ _ _ eq_refl).
  - apply snoc_split in E as [(-> & E & ->)|(tr2' & -> & ->)].
    + inversion E; subst. exists L. repeat split; auto.
      apply prefix_of_refl.
    + apply (IH _ _ _ _ eq_refl).
Qed.

(** Calls that neither the handler nor the callback makes are calls of
    [main]. *)
Lemma weave_calls (P : event -> bool) L tr :
  (forall e, handler_kind e -> P e = false) ->
  (forall e, callback_kind e -> P e = false) ->
  weave L tr -> calls P tr = by_main (filter P L).
Proof.
  intros Hh Hc. unfold calls, by_main.
  induction 1 as [|L tr e Hw IH|L tr e Hw IH Hk|L tr e Hw IH Hk Hl]; auto.
  - rewrite !filter_app, map_app, IH. simpl. destruct (P e); reflexivity.
  - rewrite filter_app, IH. simpl. rewrite (Hh e Hk), app_nil_r. reflexivity.
  - rewrite filter_app, IH. simpl. rewrite (Hc e Hk), app_nil_r. reflexivity.
Qed.

Lemma filter_prefix {X} (P : X -> bool) (l l' : list X) :
  prefix_of l l' -> prefix_of (filter P l) (filter P l').
Proof. intros [r ->]. exists (filter P r). apply filter_app. Qed.

Lemma prefix_of_one {X} (l : list X) x : prefix_of l [x] -> l = [] \/ l = [x].
Proof.
  intros [r E]. destruct l as [|y [|z l]]; auto.
  - inversion E; auto.
  - discriminate E.
Qed.

Lemma prefix_of_nil {X} (l : list X) : prefix_of l [] -> l = [].
Proof. intros [r E]. destruct l; [reflexivity | discriminate E]. Qed.

Lemma filter_repeat_none {X} (P : X -> bool) x k :
  P x = false -> filter P (repeat x k) = [].
Proof. intros H. induction k; simpl; rewrite ?H; auto. Qed.

(** The calls of a kind other than [libusb_handle_events] in a script. *)
Lemma filter_script P w k :
  P (Call_handle_events NULL) = false ->
  filter P (script w k) = filter P (script w 0).
Proof.
  intros H. unfold script.
  destruct (w_init_rc w <? 0); [reflexivity|].
  destruct (w_open w =? NULL); [reflexivity|].
  destruct (w_claim_rc w <? 0); [reflexivity|].
  change (?a :: ?b :: ?c :: ?d :: ?l ++ ?r)
    with ([a; b; c; d] ++ l ++ r).
  rewrite !filter_app, filter_repeat_none by exact H. reflexivity.
Qed.

Lemma script_opens w k :
  filter is_open (script w k) =
  if w_init_rc w <? 0 then []
  else [Call_open_device_with_vid_pid NULL 0x16c0 0x0763].
Proof.
  rewrite filter_script by reflexivity. unfold script, bench_script.
  destruct (w_init_rc w <? 0); [reflexivity|].
  destruct (w_open w =? NULL); [reflexivity|].
  destruct (w_claim_rc w <? 0); [reflexivity|].
  destruct (w_alloc w =? NULL); reflexivity.
Qed.

Lemma script_claims w k :
  filter is_claim (script w k) =
  if (w_init_rc w <? 0) || (w_open w =? NULL) then []
  else [Call_claim_interface (w_open w) 2].
Proof.
  rewrite filter_script by reflexivity. unfold script, bench_script.
  destruct (w_init_rc w <? 0); [reflexivity|].
  destruct (w_open w =? NULL); [reflexivity|].
  destruct (w_claim_rc w <? 0); [reflexivity|].
  destruct (w_alloc w =? NULL); reflexivity.
Qed.

Lemma split_after {X} (P Q L1 rest : list X) e :
  P ++ Q = L1 ++ e :: rest -> ~ In e P -> exists l, L1 = P ++ l.
Proof.
  intros E Hn. apply app_eq_app in E as [l [[E1 E2]|[E1 E2]]].
  - destruct l as [|x l].
    + exists []. rewrite app_nil_r in *. auto.
    + exfalso. apply Hn. simpl in E2. inversion E2; subst.
      apply in_or_app; right; left; reflexivity.
  - exists l; exact E1.
Qed.

(** In a script, a transfer call or a call of [libusb_handle_events]
    comes after the claim. *)
Lemma script_claim_first w k L1 e rest :
  script w k = L1 ++ e :: rest ->
  is_transfer_call e = true \/ e = Call_handle_events NULL ->
  In (Call_claim_interface (w_open w) 2) L1.
Proof.
  intros E He.
  assert (Hno : forall l l2, l = L1 ++ e :: l2 ->
            Forall (fun x => is_transfer_call x = false /\
                             x <> Call_handle_events NULL) l -> False).
  { intros l l2 -> Hall. apply Forall_app in Hall as [_ Hall].
    inversion Hall as [|? ? [H1 H2] _]; subst.
    destruct He as [He| ->]; [congruence | apply H2; reflexivity]. }
  unfold script in E.
  destruct (w_init_rc w <? 0).
  { exfalso. eapply Hno; [exact E|]. repeat constructor; discriminate. }
  destruct (w_open w =? NULL).
  { exfalso. eapply Hno; [exact E|]. repeat constructor; discriminate. }
  destruct (w_claim_rc w <? 0).
  { exfalso. eapply Hno; [exact E|]. repeat constructor; discriminate. }
  change (?a :: ?b :: ?c :: ?d :: ?l) with ([a; b; c; d] ++ l) in E.
  apply split_after in E as [l ->].
  - apply in_or_app; left. right; right; right; left; reflexivity.
  - simpl. intros H.
    repeat (destruct H as [H|H];
            [subst e; destruct He as [He|He]; discriminate He|]).
    exact H.
Qed.

(** In a script the claim comes after the open. *)
Lemma script_open_first w k L1 d i rest :
  script w k = L1 ++ Call_claim_interface d i :: rest ->
  In (Call_open_device_with_vid_pid NULL 0x16c0 0x0763) L1.
Proof.
  intros E. unfold script in E.
  destruct (w_init_rc w <? 0).
  { exfalso.
    assert (H : In (Call_claim_interface d i) (L1 ++ Call_claim_interface d i :: rest))
      by (apply in_or_app; right; left; reflexivity).
    rewrite <- E in H. simpl in H.
    repeat (destruct H as [H|H]; [discriminate H|]). exact H. }
  change (?a :: ?b :: ?c :: ?l) with ([a; b; c] ++ l) in E.
  apply split_after in E as [l ->].
  - apply in_or_app; left. right; right; left; reflexivity.
  - simpl. intros H.
    repeat (destruct H as [H|H]; [discriminate H|]). exact H.
Qed.

(** ** The calls before the loop *)

Lemma first_split_unique {X} (A L1 R1 R2 : list X) x :
  A ++ x :: R1 = L1 ++ x :: R2 -> ~ In x A -> ~ In x L1 -> A = L1.
Proof.
  intros E HA HL. apply app_eq_app in E as [l [[E1 E2]|[E1 E2]]].
  - destruct l as [|y l].
    + rewrite app_nil_r in E1; auto.
    + exfalso. apply HA. simpl in E2. inversion E2; subst.
      apply in_or_app; right; left; reflexivity.
  - destruct l as [|y l].
    + rewrite app_nil_r in E1; auto.
    + exfalso. apply HL. simpl in E2. inversion E2; subst.
      apply in_or_app; right; left; reflexivity.
Qed.


Lemma bench_script_no_loop w d ep :
  ~ In (Call_handle_events NULL) (bench_script w d ep).
Proof.
  unfold bench_script.
  destruct (w_alloc w =? NULL), (ep =? EP_ISO_IN); simpl; intros H;
    repeat (destruct H as [H|H]; [discriminate H|]); exact H.
Qed.

(** What [main] has done when it first calls [libusb_handle_events]. *)
Lemma script_before_loop w k L1 rest :
  script w k = L1 ++ Call_handle_events NULL :: rest ->
  ~ In (Call_handle_events NULL) L1 ->
  L1 = prelude w ++ bench_script w (w_open w) EP_ISO_IN.
Proof.
  intros E Hn.
  assert (Hin : In (Call_handle_events NULL) (script w k))
    by (rewrite E; apply in_or_app; right; left; reflexivity).
  unfold script in E, Hin.
  destruct (w_init_rc w <? 0).
  { exfalso. simpl in Hin.
    repeat (destruct Hin as [Hin|Hin]; [discriminate Hin|]). exact Hin. }
  destruct (w_open w =? NULL).
  { exfalso. simpl in Hin.
    repeat (destruct Hin as [Hin|Hin]; [discriminate Hin|]). exact Hin. }
  destruct (w_claim_rc w <? 0).
  { exfalso. simpl in Hin.
    repeat (destruct Hin as [Hin|Hin]; [discriminate Hin|]). exact Hin. }
  change (?a :: ?b :: ?c :: ?d :: ?l ++ ?r) with (([a; b; c; d] ++ l) ++ r) in E.
  fold (prelude w) in E.
  assert (HA : ~ In (Call_handle_events NULL)
                    (prelude w ++ bench_script w (w_open w) EP_ISO_IN)).
  { intros H. apply in_app_or in H as [H|H].
    - simpl in H. repeat (destruct H as [H|H]; [discriminate H|]). exact H.
    - exact (bench_script_no_loop _ _ _ H). }
  assert (H : In (Call_handle_events NULL)
                 (L1 ++ Call_handle_events NULL :: rest))
    by (apply in_or_app; right; left; reflexivity).
  destruct k as [|k].
  - exfalso. rewrite <- E in H.
    apply in_app_or in H as [H|H]; [exact (HA H)|].
    simpl in H. repeat (destruct H as [H|H]; [discriminate H|]). exact H.
  - change (repeat ?x (S k) ++ ?T) with (x :: (repeat x k ++ T)) in E.
    symmetry. eapply first_split_unique; eauto.
Qed.


(** When the allocation fails, [benchmark_in] returns -1 after it and
    nothing is submitted. *)
Lemma bench_script_alloc_failure w d ep :
  w_alloc w = NULL ->
  bench_script w d ep =
  [Call_alloc_transfer (if ep =? EP_ISO_IN then 16 else 0)].
Proof. intros H. unfold bench_script. rewrite H. reflexivity. Qed.


(** ** More on timestamps and the measurement *)

(** X1.  A valid reading of the clock gives a valid timestamp, the reading
    truncated to microseconds. *)
Theorem read_clock_valid w s :
  valid_timespec (w_clock w (n_clock s)) ->
  exists tv s',
    read_clock w s = Ok tv s' /\
    valid_timeval tv /\
    usec_of tv = nsec_of (w_clock w (n_clock s)) / 1000 /\
    n_clock s' = S (n_clock s) /\ log s' = log s.
Proof.
  unfold valid_timespec, read_clock, bind, next_clock, ret, nsec_of.
  destruct (w_clock w (n_clock s)) as [sec nsec]. simpl. intros [Hs Hn].
  eexists; eexists; split; [reflexivity|].
  assert (Hq : nsec ÷ 1000 = nsec / 1000)
    by (apply Z.quot_div_nonneg; lia).
  assert (Hr : 0 <= nsec / 1000 < 1000000)
    by (split; [apply Z.div_pos; lia | apply Z.div_lt_upper_bound; lia]).
  assert (Hi : to_int (nsec ÷ 1000) = nsec / 1000).
  { rewrite Hq. unfold to_int. rewrite Z.mod_small; lia. }
  unfold valid_timeval, usec_of; simpl. rewrite Hi.
  repeat split; try lia.
  replace (sec * 1000000000 + nsec) with (sec * 1000000 * 1000 + nsec) by lia.
  rewrite Z.div_add_l by lia. reflexivity.
Qed.

Lemma read_clock_valid_witness :
  valid_timespec (w_clock sample_world (n_clock initial_state)) /\
  exists tv s',
    read_clock sample_world initial_state = Ok tv s' /\
    valid_timeval tv /\
    usec_of tv = nsec_of (w_clock sample_world (n_clock initial_state)) / 1000 /\
    n_clock s' = S (n_clock initial_state) /\ log s' = log initial_state.
Proof.
  assert (H : valid_timespec (w_clock sample_world (n_clock initial_state)))
    by (split; simpl; lia).
  split; [exact H|]. apply (read_clock_valid sample_world initial_state H).
Defined.

Lemma clock_timeval_valid ts :
  valid_timespec ts ->
  to_int (ts_nsec ts ÷ 1000) = ts_nsec ts / 1000 /\
  0 <= ts_nsec ts / 1000 < 1000000.
Proof.
  intros [Hs Hn].
  assert (Hr : 0 <= ts_nsec ts / 1000 < 1000000)
    by (split; [apply Z.div_pos; lia | apply Z.div_lt_upper_bound; lia]).
  split; auto.
  rewrite Z.quot_div_nonneg by lia. unfold to_int. rewrite Z.mod_small; lia.
Qed.

(** X2.  When the microseconds of the stop time are not below those of the
    start time and at least one millisecond has passed, [measure] prints
    the counters, the elapsed milliseconds and the bytes per second, and
    changes nothing else. *)
Theorem measure_reports_elapsed_time w s :
  valid_timeval (tv_start s) ->
  valid_timespec (w_clock w (n_clock s)) ->
  tv_sec (tv_start s) <= ts_sec (w_clock w (n_clock s)) ->
  tv_usec (tv_start s) <= ts_nsec (w_clock w (n_clock s)) / 1000 ->
  usec_of (tv_start s) + 1000 <= nsec_of (w_clock w (n_clock s)) / 1000 ->
  0 <= num_bytes s -> num_bytes s * 1000 < ULONG_MODULUS ->
  exists s',
    measure w s = Ok tt s' /\
    log s' =
      log s ++
      [(Handler, Call_get_timestamp);
       (Handler,
        Stdout measure_fmt
          [num_xfer s; num_bytes s;
           (nsec_of (w_clock w (n_clock s)) / 1000 - usec_of (tv_start s)) / 1000;
           num_bytes s * 1000 /
           ((nsec_of (w_clock w (n_clock s)) / 1000 - usec_of (tv_start s)) / 1000)])] /\
    do_exit s' = do_exit s /\ num_bytes s' = num_bytes s /\
    num_xfer s' = num_xfer s /\ tv_start s' = tv_start s.
Proof.
  intros Hstart Hts Hsec Husec Hms Hnb Hov. unfold ULONG_MODULUS in Hov.
  destruct (clock_timeval_valid _ Hts) as [Hi Hr].
  pose (stop := {| tv_sec := ts_sec (w_clock w (n_clock s));
                   tv_usec := ts_nsec (w_clock w (n_clock s)) / 1000 |}).
  assert (Hstop : valid_timeval stop) by (split; [apply Hts | exact Hr]).
  assert (Hus : usec_of stop = nsec_of (w_clock w (n_clock s)) / 1000).
  { unfold usec_of, nsec_of, stop; cbn [tv_sec tv_usec].
    replace (ts_sec (w_clock w (n_clock s)) * 1000000000 +
             ts_nsec (w_clock w (n_clock s)))
      with (ts_sec (w_clock w (n_clock s)) * 1000000 * 1000 +
            ts_nsec (w_clock w (n_clock s))) by lia.
    rewrite Z.div_add_l by lia. reflexivity. }
  assert (Hd : measure_diff_msec (tv_start s) stop =
               (nsec_of (w_clock w (n_clock s)) / 1000 - usec_of (tv_start s))
               / 1000).
  { rewrite measure_without_borrow; auto. unfold elapsed_msec.
    rewrite Hus. reflexivity. }
  assert (Hpos : 0 < (nsec_of (w_clock w (n_clock s)) / 1000
                      - usec_of (tv_start s)) / 1000)
    by (apply Z.div_str_pos; lia).
  unfold measure, read_clock. unfold bind, emit, next_clock, ret, get.
  cbn [append n_clock tv_start num_xfer num_bytes log do_exit].
  rewrite Hi. fold stop. rewrite Hd. unfold measure_rate.
  destruct (_ =? 0) eqn:E; [apply Z.eqb_eq in E; lia|].
  rewrite to_ulong_small by lia.
  eexists; split; [reflexivity|].
  cbn [append n_clock tv_start num_xfer num_bytes log do_exit].
  rewrite <- app_assoc. repeat split; reflexivity.
Qed.

Lemma measure_reports_elapsed_time_witness :
  exists s',
    measure sample_world measured_state = Ok tt s' /\
    log s' =
      log measured_state ++
      [(Handler, Call_get_timestamp);
       (Handler,
        Stdout measure_fmt
          [num_xfer measured_state; num_bytes measured_state;
           (nsec_of (w_clock sample_world (n_clock measured_state)) / 1000
            - usec_of (tv_start measured_state)) / 1000;
           num_bytes measured_state * 1000 /
           ((nsec_of (w_clock sample_world (n_clock measured_state)) / 1000
             - usec_of (tv_start measured_state)) / 1000)])] /\
    do_exit s' = do_exit measured_state /\
    num_bytes s' = num_bytes measured_state /\
    num_xfer s' = num_xfer measured_state /\
    tv_start s' = tv_start measured_state.
Proof.
  apply (measure_reports_elapsed_time sample_world measured_state).
  - split; simpl; lia.
  - split; simpl; lia.
  - simpl; lia.
  - vm_compute; discriminate.
  - vm_compute; discriminate.
  - simpl; lia.
  - vm_compute; reflexivity.
Defined.

(** X3.  When SIGINT is handled less than a millisecond after the start time,
    [measure] divides by zero: the handler ends in undefined behaviour
    after reading the clock, before it prints and before it sets
    [do_exit]. *)
Theorem sig_hdlr_divides_by_zero w s :
  valid_timeval (tv_start s) ->
  valid_timespec (w_clock w (n_clock s)) ->
  ts_sec (w_clock w (n_clock s)) = tv_sec (tv_start s) ->
  tv_usec (tv_start s) <= ts_nsec (w_clock w (n_clock s)) / 1000
    < tv_usec (tv_start s) + 1000 ->
  exists s',
    sig_hdlr w s = Fault s' /\
    log s' = log s ++ [(Handler, Call_get_timestamp)] /\
    do_exit s' = do_exit s.
Proof.
  intros Hstart Hts Hsec Husec.
  destruct (clock_timeval_valid _ Hts) as [Hi Hr].
  pose (stop := {| tv_sec := ts_sec (w_clock w (n_clock s));
                   tv_usec := ts_nsec (w_clock w (n_clock s)) / 1000 |}).
  assert (Hstop : valid_timeval stop) by (split; [apply Hts | exact Hr]).
  assert (Hd : measure_diff_msec (tv_start s) stop = 0).
  { rewrite measure_without_borrow; auto;
      [|unfold stop; cbn [tv_sec]; lia | unfold stop; cbn [tv_usec]; lia].
    unfold elapsed_msec, usec_of, stop; cbn [tv_sec tv_usec].
    rewrite Hsec. apply Z.div_small. lia. }
  unfold sig_hdlr, measure, read_clock.
  unfold bind, emit, next_clock, ret, get.
  cbn [append n_clock tv_start num_xfer num_bytes log do_exit].
  rewrite Hi. fold stop. rewrite Hd. unfold measure_rate.
  change (0 =? 0) with true. cbv iota. unfold undefined.
  eexists; split; [reflexivity|]. split; reflexivity.
Qed.

Lemma sig_hdlr_divides_by_zero_witness :
  exists s',
    sig_hdlr sample_world hasty_state = Fault s' /\
    log s' = log hasty_state ++ [(Handler, Call_get_timestamp)] /\
    do_exit s' = do_exit hasty_state.
Proof.
  apply (sig_hdlr_divides_by_zero sample_world hasty_state).
  - split; simpl; lia.
  - split; simpl; lia.
  - reflexivity.
  - vm_compute. split; [discriminate | reflexivity].
Defined.

(** X4.  When the microseconds of the stop time are below those of the start
    time, [measure] borrows a second but adds [NSEC_PER_SEC] where a
    second has 1000000 microseconds: for every such measurement the
    milliseconds it prints are 999000 more than have passed, and the
    bytes per second are computed from that figure. *)
Theorem measure_overstates_after_borrow w s :
  valid_timeval (tv_start s) ->
  valid_timespec (w_clock w (n_clock s)) ->
  tv_sec (tv_start s) < ts_sec (w_clock w (n_clock s)) ->
  ts_nsec (w_clock w (n_clock s)) / 1000 < tv_usec (tv_start s) ->
  0 <= num_bytes s -> num_bytes s * 1000 < ULONG_MODULUS ->
  exists s',
    measure w s = Ok tt s' /\
    0 <= (nsec_of (w_clock w (n_clock s)) / 1000 - usec_of (tv_start s)) / 1000 /\
    log s' =
      log s ++
      [(Handler, Call_get_timestamp);
       (Handler,
        Stdout measure_fmt
          [num_xfer s; num_bytes s;
           (nsec_of (w_clock w (n_clock s)) / 1000 - usec_of (tv_start s)) / 1000
           + 999000;
           num_bytes s * 1000 /
           ((nsec_of (w_clock w (n_clock s)) / 1000 - usec_of (tv_start s)) / 1000
            + 999000)])].
Proof.
  intros Hstart Hts Hsec Husec Hnb Hov. unfold ULONG_MODULUS in Hov.
  destruct (clock_timeval_valid _ Hts) as [Hi Hr].
  pose (stop := {| tv_sec := ts_sec (w_clock w (n_clock s));
                   tv_usec := ts_nsec (w_clock w (n_clock s)) / 1000 |}).
  assert (Hstop : valid_timeval stop) by (split; [apply Hts | exact Hr]).
  assert (Hus : usec_of stop = nsec_of (w_clock w (n_clock s)) / 1000).
  { unfold usec_of, nsec_of, stop; cbn [tv_sec tv_usec].
    replace (ts_sec (w_clock w (n_clock s)) * 1000000000 +
             ts_nsec (w_clock w (n_clock s)))
      with (ts_sec (w_clock w (n_clock s)) * 1000000 * 1000 +
            ts_nsec (w_clock w (n_clock s))) by lia.
    rewrite Z.div_add_l by lia. reflexivity. }
  assert (Hd : measure_diff_msec (tv_start s) stop =
               (nsec_of (w_clock w (n_clock s)) / 1000 - usec_of (tv_start s))
               / 1000 + 999000).
  { rewrite measure_with_borrow; auto. unfold elapsed_msec.
    rewrite Hus. reflexivity. }
  assert (Hpos : 0 <= (nsec_of (w_clock w (n_clock s)) / 1000
                       - usec_of (tv_start s)) / 1000).
  { apply Z.div_pos; [|lia]. rewrite <- Hus.
    destruct Hstart as [_ Hu]. unfold usec_of, stop; cbn [tv_sec tv_usec]. lia. }
  unfold measure, read_clock. unfold bind, emit, next_clock, ret, get.
  cbn [append n_clock tv_start num_xfer num_bytes log do_exit].
  rewrite Hi. fold stop. rewrite Hd. unfold measure_rate.
  destruct (_ =? 0) eqn:E; [apply Z.eqb_eq in E; lia|].
  rewrite to_ulong_small by lia.
  eexists; split; [reflexivity|]. split; [exact Hpos|].
  cbn [append n_clock tv_start num_xfer num_bytes log do_exit].
  rewrite <- app_assoc. reflexivity.
Qed.

Lemma measure_overstates_after_borrow_witness :
  exists s',
    measure borrow_world borrow_state = Ok tt s' /\
    0 <= (nsec_of (w_clock borrow_world (n_clock borrow_state)) / 1000
          - usec_of (tv_start borrow_state)) / 1000 /\
    log s' =
      log borrow_state ++
      [(Handler, Call_get_timestamp);
       (Handler,
        Stdout measure_fmt
          [num_xfer borrow_state; num_bytes borrow_state;
           (nsec_of (w_clock borrow_world (n_clock borrow_state)) / 1000
            - usec_of (tv_start borrow_state)) / 1000 + 999000;
           num_bytes borrow_state * 1000 /
           ((nsec_of (w_clock borrow_world (n_clock borrow_state)) / 1000
             - usec_of (tv_start borrow_state)) / 1000 + 999000)])].
Proof.
  apply (measure_overstates_after_borrow borrow_world borrow_state).
  - split; simpl; lia.
  - split; simpl; lia.
  - simpl; lia.
  - vm_compute; reflexivity.
  - simpl; lia.
  - vm_compute; reflexivity.
Defined.

(** X5.  The handler reads the clock once and then either divides by zero or
    prints one line and sets [do_exit]; it never exits and it leaves the
    handle, the counters and the start time alone. *)
Theorem sig_hdlr_effect w s :
  match sig_hdlr w s with
  | Ok _ s' =>
      do_exit s' = true /\
      exists args,
        log s' = log s ++ [(Handler, Call_get_timestamp);
                           (Handler, Stdout measure_fmt args)] /\
        devh s' = devh s /\ num_bytes s' = num_bytes s /\
        num_xfer s' = num_xfer s /\ tv_start s' = tv_start s /\
        n_clock s' = S (n_clock s)
  | Fault s' =>
      do_exit s' = do_exit s /\
      log s' = log s ++ [(Handler, Call_get_timestamp)] /\
      measure_diff_msec (tv_start s)
        {| tv_sec := ts_sec (w_clock w (n_clock s));
           tv_usec := to_int (ts_nsec (w_clock w (n_clock s)) ÷ 1000) |} = 0
  | _ => False
  end.
Proof.
  unfold sig_hdlr, measure, read_clock.
  unfold bind, emit, next_clock, ret, get, set_do_exit, undefined.
  cbn [append n_clock tv_start num_xfer num_bytes log do_exit devh].
  unfold measure_rate.
  destruct (_ =? 0) eqn:E;
    cbn [append n_clock tv_start num_xfer num_bytes log do_exit devh].
  - apply Z.eqb_eq in E. repeat split; auto.
  - split; [reflexivity|]. eexists. rewrite <- app_assoc.
    repeat split; reflexivity.
Qed.

(** X6.  After each byte the dump prints a newline, except after the bytes
    whose index is a multiple of 16, where it prints one space; the
    separator of two spaces is never printed. *)
Theorem dump_byte_separator xfr i b s :
  nth_error (xfr_buffer xfr) (Z.to_nat i) = Some b ->
  dump_byte xfr i s =
  Ok tt (append [(Callback, Stdout "%02x" [b]);
                 (Callback, Stdout (if Z.rem i 16 =? 0 then " " else "\n") [])]
                s).
Proof.
  intros Hn. rewrite (dump_byte_ok xfr i b s Hn).
  unfold dump_line, separator.
  destruct (Z.rem i 16 =? 0) eqn:E; [|reflexivity].
  apply Z.eqb_eq in E.
  assert (H8 : Z.rem i 8 = 0).
  { apply Z.rem_divide; [lia|]. apply Z.rem_divide in E; [|lia].
    destruct E as [q ->]. exists (q * 2). lia. }
  rewrite H8. reflexivity.
Qed.

Lemma dump_byte_separator_witness :
  dump_byte sample_iso 1 initial_state =
  Ok tt (append [(Callback, Stdout "%02x" [34]);
                 (Callback, Stdout (if Z.rem 1 16 =? 0 then " " else "\n") [])]
                initial_state).
Proof.
  apply (dump_byte_separator sample_iso 1 34 initial_state). reflexivity.
Defined.

(** X7.  In the Windows variant of [get_timestamp], as long as the counter
    times 1000000 fits a [LONGLONG] and the seconds fit a [long], the
    result is the counter in microseconds, split into seconds and
    microseconds below 1000000; the frequency is asked for only while the
    static variable is zero, and is kept. *)
Theorem get_timestamp_windows_valid frequency qpf qpc f :
  f = (if frequency =? 0 then qpf else frequency) ->
  0 < f -> 0 <= qpc -> qpc * 1000000 < 2 ^ 63 ->
  qpc * 1000000 / f < 2 ^ 31 * 1000000 ->
  exists tv,
    get_timestamp_windows frequency qpf qpc = Some (tv, f) /\
    0 <= tv_sec tv /\ 0 <= tv_usec tv < 1000000 /\
    usec_of tv = qpc * 1000000 / f /\
    (frequency <> 0 -> f = frequency).
Proof.
  intros Hf Hpos Hq Hov Hsec. unfold get_timestamp_windows. rewrite <- Hf.
  destruct (f =? 0) eqn:E; [apply Z.eqb_eq in E; lia|].
  rewrite to_long_small by lia.
  rewrite Z.quot_div_nonneg by lia.
  set (c := qpc * 1000000 / f) in *.
  assert (Hc : 0 <= c) by (apply Z.div_pos; lia).
  assert (Hc2 : c < 2 ^ 64) by lia.
  rewrite to_ulong_small by lia.
  assert (Hs : 0 <= c / 1000000 < 2 ^ 31)
    by (split; [apply Z.div_pos; lia | apply Z.div_lt_upper_bound; lia]).
  assert (Hu : 0 <= c mod 1000000 < 1000000) by (apply Z.mod_pos_bound; lia).
  assert (E1 : to_int (c / 1000000) = c / 1000000)
    by (unfold to_int; rewrite Z.mod_small; lia).
  assert (E2 : to_int (c mod 1000000) = c mod 1000000)
    by (unfold to_int; rewrite Z.mod_small; lia).
  rewrite E1, E2. eexists; split; [reflexivity|].
  unfold usec_of; cbn [tv_sec tv_usec]. repeat split; try lia.
  - pose proof (Z.div_mod c 1000000). lia.
  - intros Hn. apply Z.eqb_neq in Hn. rewrite Hn in Hf. exact Hf.
Qed.

Lemma get_timestamp_windows_valid_witness :
  exists tv,
    get_timestamp_windows 10000000 3 25000000 = Some (tv, 10000000) /\
    0 <= tv_sec tv /\ 0 <= tv_usec tv < 1000000 /\
    usec_of tv = 25000000 * 1000000 / 10000000 /\
    (10000000 <> 0 -> 10000000 = 10000000).
Proof.
  apply (get_timestamp_windows_valid 10000000 3 25000000 10000000).
  - reflexivity.
  - lia.
  - lia.
  - vm_compute; reflexivity.
  - vm_compute; reflexivity.
Defined.

(** ** More on [main]: the clean-up *)

Lemma script_loop w k :
  reaches_loop w = true -> script w k = loop_script w k ++ teardown w.
Proof.
  intros Hl. unfold reaches_loop in Hl.
  apply andb_true_iff in Hl as [Hl H3]. apply andb_true_iff in Hl as [H1 H2].
  apply negb_true_iff in H1, H2, H3.
  unfold script, loop_script, teardown, prelude. rewrite H1, H2, H3.
  rewrite <- !app_assoc. reflexivity.
Qed.

Lemma filter_loop_script P w k :
  P (Call_handle_events NULL) = false ->
  filter P (loop_script w k) = filter P (loop_script w 0).
Proof.
  intros H. unfold loop_script.
  rewrite !filter_app, filter_repeat_none by exact H. reflexivity.
Qed.

Lemma last_app_cons {X} (l : list X) x r d :
  last (l ++ x :: r) d = last (x :: r) d.
Proof.
  induction l as [|y l IH]; [reflexivity|].
  change ((y :: l) ++ x :: r) with (y :: (l ++ x :: r)).
  rewrite last_cons, <- (last_cons (l ++ x :: r) y d), <- IH.
  destruct l; reflexivity.
Qed.

Lemma handler_never (P : event -> bool) :
  P Call_get_timestamp = false ->
  (forall fmt args, P (Stdout fmt args) = false) ->
  forall e, handler_kind e -> P e = false.
Proof. intros H1 H2 e [->|[args ->]]; auto. Qed.

Lemma callback_never (P : event -> bool) :
  (forall fmt args, P (Stdout fmt args) = false) ->
  (forall fmt args, P (Stderr fmt args) = false) ->
  (forall p, P (Call_free_transfer p) = false) ->
  (forall p, P (Call_submit_transfer p) = false) ->
  forall e, callback_kind e -> P e = false.
Proof. intros H1 H2 H3 H4 [] H; try contradiction; auto. Qed.

(** X8.  A run of [main] that returns has called [libusb_exit] exactly once, as
    its last call; it has closed the handle exactly once if the open gave
    one, and released the interface exactly once if the claim succeeded;
    neither the handler nor the callback makes any of these calls. *)
Theorem returned_run_cleans_up w rc s :
  main w initial_state = Ok rc s ->
  calls is_exit (log s) = [(Main, Call_exit NULL)] /\
  last (own (log s)) Call_sigaction = Call_exit NULL /\
  calls is_close (log s) =
    (if w_open w =? NULL then [] else [(Main, Call_close (w_open w))]) /\
  calls is_release (log s) =
    (if reaches_loop w then [(Main, Call_release_interface (w_open w) 2)]
     else []).
Proof.
  intros E.
  destruct (main_runs w) as (k & L & Hk & Hw & Hf & Hp & Hr).
  rewrite E in *. simpl in Hw, Hr. destruct Hr as (Hi & -> & _).
  rewrite (weave_own _ _ Hw).
  rewrite (weave_calls is_exit _ _ (handler_never _ eq_refl (fun _ _ => eq_refl))
             (callback_never _ (fun _ _ => eq_refl) (fun _ _ => eq_refl)
                (fun _ => eq_refl) (fun _ => eq_refl)) Hw).
  rewrite (weave_calls is_close _ _ (handler_never _ eq_refl (fun _ _ => eq_refl))
             (callback_never _ (fun _ _ => eq_refl) (fun _ _ => eq_refl)
                (fun _ => eq_refl) (fun _ => eq_refl)) Hw).
  rewrite (weave_calls is_release _ _ (handler_never _ eq_refl (fun _ _ => eq_refl))
             (callback_never _ (fun _ _ => eq_refl) (fun _ _ => eq_refl)
                (fun _ => eq_refl) (fun _ => eq_refl)) Hw).
  rewrite (filter_script is_exit w k), (filter_script is_close w k),
    (filter_script is_release w k) by reflexivity.
  assert (Hlast : last (script w k) Call_sigaction = Call_exit NULL).
  { unfold script. rewrite Hi.
    destruct (w_open w =? NULL); [reflexivity|].
    destruct (w_claim_rc w <? 0); [reflexivity|].
    change (?a :: ?b :: ?c :: ?d :: ?l ++ ?r)
      with ([a; b; c; d] ++ l ++ r).
    rewrite !app_assoc, last_app_cons. reflexivity. }
  split; [|split; [exact Hlast|]].
  - unfold script, bench_script. rewrite Hi.
    destruct (w_open w =? NULL); [reflexivity|].
    destruct (w_claim_rc w <? 0); [reflexivity|].
    destruct (w_alloc w =? NULL); reflexivity.
  - unfold script, reaches_loop, bench_script. rewrite Hi.
    destruct (w_open w =? NULL); [split; reflexivity|].
    destruct (w_claim_rc w <? 0); [split; reflexivity|].
    destruct (w_alloc w =? NULL); split; reflexivity.
Qed.

Lemma returned_run_cleans_up_witness :
  let s := final (main sample_world initial_state) in
  calls is_exit (log s) = [(Main, Call_exit NULL)] /\
  last (own (log s)) Call_sigaction = Call_exit NULL /\
  calls is_close (log s) =
    (if w_open sample_world =? NULL then []
     else [(Main, Call_close (w_open sample_world))]) /\
  calls is_release (log s) =
    (if reaches_loop sample_world
     then [(Main, Call_release_interface (w_open sample_world) 2)]
     else []).
Proof.
  apply (returned_run_cleans_up sample_world 0). vm_compute; reflexivity.
Defined.

Lemma filter_handle_events_loop w k :
  filter is_handle_events (loop_script w k ++ teardown w) =
  repeat (Call_handle_events NULL) k.
Proof.
  unfold loop_script, teardown, prelude, bench_script.
  rewrite !filter_app.
  assert (Hr : filter is_handle_events (repeat (Call_handle_events NULL) k) =
               repeat (Call_handle_events NULL) k).
  { induction k; simpl; congruence. }
  rewrite Hr. change (EP_ISO_IN =? EP_ISO_IN) with true. cbv iota.
  destruct (w_alloc w =? NULL); simpl; rewrite app_nil_r; reflexivity.
Qed.

(** ** Runs that do not return *)

Lemma main_stops w : stopped_shape w (main w initial_state).
Proof.
  apply wp_result. pose proof initial_At as H0.
  unfold main, libusb_init_context, libusb_error_name,
    libusb_open_device_with_vid_pid, libusb_claim_interface, out,
    libusb_close, libusb_exit, libusb_release_interface.
  wp_main.
  all: try match goal with
           | |- context [abrupt_result ?h _] => is_var h; destruct h
           end;
    unfold abrupt_result, stopped_shape; try exact I.
  all: match goal with
       | H : At _ _ ?s |- context [log ?s] =>
           let Hw := fresh in
           destruct H as (Hw & _ & _); apply weave_own in Hw; rewrite Hw
       end.
  all: unfold reaches_loop, loop_script, after_init_error, prelude;
    goal_tests.
  - left. repeat split.
    match goal with H : (_ <? 0) = true |- _ => apply Z.ltb_lt in H; exact H end.
  - right. split; [reflexivity|]. eexists; split; [eassumption|].
    rewrite <- !app_assoc. reflexivity.
  - split; [reflexivity|]. eexists; split; [eassumption|].
    rewrite <- !app_assoc. reflexivity.
Qed.

Lemma loop_script_no_cleanup P w k :
  P (Call_handle_events NULL) = false ->
  P Call_sigaction = false ->
  (forall c, P (Call_init_context c) = false) ->
  (forall c v p, P (Call_open_device_with_vid_pid c v p) = false) ->
  (forall d i, P (Call_claim_interface d i) = false) ->
  (forall n, P (Call_alloc_transfer n) = false) ->
  (forall a b c d e f, P (Call_fill_iso_transfer a b c d e f) = false) ->
  (forall a b, P (Call_set_iso_packet_lengths a b) = false) ->
  P Call_get_timestamp = false ->
  (forall p, P (Call_submit_transfer p) = false) ->
  filter P (loop_script w k) = [].
Proof.
  intros H1 H2 H3 H4 H5 H6 H7 H8 H9 H10.
  rewrite filter_loop_script by exact H1.
  unfold loop_script, prelude, bench_script.
  change (EP_ISO_IN =? EP_ISO_IN) with true. cbv iota.
  destruct (w_alloc w =? NULL); simpl;
    rewrite ?H2, ?H3, ?H4, ?H5, ?H6, ?H7, ?H8, ?H9, ?H10; reflexivity.
Qed.

(** X11.  Whenever the process ends through [exit], after an initialization
    error or from the callback, nothing has been cleaned up: the
    interface has not been released, the handle not closed and
    [libusb_exit] not called. *)
Theorem exit_skips_cleanup w c s :
  main w initial_state = Exited c s ->
  calls is_release (log s) = [] /\
  calls is_close (log s) = [] /\
  calls is_exit (log s) = [].
Proof.
  intros E.
  destruct (main_runs w) as (k & L & Hk & Hw & Hf & Hp & Hr).
  pose proof (main_stops w) as Hs.
  rewrite E in *. simpl in Hw, Hs.
  rewrite (weave_calls is_release _ _ (handler_never _ eq_refl (fun _ _ => eq_refl))
             (callback_never _ (fun _ _ => eq_refl) (fun _ _ => eq_refl)
                (fun _ => eq_refl) (fun _ => eq_refl)) Hw).
  rewrite (weave_calls is_close _ _ (handler_never _ eq_refl (fun _ _ => eq_refl))
             (callback_never _ (fun _ _ => eq_refl) (fun _ _ => eq_refl)
                (fun _ => eq_refl) (fun _ => eq_refl)) Hw).
  rewrite (weave_calls is_exit _ _ (handler_never _ eq_refl (fun _ _ => eq_refl))
             (callback_never _ (fun _ _ => eq_refl) (fun _ _ => eq_refl)
                (fun _ => eq_refl) (fun _ => eq_refl)) Hw).
  rewrite (weave_own _ _ Hw) in Hs.
  destruct Hs as [(_ & _ & ->)|(_ & k' & _ & ->)].
  - repeat split; reflexivity.
  - rewrite !loop_script_no_cleanup by reflexivity. repeat split; reflexivity.
Qed.

Lemma exit_skips_cleanup_witness :
  let s := final (main timeout_world initial_state) in
  calls is_release (log s) = [] /\
  calls is_close (log s) = [] /\
  calls is_exit (log s) = [].
Proof.
  apply (exit_skips_cleanup timeout_world 3). vm_compute; reflexivity.
Defined.

(** ** More on the event loop *)

Lemma own_handler_events l : Forall handler_event l -> own l = [].
Proof.
  intros H. apply own_others. eapply Forall_impl; [|exact H].
  intros [o e] [Ho _]; simpl in *; congruence.
Qed.

Lemma handler_ran_own s s' : handler_ran s s' -> own (log s') = own (log s).
Proof.
  intros (_ & _ & _ & _ & _ & _ & l & E & Hl & _).
  rewrite E, own_app, (own_handler_events l Hl), app_nil_r. reflexivity.
Qed.

Lemma background_own s s' : background s s' -> own (log s') = own (log s).
Proof.
  intros (_ & _ & _ & l & E & Hl & _).
  rewrite E, own_app, (own_others l), app_nil_r; auto.
  eapply Forall_impl; [|exact Hl].
  intros [[| |] e] H; simpl in *; [contradiction | discriminate | discriminate].
Qed.

Lemma handler_ran_mono s s' :
  handler_ran s s' -> do_exit s = true -> do_exit s' = true.
Proof.
  intros (_ & _ & _ & _ & _ & _ & l & _ & _ & Hr). eapply raised_mono; eauto.
Qed.

Lemma background_mono s s' :
  background s s' -> do_exit s = true -> do_exit s' = true.
Proof. intros (_ & _ & _ & l & _ & _ & Hr). eapply raised_mono; eauto. Qed.

Lemma event_loop_flagged_own w rounds rc s :
  do_exit s = true ->
  own (log (final (event_loop w rounds rc s))) = own (log s).
Proof.
  intros Hx.
  pose proof (sigpoint_ran w s) as Hf. pose proof (sigpoint_outcome w s) as Ho.
  destruct rounds as [|r rounds]; cbn [event_loop]; unfold bind at 1;
    destruct (sigpoint w s) as [[] s1| |s1|]; cbn [final] in Hf |- *;
    try contradiction; try (apply handler_ran_own; exact Hf);
    unfold bind at 1, get at 1;
    rewrite (handler_ran_mono _ _ Hf Hx); unfold ret; cbn [final];
    apply handler_ran_own; exact Hf.
Qed.

(** X12.  Once [do_exit] is set the loop makes no call: it returns the [rc] it
    was entered with (unless the handler runs once more and divides by
    zero). *)
Theorem event_loop_stops_when_flagged w rounds rc s :
  do_exit s = true ->
  match event_loop w rounds rc s with
  | Ok rc' s' => rc' = rc /\ own (log s') = own (log s) /\ do_exit s' = true
  | Fault s' => own (log s') = own (log s)
  | _ => False
  end.
Proof.
  intros Hx.
  pose proof (sigpoint_ran w s) as Hf. pose proof (sigpoint_outcome w s) as Ho.
  destruct rounds as [|r rounds]; cbn [event_loop]; unfold bind at 1;
    destruct (sigpoint w s) as [[] s1| |s1|]; simpl in Hf; try contradiction;
    try (apply handler_ran_own; exact Hf);
    unfold bind at 1, get at 1;
    rewrite (handler_ran_mono _ _ Hf Hx); unfold ret;
    repeat split;
    first [ apply handler_ran_own; exact Hf
          | exact (handler_ran_mono _ _ Hf Hx) ].
Qed.

Lemma event_loop_stops_when_flagged_witness :
  match
    event_loop sample_world (w_rounds sample_world) 0
      (final (sig_hdlr sample_world measured_state))
  with
  | Ok rc' s' =>
      rc' = 0 /\
      own (log s') = own (log (final (sig_hdlr sample_world measured_state))) /\
      do_exit s' = true
  | Fault s' =>
      own (log s') = own (log (final (sig_hdlr sample_world measured_state)))
  | _ => False
  end.
Proof.
  apply (event_loop_stops_when_flagged sample_world). reflexivity.
Defined.

Lemma bind_ok_inv {A B} (m : M A) (f : A -> M B) s b s' :
  bind m f s = Ok b s' -> exists a s1, m s = Ok a s1 /\ f a s1 = Ok b s'.
Proof.
  unfold bind. destruct (m s) as [a s1| | |]; intros E; try discriminate E.
  exists a, s1; auto.
Qed.

Lemma sig_hdlr_ok w s a s1 : sig_hdlr w s = Ok a s1 -> do_exit s1 = true.
Proof.
  intros E. pose proof (sig_hdlr_outcome w s) as H. rewrite E in H. exact H.
Qed.

Lemma run_occurrences_interrupt_cons w l s :
  run_occurrences w (Interrupt :: l) s =
  bind (sig_hdlr w) (fun _ => run_occurrences w l) s.
Proof. reflexivity. Qed.

Lemma run_occurrences_completion_cons w p xfr l s :
  run_occurrences w (Completion p xfr :: l) s =
  bind (cb_xfr w p xfr) (fun _ => run_occurrences w l) s.
Proof. reflexivity. Qed.

Lemma run_occurrences_ok_background w l s s' :
  run_occurrences w l s = Ok tt s' -> background s s'.
Proof.
  intros E. pose proof (run_occurrences_background w l s) as Hb.
  rewrite E in Hb. exact Hb.
Qed.

Lemma run_occurrences_interrupt w l : forall s s',
  In Interrupt l -> run_occurrences w l s = Ok tt s' -> do_exit s' = true.
Proof.
  induction l as [|[p xfr|] l IH]; intros s s' Hin E.
  - contradiction.
  - destruct Hin as [Hin|Hin]; [discriminate Hin|].
    rewrite run_occurrences_completion_cons in E.
    apply bind_ok_inv in E. destruct E as ([] & s1 & _ & E).
    exact (IH s1 s' Hin E).
  - rewrite run_occurrences_interrupt_cons in E.
    apply bind_ok_inv in E. destruct E as ([] & s1 & E1 & E).
    apply run_occurrences_ok_background in E.
    exact (background_mono s1 s' E (sig_hdlr_ok w s tt s1 E1)).
Qed.

(** X13.  When SIGINT arrives during a call of [libusb_handle_events], [main]
    makes no further call of it: counting from the test of the loop before
    that call, at most this one call is made, however the run goes on. *)
Theorem sigint_in_handle_events_ends_loop w r rest rc s :
  In Interrupt (r_occurrences r) ->
  exists k, (k <= 1)%nat /\
    own (log (final (event_loop w (r :: rest) rc s))) =
    own (log s) ++ repeat (Call_handle_events NULL) k.
Proof.
  intros Hin.
  assert (H0 : forall s', own (log s') = own (log s) ->
    exists k, (k <= 1)%nat /\
      own (log s') = own (log s) ++ repeat (Call_handle_events NULL) k).
  { intros s' E. exists O. split; [lia|]. rewrite E, app_nil_r. reflexivity. }
  assert (H1 : forall s',
    own (log s') = own (log s) ++ [Call_handle_events NULL] ->
    exists k, (k <= 1)%nat /\
      own (log s') = own (log s) ++ repeat (Call_handle_events NULL) k).
  { intros s' E. exists 1%nat. split; [lia|]. exact E. }
  cbn [event_loop]. unfold bind at 1.
  pose proof (sigpoint_ran w s) as Hf. pose proof (sigpoint_outcome w s) as Ho.
  destruct (sigpoint w s) as [[] s1| |s1|]; simpl in Hf; try contradiction;
    [|apply H0, handler_ran_own; exact Hf].
  apply handler_ran_own in Hf.
  unfold bind at 1, get at 1. destruct (do_exit s1) eqn:Ex.
  { apply H0. exact Hf. }
  unfold bind at 1, libusb_handle_events, bind at 1, call, bind at 1.
  pose proof (sigpoint_ran w s1) as Hf1.
  pose proof (sigpoint_outcome w s1) as Ho1.
  destruct (sigpoint w s1) as [[] s2| |s2|]; simpl in Hf1; try contradiction;
    [|apply H0; etransitivity; [apply handler_ran_own; exact Hf1 | exact Hf]].
  apply handler_ran_own in Hf1. unfold emit at 1. unfold bind at 1.
  pose proof (run_occurrences_background w (r_occurrences r)
                (append [(Main, Call_handle_events NULL)] s2)) as Hb.
  apply background_own in Hb.
  assert (Ha : own (log (append [(Main, Call_handle_events NULL)] s2)) =
               own (log s) ++ [Call_handle_events NULL]).
  { cbn [append log]. rewrite own_app, Hf1, Hf. reflexivity. }
  rewrite Ha in Hb.
  destruct (run_occurrences w (r_occurrences r)
              (append [(Main, Call_handle_events NULL)] s2))
    as [[] s3| | |] eqn:E; simpl in Hb; try (apply H1; exact Hb).
  unfold ret at 1.
  destruct (negb (r_rc r =? LIBUSB_SUCCESS)); [apply H1; exact Hb|].
  apply H1.
  rewrite (event_loop_flagged_own w rest (r_rc r) s3
             (run_occurrences_interrupt w _ _ _ Hin E)).
  exact Hb.
Qed.

Lemma sigint_in_handle_events_ends_loop_witness :
  exists k, (k <= 1)%nat /\
    own (log (final (event_loop sample_world
                       ({| r_occurrences := [Completion 200 sample_iso; Interrupt];
                           r_rc := 0 |} :: w_rounds sample_world)
                       0 initial_state))) =
    own (log initial_state) ++ repeat (Call_handle_events NULL) k.
Proof.
  apply (sigint_in_handle_events_ends_loop sample_world). right; left; reflexivity.
Defined.

(** ** Without SIGINT and without an error the loop goes on *)

Lemma sigpoint_quiet w s :
  w_sigint w (n_point s) = false -> sigpoint w s = Ok tt (tick s).
Proof. intros E. unfold sigpoint, bind, next_point. rewrite E. reflexivity. Qed.

Lemma run_occurrences_quiet w l :
  (forall n, 0 <= w_submit_rc w n) -> Forall quiet_occurrence l ->
  forall s, exists s',
    run_occurrences w l s = Ok tt s' /\ own (log s') = own (log s) /\
    do_exit s' = do_exit s /\ n_point s' = n_point s.
Proof.
  intros Hrc Hq. induction Hq as [|[p xfr|] l Ho Hl IH]; intros s.
  - exists s. repeat split.
  - destruct Ho as [Hwf Hc].
    destruct (IH (resubmitted p xfr s)) as (s' & E & Hown & Hd & Hp).
    exists s'. rewrite run_occurrences_completion_cons. unfold bind.
    rewrite (cb_xfr_completed w p xfr s Hwf Hc).
    destruct (w_submit_rc w (n_submit s) <? 0) eqn:Hneg;
      [apply Z.ltb_lt in Hneg; specialize (Hrc (n_submit s)); lia|].
    rewrite E. repeat split; auto.
    rewrite Hown. apply background_own.
    pose proof (cb_xfr_background w p xfr s) as Hb.
    rewrite (cb_xfr_completed w p xfr s Hwf Hc), Hneg in Hb. exact Hb.
  - contradiction.
Qed.

Lemma handle_events_quiet w r s :
  (forall n, w_sigint w n = false) ->
  (forall n, 0 <= w_submit_rc w n) ->
  Forall quiet_occurrence (r_occurrences r) ->
  exists s',
    libusb_handle_events w NULL r s = Ok (r_rc r) s' /\
    own (log s') = own (log s) ++ [Call_handle_events NULL] /\
    do_exit s' = do_exit s.
Proof.
  intros Hsig Hrc Ho.
  destruct (run_occurrences_quiet w (r_occurrences r) Hrc Ho
              (append [(Main, Call_handle_events NULL)] (tick s)))
    as (s1 & E1 & Hown1 & Hd1 & _).
  exists s1. split; [|split].
  - unfold libusb_handle_events, call.
    unfold bind at 1. unfold bind at 1. unfold bind at 1.
    rewrite sigpoint_quiet by apply Hsig.
    unfold emit. rewrite E1. reflexivity.
  - rewrite Hown1. cbn [log append tick]. rewrite own_app. reflexivity.
  - rewrite Hd1. reflexivity.
Qed.

(** X14.  As long as no SIGINT arrives, every completed transfer passes the
    checks of the callback, every re-submission succeeds and
    [libusb_handle_events] returns [LIBUSB_SUCCESS], the loop of [main]
    does not end: after any number of such calls it is still about to
    call [libusb_handle_events] again, with [do_exit] unset, and [main]
    has done nothing else in between. *)
Theorem event_loop_runs_on w rounds : forall rc s,
  (forall n, w_sigint w n = false) ->
  (forall n, 0 <= w_submit_rc w n) ->
  Forall quiet_round rounds ->
  do_exit s = false ->
  exists s',
    event_loop w rounds rc s = Waiting s' /\
    do_exit s' = false /\
    own (log s') =
    own (log s) ++ repeat (Call_handle_events NULL) (List.length rounds).
Proof.
  intros rc s Hsig Hrc Hq. revert rc s.
  induction Hq as [|r rounds [Hr Ho] Hl IH]; intros rc s Hd.
  - exists (tick s). cbn [event_loop]. unfold bind.
    rewrite sigpoint_quiet by apply Hsig. unfold get. cbn [do_exit tick].
    rewrite Hd. repeat split; auto. cbn [log tick List.length repeat].
    rewrite app_nil_r. reflexivity.
  - destruct (handle_events_quiet w r (tick s) Hsig Hrc Ho)
      as (s1 & E1 & Hown1 & Hd1).
    destruct (IH (r_rc r) s1) as (s' & E & Hd' & Hown).
    { rewrite Hd1. exact Hd. }
    exists s'. split; [|split; [exact Hd'|]].
    + cbn [event_loop]. unfold bind at 1.
      rewrite sigpoint_quiet by apply Hsig.
      unfold bind at 1. unfold get at 1. cbn [do_exit tick]. rewrite Hd.
      unfold bind at 1. rewrite E1. rewrite Hr in E |- *. exact E.
    + rewrite Hown, Hown1. cbn [log tick List.length repeat].
      rewrite <- app_assoc. reflexivity.
Qed.

Lemma event_loop_runs_on_witness :
  exists s',
    event_loop sample_world
      [{| r_occurrences := [Completion 200 sample_iso]; r_rc := 0 |};
       {| r_occurrences := [Completion 200 sample_iso; Completion 200 sample_iso];
          r_rc := 0 |}] 0 initial_state = Waiting s' /\
    do_exit s' = false /\
    own (log s') =
    own (log initial_state) ++ repeat (Call_handle_events NULL) 2.
Proof.
  apply (event_loop_runs_on sample_world
           [{| r_occurrences := [Completion 200 sample_iso]; r_rc := 0 |};
            {| r_occurrences :=
                 [Completion 200 sample_iso; Completion 200 sample_iso];
               r_rc := 0 |}] 0 initial_state).
  - intros n. reflexivity.
  - intros n. simpl. lia.
  - assert (Hq : quiet_occurrence (Completion 200 sample_iso)).
    { split; [split; simpl; lia|].
      split; [reflexivity|]. intros _. repeat constructor. }
    repeat constructor; exact Hq.
  - reflexivity.
Defined.

(** ** Every way the callback can end *)

Lemma libusb_transfer_status_eq_dec (a b : libusb_transfer_status) :
  {a = b} + {a <> b}.
Proof. decide equality. Qed.

Lemma libusb_transfer_type_eq_dec (a b : libusb_transfer_type) :
  {a = b} + {a <> b}.
Proof. decide equality. Qed.

Lemma packets_completed_dec xfr :
  {Forall pack_completed (packets xfr)} + {~ Forall pack_completed (packets xfr)}.
Proof. apply Forall_dec. exact pack_completed_dec. Qed.

Lemma cb_xfr_no_fault w p xfr s :
  wf_transfer xfr ->
  match cb_xfr w p xfr s with
  | Fault _ | Waiting _ => False
  | _ => True
  end.
Proof.
  intros Hwf.
  destruct (libusb_transfer_status_eq_dec (xfr_status xfr)
              LIBUSB_TRANSFER_COMPLETED) as [Hst|Hst];
    [|rewrite (cb_xfr_failed w p xfr s Hst); exact I].
  assert (Hok : completed xfr ->
                match cb_xfr w p xfr s with
                | Fault _ | Waiting _ => False
                | _ => True
                end).
  { intros Hc. rewrite (cb_xfr_completed w p xfr s Hwf Hc).
    destruct (w_submit_rc w (n_submit s) <? 0); exact I. }
  destruct (packets_completed_dec xfr) as [Hall|Hbad];
    [apply Hok; split; auto|].
  destruct (libusb_transfer_type_eq_dec (xfr_type xfr)
              LIBUSB_TRANSFER_TYPE_ISOCHRONOUS) as [Hty|Hty];
    [|apply Hok; split; [auto | intros; contradiction]].
  destruct (first_bad_pack _ Hbad) as (l1 & x & l2 & E & H1 & Hx).
  rewrite (cb_xfr_bad_pack w p xfr l1 x l2 s Hwf Hst Hty E H1 Hx). exact I.
Qed.

(** X15.  On a transfer whose arrays are as long as its counts say, the callback
    ends in one of four ways, and each tells what happened: it returns
    only after it has counted and re-submitted a transfer that passed all
    checks; [exit(3)] means the transfer did not complete, [exit(5)] that
    an isochronous packet did not complete, and in both cases nothing was
    counted or re-submitted; [exit(1)] means the re-submission failed. *)
Theorem cb_xfr_outcome w p xfr s :
  wf_transfer xfr ->
  match cb_xfr w p xfr s with
  | Ok _ s' =>
      completed xfr /\ 0 <= w_submit_rc w (n_submit s) /\
      s' = resubmitted p xfr s
  | Exited c s' =>
      (c = 3 /\ xfr_status xfr <> LIBUSB_TRANSFER_COMPLETED /\
       num_bytes s' = num_bytes s /\ num_xfer s' = num_xfer s /\
       n_submit s' = n_submit s) \/
      (c = 5 /\ xfr_status xfr = LIBUSB_TRANSFER_COMPLETED /\
       xfr_type xfr = LIBUSB_TRANSFER_TYPE_ISOCHRONOUS /\
       ~ Forall pack_completed (packets xfr) /\
       num_bytes s' = num_bytes s /\ num_xfer s' = num_xfer s /\
       n_submit s' = n_submit s) \/
      (c = 1 /\ completed xfr /\ w_submit_rc w (n_submit s) < 0 /\
       num_xfer s' = to_ulong (num_xfer s + 1))
  | Fault _ | Waiting _ => False
  end.
Proof.
  intros Hwf.
  destruct (libusb_transfer_status_eq_dec (xfr_status xfr)
              LIBUSB_TRANSFER_COMPLETED) as [Hst|Hst].
  - destruct (libusb_transfer_type_eq_dec (xfr_type xfr)
                LIBUSB_TRANSFER_TYPE_ISOCHRONOUS) as [Hty|Hty].
    + destruct (packets_completed_dec xfr) as [Hall|Hbad].
      * assert (Hc : completed xfr) by (split; auto).
        rewrite (cb_xfr_completed w p xfr s Hwf Hc).
        destruct (w_submit_rc w (n_submit s) <? 0) eqn:E.
        -- apply Z.ltb_lt in E. right; right. auto.
        -- apply Z.ltb_ge in E. auto.
      * destruct (first_bad_pack _ Hbad) as (l1 & x & l2 & E & H1 & Hx).
        rewrite (cb_xfr_bad_pack w p xfr l1 x l2 s Hwf Hst Hty E H1 Hx).
        right; left. repeat split; auto.
    + assert (Hc : completed xfr) by (split; [auto | intros; contradiction]).
      rewrite (cb_xfr_completed w p xfr s Hwf Hc).
      destruct (w_submit_rc w (n_submit s) <? 0) eqn:E.
      * apply Z.ltb_lt in E. right; right. auto.
      * apply Z.ltb_ge in E. auto.
  - rewrite (cb_xfr_failed w p xfr s Hst). left. repeat split; auto.
Qed.

Lemma cb_xfr_outcome_witness :
  wf_transfer sample_iso_bad /\
  match cb_xfr sample_world 200 sample_iso_bad initial_state with
  | Ok _ s' =>
      completed sample_iso_bad /\
      0 <= w_submit_rc sample_world (n_submit initial_state) /\
      s' = resubmitted 200 sample_iso_bad initial_state
  | Exited c s' =>
      (c = 3 /\ xfr_status sample_iso_bad <> LIBUSB_TRANSFER_COMPLETED /\
       num_bytes s' = num_bytes initial_state /\
       num_xfer s' = num_xfer initial_state /\
       n_submit s' = n_submit initial_state) \/
      (c = 5 /\ xfr_status sample_iso_bad = LIBUSB_TRANSFER_COMPLETED /\
       xfr_type sample_iso_bad = LIBUSB_TRANSFER_TYPE_ISOCHRONOUS /\
       ~ Forall pack_completed (packets sample_iso_bad) /\
       num_bytes s' = num_bytes initial_state /\
       num_xfer s' = num_xfer initial_state /\
       n_submit s' = n_submit initial_state) \/
      (c = 1 /\ completed sample_iso_bad /\
       w_submit_rc sample_world (n_submit initial_state) < 0 /\
       num_xfer s' = to_ulong (num_xfer initial_state + 1))
  | Fault _ | Waiting _ => False
  end.
Proof.
  assert (Hwf : wf_transfer sample_iso_bad) by (split; simpl; lia).
  split; [exact Hwf|].
  apply (cb_xfr_outcome sample_world 200 sample_iso_bad initial_state Hwf).
Defined.

(** ** What [benchmark_in] returns *)

Lemma call_main_ok w e s a s' :
  call w Main e s = Ok a s' ->
  exists s1, handler_ran s s1 /\ s' = append [(Main, e)] s1.
Proof.
  unfold call. intros E. apply bind_ok_inv in E.
  destruct E as ([] & s1 & E1 & E). exists s1. split.
  - pose proof (sigpoint_ran w s) as H. rewrite E1 in H. exact H.
  - unfold emit in E. congruence.
Qed.

Lemma call_main_own w e s a s' :
  call w Main e s = Ok a s' ->
  (devh s' = devh s /\ num_bytes s' = num_bytes s /\
   num_xfer s' = num_xfer s) /\
  (tv_start s' = tv_start s /\ bench_xfr s' = bench_xfr s /\
   n_submit s' = n_submit s) /\
  own (log s') = own (log s) ++ [e].
Proof.
  intros E. apply call_main_ok in E. destruct E as (s1 & H & ->).
  pose proof (handler_ran_own s s1 H) as Hown.
  destruct H as (Hd & Hb & Hx & Ht & Hbx & Hn & _).
  cbn [append devh num_bytes num_xfer tv_start bench_xfr n_submit log].
  rewrite own_app, Hown. auto 10.
Qed.

(** X16.  When [benchmark_in] returns, for either kind of endpoint, [main] has
    made exactly the calls of the allocation, the filling of an
    isochronous (16 packets of 128 bytes) or a bulk transfer, the
    timestamp and the submission, in this order, and [bench_xfr] is what
    [libusb_alloc_transfer] gave.  If that is [NULL] the function returns
    -1 after the allocation alone, with the start time untouched and
    nothing submitted; otherwise it returns what [libusb_submit_transfer]
    returned for this one submission and the start time is a reading of
    the clock.  The handle and the counters are not changed. *)
Theorem benchmark_in_result w ep s rc s' :
  benchmark_in w ep s = Ok rc s' ->
  bench_xfr s' = w_alloc w /\ devh s' = devh s /\
  num_bytes s' = num_bytes s /\ num_xfer s' = num_xfer s /\
  own (log s') = own (log s) ++ bench_script w (devh s) ep /\
  if w_alloc w =? NULL then
    rc = -1 /\ tv_start s' = tv_start s /\ n_submit s' = n_submit s
  else
    rc = w_submit_rc w (n_submit s) /\ n_submit s' = S (n_submit s) /\
    exists n, tv_start s' =
              {| tv_sec := ts_sec (w_clock w n);
                 tv_usec := to_int (Z.quot (ts_nsec (w_clock w n)) 1000) |}.
Proof.
  intros E. unfold benchmark_in, libusb_alloc_transfer in E.
  apply bind_ok_inv in E. destruct E as (x & s1 & E1 & E).
  apply bind_ok_inv in E1. destruct E1 as ([] & s0 & E0 & E1).
  apply call_main_own in E0. destruct E0 as (Ha0 & Hb0 & Hl0).
  unfold ret in E1. injection E1 as <- <-.
  apply bind_ok_inv in E. destruct E as ([] & s2 & E2 & E).
  unfold set_bench_xfr in E2. injection E2 as <-.
  unfold bench_script.
  destruct (w_alloc w =? NULL) eqn:Hnull.
  - unfold ret in E. injection E as <- <-.
    cbn [devh num_bytes num_xfer tv_start bench_xfr n_submit log].
    rewrite Hl0. destruct Ha0 as (? & ? & ?), Hb0 as (? & ? & ?). auto 10.
  - apply bind_ok_inv in E. destruct E as (d & s3 & Eg & E).
    unfold get in Eg. injection Eg as <- <-.
    cbn [devh] in E.
    apply bind_ok_inv in E. destruct E as ([] & s4 & Ef & E).
    apply bind_ok_inv in E. destruct E as (tv & s5 & Et & E).
    unfold get_timestamp in Et.
    apply bind_ok_inv in Et. destruct Et as ([] & s6 & Et & Er).
    apply call_main_own in Et. destruct Et as (Ha6 & Hb6 & Hl6).
    unfold read_clock, bind, next_clock, ret in Er. injection Er as <- <-.
    apply bind_ok_inv in E. destruct E as ([] & s7 & Es & E).
    unfold set_tv_start in Es. injection Es as <-.
    unfold libusb_submit_transfer in E.
    apply bind_ok_inv in E. destruct E as ([] & s8 & Ec & E).
    apply call_main_own in Ec. destruct Ec as (Ha8 & Hb8 & Hl8).
    unfold next_submit in E. injection E as <- <-.
    cbn [devh num_bytes num_xfer tv_start bench_xfr n_submit log] in *.
    assert (Hf : (devh s4 = devh s0 /\ num_bytes s4 = num_bytes s0 /\
                  num_xfer s4 = num_xfer s0) /\
                 (bench_xfr s4 = w_alloc w /\ n_submit s4 = n_submit s0) /\
                 own (log s4) =
                 own (log s0) ++
                 (if ep =? EP_ISO_IN
                  then [Call_fill_iso_transfer (w_alloc w) (devh s) ep 2048 16 0;
                        Call_set_iso_packet_lengths (w_alloc w) 128]
                  else [Call_fill_bulk_transfer (w_alloc w) (devh s) ep 2048 0])).
    { destruct Ha0 as (Hd0 & _). rewrite Hd0 in Ef.
      destruct (ep =? EP_ISO_IN).
      - unfold libusb_fill_iso_transfer, libusb_set_iso_packet_lengths in Ef.
        apply bind_ok_inv in Ef. destruct Ef as ([] & s9 & F1 & F2).
        apply call_main_own in F1. apply call_main_own in F2.
        destruct F1 as ((? & ? & ?) & (? & ? & ?) & Hl1).
        destruct F2 as ((? & ? & ?) & (? & ? & ?) & Hl2).
        cbn [devh num_bytes num_xfer tv_start bench_xfr n_submit log] in *.
        rewrite Hl2, Hl1, <- app_assoc.
        repeat apply conj; try congruence. reflexivity.
      - unfold libusb_fill_bulk_transfer in Ef.
        apply call_main_own in Ef.
        destruct Ef as ((? & ? & ?) & (? & ? & ?) & Hl1).
        cbn [devh num_bytes num_xfer tv_start bench_xfr n_submit log] in *.
        rewrite Hl1. repeat apply conj; try congruence. reflexivity. }
    clear Ef.
    destruct Ha0 as (? & ? & ?), Hb0 as (? & ? & ?),
      Ha6 as (? & ? & ?), Hb6 as (? & ? & ?),
      Ha8 as (? & ? & ?), Hb8 as (Htv & ? & ?),
      Hf as ((? & ? & ?) & (? & ?) & Hl4).
    rewrite Hl8, Hl6, Hl4, Hl0, <- !app_assoc.
    repeat apply conj; try congruence.
    + reflexivity.
    + eexists; exact Htv.
Qed.

Lemma benchmark_in_result_witness :
  let s := initial_state in
  let s' := final (benchmark_in sample_world EP_DATA_IN s) in
  bench_xfr s' = w_alloc sample_world /\ devh s' = devh s /\
  num_bytes s' = num_bytes s /\ num_xfer s' = num_xfer s /\
  own (log s') = own (log s) ++ bench_script sample_world (devh s) EP_DATA_IN /\
  if w_alloc sample_world =? NULL then
    0 = -1 /\ tv_start s' = tv_start s /\ n_submit s' = n_submit s
  else
    0 = w_submit_rc sample_world (n_submit s) /\
    n_submit s' = S (n_submit s) /\
    exists n, tv_start s' =
              {| tv_sec := ts_sec (w_clock sample_world n);
                 tv_usec := to_int (Z.quot (ts_nsec (w_clock sample_world n)) 1000) |}.
Proof.
  apply (benchmark_in_result sample_world EP_DATA_IN initial_state 0).
  vm_compute; reflexivity.
Defined.

(** ** The only undefined behaviour *)

Lemma careful_bind {A B} w (m : M A) (f : A -> M B) :
  careful w m -> (forall a, careful w (f a)) -> careful w (bind m f).
Proof.
  intros Hm Hf s. unfold bind. specialize (Hm s).
  destruct (m s) as [a s1| | |]; auto. apply Hf.
Qed.

Lemma careful_ret {A} w (a : A) : careful w (ret a).
Proof. intros s. exact I. Qed.

Lemma careful_get {A} w (f : state -> A) : careful w (get f).
Proof. intros s. exact I. Qed.

Lemma careful_exit {A} w c : careful w (@exit A c).
Proof. intros s. exact I. Qed.

Lemma careful_emit w o e : careful w (emit o e).
Proof. intros s. exact I. Qed.

Lemma careful_sig_hdlr w : careful w (sig_hdlr w).
Proof.
  intros s. unfold sig_hdlr, measure, read_clock.
  unfold bind, emit, next_clock, ret, get.
  cbn [append n_clock tv_start num_xfer num_bytes log do_exit].
  destruct (measure_rate _ _) as [rate|] eqn:E.
  - exact I.
  - unfold undefined, fault_in_measure. exists (log s), (n_clock s).
    cbn [log n_clock tv_start]. repeat apply conj; try reflexivity.
    unfold measure_rate in E.
    destruct (_ =? 0) eqn:E0; [|discriminate E].
    apply Z.eqb_eq in E0. exact E0.
Qed.

Lemma careful_sigpoint w : careful w (sigpoint w).
Proof.
  intros s. unfold sigpoint, bind, next_point.
  destruct (w_sigint w (n_point s)).
  - apply careful_sig_hdlr.
  - exact I.
Qed.

Lemma careful_call w o e : careful w (call w o e).
Proof.
  destruct o; unfold call; try apply careful_emit.
  apply careful_bind; [apply careful_sigpoint | intros; apply careful_emit].
Qed.

Lemma careful_cb_xfr w p xfr : wf_transfer xfr -> careful w (cb_xfr w p xfr).
Proof.
  intros Hwf s. pose proof (cb_xfr_no_fault w p xfr s Hwf) as H.
  destruct (cb_xfr w p xfr s); try exact I; contradiction.
Qed.

Lemma careful_run_occurrences w l :
  Forall wf_occurrence l -> careful w (run_occurrences w l).
Proof.
  induction 1 as [|[p xfr|] l Ho Hl IH]; cbn [run_occurrences].
  - apply careful_ret.
  - apply careful_bind; [apply careful_cb_xfr; exact Ho | intros; exact IH].
  - apply careful_bind; [apply careful_sig_hdlr | intros; exact IH].
Qed.

Ltac careful_step :=
  lazymatch goal with
  | |- careful _ (bind _ _) => apply careful_bind; [|intros ?]
  | |- careful _ (ret _) => apply careful_ret
  | |- careful _ (get _) => apply careful_get
  | |- careful _ (exit _) => apply careful_exit
  | |- careful _ (emit _ _) => apply careful_emit
  | |- careful _ (call _ _ _) => apply careful_call
  | |- careful _ (if ?b then _ else _) => destruct b
  | |- careful _ (set_devh _) => intros ?; exact I
  | |- careful _ (set_bench_xfr _) => intros ?; exact I
  | |- careful _ (set_tv_start _) => intros ?; exact I
  | |- careful _ (next_submit _) => intros ?; exact I
  | |- careful _ (next_clock _) => intros ?; exact I
  end.

Lemma careful_handle_events w r :
  wf_round r -> careful w (libusb_handle_events w NULL r).
Proof.
  intros Hr. unfold libusb_handle_events.
  apply careful_bind; [apply careful_call | intros _].
  apply careful_bind; [apply careful_run_occurrences; exact Hr | intros _].
  apply careful_ret.
Qed.

Lemma careful_event_loop w rounds :
  Forall wf_round rounds -> forall rc, careful w (event_loop w rounds rc).
Proof.
  induction 1 as [|r rounds Hr Hl IH]; intros rc; cbn [event_loop].
  - apply careful_bind; [apply careful_sigpoint | intros _].
    apply careful_bind; [apply careful_get | intros stop].
    destruct stop; [apply careful_ret | intros s; exact I].
  - apply careful_bind; [apply careful_sigpoint | intros _].
    apply careful_bind; [apply careful_get | intros stop].
    destruct stop; [apply careful_ret|].
    apply careful_bind; [apply careful_handle_events; exact Hr | intros rc'].
    destruct (negb (rc' =? LIBUSB_SUCCESS)); [apply careful_ret | apply IH].
Qed.

Lemma careful_benchmark_in w ep : careful w (benchmark_in w ep).
Proof.
  unfold benchmark_in, libusb_alloc_transfer, libusb_fill_iso_transfer,
    libusb_set_iso_packet_lengths, libusb_fill_bulk_transfer, get_timestamp,
    read_clock, libusb_submit_transfer.
  repeat careful_step.
Qed.

Lemma careful_main w : Forall wf_round (w_rounds w) -> careful w (main w).
Proof.
  intros Hw.
  unfold main, libusb_init_context, libusb_error_name,
    libusb_open_device_with_vid_pid, libusb_claim_interface, out,
    libusb_close, libusb_exit, libusb_release_interface.
  repeat first
    [ apply careful_benchmark_in
    | apply careful_event_loop; exact Hw
    | careful_step ].
Qed.

(** X17.  Two things are undefined behaviour here: a read past the arrays of
    a transfer in [cb_xfr] and the division by [diff_msec] in [measure]
    (integer arithmetic wraps around).  When the transfers that complete
    have arrays as long as their counts say, only the second is left: if
    a run of [main] ends in undefined behaviour, the last thing that
    happened is that the SIGINT handler read the clock, and the
    milliseconds computed from that reading and the start time are
    zero. *)
Theorem undefined_only_in_measure w s :
  Forall wf_round (w_rounds w) ->
  main w initial_state = Fault s ->
  exists tr n,
    log s = tr ++ [(Handler, Call_get_timestamp)] /\
    n_clock s = S n /\
    measure_diff_msec (tv_start s) (timeval_of (w_clock w n)) = 0.
Proof.
  intros Hw E. pose proof (careful_main w Hw initial_state) as H.
  rewrite E in H. exact H.
Qed.

Lemma undefined_only_in_measure_witness :
  let s := final (main instant_world initial_state) in
  exists tr n,
    log s = tr ++ [(Handler, Call_get_timestamp)] /\
    n_clock s = S n /\
    measure_diff_msec (tv_start s) (timeval_of (w_clock instant_world n)) = 0.
Proof.
  apply (undefined_only_in_measure instant_world).
  - constructor.
  - vm_compute; reflexivity.
Defined.
(** ** Runs without SIGINT outside the event loop *)

Lemma call_quiet w e s :
  no_sigint w -> call w Main e s = Ok tt (append [(Main, e)] (tick s)).
Proof.
  intros H. unfold call, bind. rewrite sigpoint_quiet by apply H. reflexivity.
Qed.

Lemma bind_ok {A B} (m : M A) (f : A -> M B) s a s1 :
  m s = Ok a s1 -> bind m f s = f a s1.
Proof. intros E. unfold bind. rewrite E. reflexivity. Qed.

Lemma bind_assoc {A B C} (m : M A) (f : A -> M B) (g : B -> M C) s :
  bind (bind m f) g s = bind m (fun a => bind (f a) g) s.
Proof. unfold bind. destruct (m s); reflexivity. Qed.

(** One step of a run in which no SIGINT arrives. *)
Ltac run_step Hsig :=
  lazymatch goal with
  | |- bind (bind _ _) _ _ = _ => rewrite bind_assoc
  | |- bind (call _ Main _) _ _ = _ =>
      rewrite (bind_ok _ _ _ _ _ (call_quiet _ _ _ Hsig))
  | |- bind (ret _) _ _ = _ => rewrite (bind_ok (ret _) _ _ _ _ eq_refl)
  | |- bind (emit _ _) _ _ = _ => rewrite (bind_ok (emit _ _) _ _ _ _ eq_refl)
  | |- bind (get _) _ _ = _ => rewrite (bind_ok (get _) _ _ _ _ eq_refl)
  | |- bind (set_devh _) _ _ = _ =>
      rewrite (bind_ok (set_devh _) _ _ _ _ eq_refl)
  | |- bind (set_bench_xfr _) _ _ = _ =>
      rewrite (bind_ok (set_bench_xfr _) _ _ _ _ eq_refl)
  | |- bind (set_tv_start _) _ _ = _ =>
      rewrite (bind_ok (set_tv_start _) _ _ _ _ eq_refl)
  | |- bind (next_clock _) _ _ = _ =>
      rewrite (bind_ok (next_clock _) _ _ _ _ eq_refl)
  | |- bind (next_submit _) _ _ = _ =>
      rewrite (bind_ok (next_submit _) _ _ _ _ eq_refl)
  | |- call _ Main _ _ = _ => rewrite (call_quiet _ _ _ Hsig)
  | |- context [if negb ?b then _ else _] =>
      match goal with E : b = _ |- _ => rewrite E; cbn [negb] end
  | |- context [if ?b then _ else _] =>
      match goal with E : b = _ |- _ => rewrite E end
  end.

Ltac run_quiet Hsig :=
  repeat (run_step Hsig;
          cbn [append tick initial_state do_exit devh num_bytes num_xfer
               tv_start bench_xfr log n_submit n_clock n_point]).

Lemma main_enters_loop w :
  no_sigint w -> reaches_loop w = true ->
  main w initial_state =
  bind (event_loop w (w_rounds w) (w_claim_rc w)) (after_loop w) (loop_state w).
Proof.
  intros Hsig Hl. unfold reaches_loop in Hl.
  apply andb_true_iff in Hl as [Hl H3]. apply andb_true_iff in Hl as [H1 H2].
  apply negb_true_iff in H1, H2, H3.
  assert (Hep : (EP_ISO_IN =? EP_ISO_IN) = true) by reflexivity.
  unfold main, libusb_init_context, libusb_open_device_with_vid_pid,
    libusb_claim_interface, benchmark_in, libusb_alloc_transfer,
    libusb_fill_iso_transfer, libusb_set_iso_packet_lengths,
    libusb_fill_bulk_transfer, get_timestamp, read_clock,
    libusb_submit_transfer.
  destruct (w_alloc w =? NULL) eqn:Ha.
  - run_quiet Hsig.
    unfold after_loop, loop_state, loop_script, bench_script. rewrite Ha.
    reflexivity.
  - run_quiet Hsig.
    unfold after_loop, loop_state, loop_script, bench_script. rewrite Ha.
    reflexivity.
Qed.

Lemma main_init_error_quiet w :
  no_sigint w -> w_init_rc w < 0 ->
  exists s, main w initial_state = Exited 1 s /\
            log s = by_main (after_init_error w).
Proof.
  intros Hsig H1. apply Z.ltb_lt in H1.
  unfold main, libusb_init_context, libusb_error_name.
  eexists. split.
  - run_quiet Hsig. unfold exit. reflexivity.
  - reflexivity.
Qed.

Lemma main_no_device_quiet w :
  no_sigint w -> 0 <= w_init_rc w -> w_open w = NULL ->
  exists s, main w initial_state = Ok (w_init_rc w) s /\
            log s = by_main after_no_device.
Proof.
  intros Hsig H1 H2. apply Z.ltb_ge in H1.
  assert (H2' : (w_open w =? NULL) = true) by (rewrite H2; reflexivity).
  unfold main, libusb_init_context, libusb_open_device_with_vid_pid, out,
    libusb_close, libusb_exit.
  eexists. split.
  - run_quiet Hsig. unfold ret. reflexivity.
  - reflexivity.
Qed.

Lemma main_claim_error_quiet w :
  no_sigint w -> 0 <= w_init_rc w -> w_open w <> NULL -> w_claim_rc w < 0 ->
  exists s, main w initial_state = Ok (w_claim_rc w) s /\
            log s = by_main (after_claim_error w).
Proof.
  intros Hsig H1 H2 H3. apply Z.ltb_ge in H1. apply Z.eqb_neq in H2.
  apply Z.ltb_lt in H3.
  unfold main, libusb_init_context, libusb_open_device_with_vid_pid,
    libusb_claim_interface, libusb_error_name, out, libusb_close, libusb_exit.
  eexists. split.
  - run_quiet Hsig. unfold ret. reflexivity.
  - reflexivity.
Qed.

Lemma after_loop_quiet w rc s :
  no_sigint w -> devh s = w_open w -> w_open w <> NULL ->
  exists s', after_loop w rc s = Ok rc s' /\
             log s' = log s ++ by_main (teardown w) /\
             do_exit s' = do_exit s.
Proof.
  intros Hsig Hd Ho. apply Z.eqb_neq in Ho.
  unfold after_loop, libusb_release_interface, out, libusb_close, libusb_exit.
  eexists. split; [|split].
  - run_quiet Hsig. rewrite Hd. run_quiet Hsig. unfold ret. reflexivity.
  - cbn [log append tick]. rewrite <- !app_assoc. reflexivity.
  - reflexivity.
Qed.

(** ** The loop when no SIGINT arrives outside [libusb_handle_events] *)

Lemma event_loop_flagged_quiet w rounds rc s :
  no_sigint w -> do_exit s = true -> event_loop w rounds rc s = Ok rc (tick s).
Proof.
  intros Hsig Hd. destruct rounds; cbn [event_loop]; unfold bind;
    rewrite sigpoint_quiet by apply Hsig; unfold get; cbn [do_exit tick];
    rewrite Hd; reflexivity.
Qed.

Lemma event_loop_nil_quiet w rc s :
  no_sigint w -> do_exit s = false -> event_loop w [] rc s = Waiting (tick s).
Proof.
  intros Hsig Hd. cbn [event_loop]. unfold bind.
  rewrite sigpoint_quiet by apply Hsig. unfold get. cbn [do_exit tick].
  rewrite Hd. reflexivity.
Qed.

Lemma event_loop_cons_quiet w r rounds rc s :
  no_sigint w -> do_exit s = false ->
  event_loop w (r :: rounds) rc s =
  bind (libusb_handle_events w NULL r)
       (fun rc' => if negb (rc' =? LIBUSB_SUCCESS) then ret rc'
                   else event_loop w rounds rc') (tick s).
Proof.
  intros Hsig Hd. cbn [event_loop]. unfold bind at 1.
  rewrite sigpoint_quiet by apply Hsig.
  unfold bind at 1. unfold get at 1. cbn [do_exit tick]. rewrite Hd.
  reflexivity.
Qed.

Lemma handle_events_good w r s :
  no_sigint w -> (forall n, 0 <= w_submit_rc w n) ->
  Forall quiet_occurrence (r_occurrences r) ->
  exists s',
    libusb_handle_events w NULL r s = Ok (r_rc r) s' /\
    (own (log s') = own (log s) ++ [Call_handle_events NULL]) /\
    (do_exit s' = do_exit s) /\ devh s' = devh s.
Proof.
  intros Hsig Hrc Ho.
  destruct (run_occurrences_quiet w (r_occurrences r) Hrc Ho
              (append [(Main, Call_handle_events NULL)] (tick s)))
    as (s1 & E1 & Hown1 & Hd1 & _).
  exists s1. split; [|split; [|split]].
  - unfold libusb_handle_events.
    rewrite (bind_ok _ _ _ _ _ (call_quiet w _ _ Hsig)).
    rewrite (bind_ok _ _ _ _ _ E1). reflexivity.
  - rewrite Hown1. cbn [log append tick]. rewrite own_app. reflexivity.
  - rewrite Hd1. reflexivity.
  - apply run_occurrences_ok_background in E1.
    destruct E1 as (Hdv & _). rewrite Hdv. reflexivity.
Qed.

(** The value of [rc] after the calls [qs], all of which returned
    [LIBUSB_SUCCESS]. *)
Lemma event_loop_quiet_prefix w qs :
  no_sigint w -> (forall n, 0 <= w_submit_rc w n) ->
  Forall quiet_round qs ->
  forall rest rc s, do_exit s = false ->
  exists s1,
    event_loop w (qs ++ rest) rc s =
    event_loop w rest (match qs with [] => rc | _ => LIBUSB_SUCCESS end) s1 /\
    (own (log s1) =
     own (log s) ++ repeat (Call_handle_events NULL) (List.length qs)) /\
    do_exit s1 = false /\ devh s1 = devh s.
Proof.
  intros Hsig Hrc Hq. induction Hq as [|r qs [Hr Ho] Hq IH]; intros rest rc s Hd.
  - exists s. cbn [app List.length repeat]. rewrite app_nil_r. auto.
  - destruct (handle_events_good w r (tick s) Hsig Hrc Ho)
      as (s1 & E1 & Hown1 & Hd1 & Hv1).
    destruct (IH rest LIBUSB_SUCCESS s1) as (s2 & E2 & Hown2 & Hd2 & Hv2).
    { rewrite Hd1. exact Hd. }
    exists s2. split; [|split; [|split]].
    + cbn [app]. rewrite event_loop_cons_quiet by assumption.
      rewrite (bind_ok _ _ _ _ _ E1). rewrite Hr. cbn [negb Z.eqb].
      change (LIBUSB_SUCCESS =? LIBUSB_SUCCESS) with true. cbn [negb].
      rewrite E2. destruct qs; reflexivity.
    + rewrite Hown2, Hown1. cbn [log tick List.length repeat].
      rewrite <- app_assoc. reflexivity.
    + exact Hd2.
    + rewrite Hv2, Hv1. reflexivity.
Qed.

Lemma event_loop_break w r rest rc s :
  no_sigint w -> (forall n, 0 <= w_submit_rc w n) ->
  Forall quiet_occurrence (r_occurrences r) -> r_rc r <> LIBUSB_SUCCESS ->
  do_exit s = false ->
  exists s',
    event_loop w (r :: rest) rc s = Ok (r_rc r) s' /\
    (own (log s') = own (log s) ++ [Call_handle_events NULL]) /\
    do_exit s' = false /\ devh s' = devh s.
Proof.
  intros Hsig Hrc Ho Hr Hd.
  destruct (handle_events_good w r (tick s) Hsig Hrc Ho)
    as (s1 & E1 & Hown1 & Hd1 & Hv1).
  exists s1. split; [|split; [|split]]; auto.
  - rewrite event_loop_cons_quiet by assumption.
    rewrite (bind_ok _ _ _ _ _ E1).
    apply Z.eqb_neq in Hr. rewrite Hr. reflexivity.
  - rewrite Hd1. exact Hd.
Qed.

Lemma never_waits_bind {A B} (m : M A) (f : A -> M B) :
  never_waits m -> (forall a, never_waits (f a)) -> never_waits (bind m f).
Proof.
  intros Hm Hf s. unfold bind. specialize (Hm s).
  destruct (m s) as [a s1| | |]; auto. apply Hf.
Qed.

Lemma never_waits_for_loop body n :
  (forall i, never_waits (body i)) -> forall lo, never_waits (for_loop lo n body).
Proof.
  intros Hb. induction n as [|n IH]; intros lo; cbn [for_loop].
  - intros s. exact I.
  - apply never_waits_bind; [apply Hb | intros _; apply IH].
Qed.

Ltac never_waits_step :=
  lazymatch goal with
  | |- never_waits (bind _ _) => apply never_waits_bind; [|intros ?]
  | |- never_waits (for_loop _ _ _) => apply never_waits_for_loop; intros ?
  | |- never_waits (if ?b then _ else _) => destruct b
  | |- never_waits (match ?x with Some _ => _ | None => _ end) => destruct x
  | |- never_waits (match ?x with Some _ => _ | None => _ end) => destruct x
  | |- never_waits _ => intros ?; exact I
  end.

Lemma never_waits_sig_hdlr w : never_waits (sig_hdlr w).
Proof.
  intros s. pose proof (sig_hdlr_outcome w s) as H.
  destruct (sig_hdlr w s); auto.
Qed.

Lemma never_waits_cb_xfr w p xfr : never_waits (cb_xfr w p xfr).
Proof.
  unfold cb_xfr, check_pack, dump_byte, libusb_free_transfer,
    libusb_submit_transfer, call.
  repeat never_waits_step.
Qed.

Lemma never_waits_run_occurrences w l : never_waits (run_occurrences w l).
Proof.
  induction l as [|[p xfr|] l IH]; cbn [run_occurrences].
  - intros s. exact I.
  - apply never_waits_bind; [apply never_waits_cb_xfr | intros _; exact IH].
  - apply never_waits_bind; [apply never_waits_sig_hdlr | intros _; exact IH].
Qed.

Lemma bind_exited {A B} (m : M A) (f : A -> M B) s c s1 :
  m s = Exited c s1 -> bind m f s = Exited c s1.
Proof. intros E. unfold bind. rewrite E. reflexivity. Qed.

Lemma bind_fault {A B} (m : M A) (f : A -> M B) s s1 :
  m s = Fault s1 -> bind m f s = Fault s1.
Proof. intros E. unfold bind. rewrite E. reflexivity. Qed.

Lemma event_loop_interrupt w r rest rc s :
  no_sigint w -> In Interrupt (r_occurrences r) -> do_exit s = false ->
  own (log (final (event_loop w (r :: rest) rc s))) =
    own (log s) ++ [Call_handle_events NULL] /\
  match event_loop w (r :: rest) rc s with
  | Ok rc' s' => rc' = r_rc r /\ do_exit s' = true /\ devh s' = devh s
  | Waiting _ => False
  | _ => True
  end.
Proof.
  intros Hsig Hin Hd.
  rewrite event_loop_cons_quiet by assumption.
  unfold libusb_handle_events.
  rewrite bind_assoc, (bind_ok _ _ _ _ _ (call_quiet w _ _ Hsig)).
  rewrite bind_assoc.
  set (s0 := append [(Main, Call_handle_events NULL)] (tick (tick s))).
  assert (H0 : own (log s0) = own (log s) ++ [Call_handle_events NULL]).
  { unfold s0. cbn [log append tick]. rewrite own_app. reflexivity. }
  pose proof (run_occurrences_background w (r_occurrences r) s0) as Hb.
  apply background_own in Hb. rewrite H0 in Hb.
  pose proof (run_occurrences_interrupt w (r_occurrences r) s0) as Hi.
  pose proof (never_waits_run_occurrences w (r_occurrences r) s0) as Hw.
  destruct (run_occurrences w (r_occurrences r) s0) as [[] s1|c s1|s1|s1] eqn:E;
    cbn [final] in Hb; try contradiction.
  - specialize (Hi s1 Hin eq_refl).
    assert (Hv : devh s1 = devh s).
    { apply run_occurrences_ok_background in E. destruct E as (Hv & _).
      rewrite Hv. reflexivity. }
    rewrite (bind_ok _ _ _ _ _ E), (bind_ok (ret _) _ _ _ _ eq_refl).
    destruct (negb (r_rc r =? LIBUSB_SUCCESS)).
    + unfold ret. cbn [final]. auto.
    + rewrite event_loop_flagged_quiet by assumption.
      cbn [final log tick devh do_exit]. auto.
  - rewrite (bind_exited _ _ _ _ _ E). cbn [final]. auto.
  - rewrite (bind_fault _ _ _ _ E). cbn [final]. auto.
Qed.

Lemma weave_by_main L : weave L (by_main L).
Proof.
  induction L as [|e L IH] using rev_ind.
  - apply weave_nil.
  - rewrite by_main_app. apply weave_main. exact IH.
Qed.

Lemma loop_state_At w : At (loop_script w 0) (w_open w) (loop_state w).
Proof.
  repeat split.
  - apply weave_by_main.
  - intros H. discriminate H.
Qed.

(** From the loop on, whatever happens. *)
Lemma loop_onwards w rc s L :
  At L (w_open w) s -> w_open w <> NULL ->
  exists k L', (k <= List.length (w_rounds w))%nat /\
    prefix_of L' (teardown w) /\
    own (log (final (bind (event_loop w (w_rounds w) rc) (after_loop w) s))) =
    L ++ repeat (Call_handle_events NULL) k ++ L'.
Proof.
  intros HA Ho. apply Z.eqb_neq in Ho.
  apply (wp_result _ (fun r =>
    exists k L', (k <= List.length (w_rounds w))%nat /\
      prefix_of L' (teardown w) /\
      own (log (final r)) = L ++ repeat (Call_handle_events NULL) k ++ L')).
  unfold after_loop, libusb_release_interface, out, libusb_close, libusb_exit.
  apply wp_bind. eapply wp_event_loop_at; [exact HA | |].
  - intros k rc' s' Hk HA' _ _.
    wp_at.
    all: lazymatch goal with
         | H : At _ _ ?s |- context [log (final (_ _ ?s))] =>
             let Hw := fresh "Hw" in
             destruct H as (Hw & _ & _); apply weave_own in Hw;
             exists k; eexists; split; [exact Hk|]; split;
             [|cbn [final abrupt_result]; rewrite Hw; rewrite <- ?app_assoc;
               first [ reflexivity
                     | rewrite <- (app_nil_r (repeat (Call_handle_events NULL) k))
                         at 1; reflexivity ]]
         end.
    all: unfold teardown; eexists; cbn [app]; reflexivity.
  - intros h k s' Hk (Hw & _ & _). apply weave_own in Hw.
    exists k, []. split; [exact Hk|]. split; [eexists; reflexivity|].
    destruct h; cbn [final abrupt_result]; rewrite Hw, app_nil_r; reflexivity.
Qed.

Lemma main_quiet_reaches_loop w :
  no_sigint w -> reaches_loop w = true ->
  exists k L', (k <= List.length (w_rounds w))%nat /\
    prefix_of L' (teardown w) /\
    own (log (final (main w initial_state))) = loop_script w k ++ L'.
Proof.
  intros Hsig Hl. rewrite (main_enters_loop w Hsig Hl).
  assert (Ho : w_open w <> NULL).
  { unfold reaches_loop in Hl.
    apply andb_true_iff in Hl as [Hl _]. apply andb_true_iff in Hl as [_ H2].
    apply negb_true_iff in H2. apply Z.eqb_neq; exact H2. }
  destruct (loop_onwards w (w_claim_rc w) _ _ (loop_state_At w) Ho)
    as (k & L' & Hk & Hp & E).
  exists k, L'. split; [exact Hk|]. split; [exact Hp|].
  rewrite E. unfold loop_script. cbn [repeat]. rewrite app_nil_r.
  rewrite <- !app_assoc. reflexivity.
Qed.

(** ** How the loop is left *)

(** The rule of the loop, with what is known of the earlier calls. *)
Lemma wp_event_loop_strong w rounds : forall rc L d (Q : Z -> state -> Prop) R s,
  At L d s ->
  (forall k rc' s', (k <= List.length rounds)%nat ->
     At (L ++ repeat (Call_handle_events NULL) k) d s' ->
     do_exit s' = true \/ ((0 < k)%nat /\ rc' <> LIBUSB_SUCCESS) ->
     rc' = loop_rc rounds rc k -> earlier_succeeded rounds k -> Q rc' s') ->
  (forall h k s', (k <= List.length rounds)%nat ->
     At (L ++ repeat (Call_handle_events NULL) k) d s' -> R h s') ->
  wp (event_loop w rounds rc) Q R s.
Proof.
  assert (H0 : forall rounds, earlier_succeeded rounds 0)
    by (intros rs j Hj; lia).
  assert (H1 : forall rounds, earlier_succeeded rounds 1)
    by (intros rs j Hj; lia).
  induction rounds as [|r rounds IH]; intros rc L d Q R s HA HQ HR.
  - simpl. apply wp_bind. eapply wp_sigpoint_at; eauto.
    + intros s1 HA1 _. apply wp_bind, wp_get.
      destruct (do_exit s1) eqn:E.
      * apply wp_ret. apply (HQ O); simpl; auto. rewrite app_nil_r; auto.
      * unfold wp. apply (HR AWait O); simpl; auto. rewrite app_nil_r; auto.
    + intros s1 HA1. apply (HR AFault O); simpl; auto. rewrite app_nil_r; auto.
  - simpl. apply wp_bind. eapply wp_sigpoint_at; eauto.
    + intros s1 HA1 _. apply wp_bind, wp_get.
      destruct (do_exit s1) eqn:E.
      * apply wp_ret. apply (HQ O); simpl; auto with arith.
        rewrite app_nil_r; auto.
      * apply wp_bind. eapply wp_handle_events_at; eauto.
        -- intros s2 HA2.
           destruct (r_rc r =? LIBUSB_SUCCESS) eqn:Erc; simpl.
           ++ eapply IH; eauto.
              ** intros k rc' s3 Hk HA3 Hex Hrc He. rewrite repeat_snoc in HA3.
                 apply (HQ (S k));
                   [simpl; lia | auto | | subst rc'; destruct k; reflexivity |].
                 { destruct Hex as [Hex|[_ Hex]]; [left | right; split]; auto.
                   lia. }
                 { intros [|j] Hj; cbn [nth].
                   - apply Z.eqb_eq; exact Erc.
                   - apply He. lia. }
              ** intros h k s3 Hk HA3. rewrite repeat_snoc in HA3.
                 apply (HR h (S k)); [simpl; lia | auto].
           ++ apply wp_ret.
              apply (HQ 1%nat); [simpl; lia | auto | | reflexivity | auto].
              right. split; [lia|]. apply Z.eqb_neq; exact Erc.
        -- intros h s2 [HA2|HA2].
           ++ apply (HR h O); [simpl; lia | simpl; rewrite app_nil_r; auto].
           ++ apply (HR h 1%nat); [simpl; lia | auto].
    + intros s1 HA1. apply (HR AFault O); simpl; auto with arith.
      rewrite app_nil_r; auto.
Qed.

(** A step that remembers what has become of [do_exit]. *)
Ltac wp_keep_step :=
  lazymatch goal with
  | |- wp (call _ Main _) _ _ _ =>
      eapply wp_call_at; [eassumption | intros ? ? ? | intros ? ?]
  | |- _ => wp_at_step
  end.

Lemma main_returns w : returned_shape w (main w initial_state).
Proof.
  apply wp_result. pose proof initial_At as H0.
  unfold main, libusb_init_context, libusb_error_name,
    libusb_open_device_with_vid_pid, libusb_claim_interface, out,
    libusb_close, libusb_exit, libusb_release_interface.
  repeat first
    [ eapply wp_benchmark_in_at; [eassumption | intros ? ? ? | intros ? ? ? ?]
    | eapply wp_event_loop_strong;
      [eassumption | intros k rc' sl Hk HAl Hex Hrc He | intros ? ? ? ? ?]
    | wp_keep_step ].
  all: try match goal with
           | |- context [abrupt_result ?h _] => is_var h; destruct h
           end;
    unfold abrupt_result, returned_shape; try exact I.
  all: unfold reaches_loop; goal_tests; cbn [negb andb]; intros Hl;
    try discriminate Hl.
  exists k. destruct H13 as (Hw & _ & Hf). apply weave_own in Hw.
  split; [exact Hk|]. split; [|split; [reflexivity|split; [exact He|]]].
  - rewrite Hw. unfold loop_script, teardown, prelude.
    rewrite <- !app_assoc. reflexivity.
  - destruct Hex as [Hex|Hex]; [left | right; rewrite <- Hrc; exact Hex].
    assert (Hd : do_exit s'7 = true) by auto.
    split; [exact Hd | exact (Hf Hd)].
Qed.

(** ** Undefined behaviour in a run that does not get to the loop *)

Lemma bind_waiting {A B} (m : M A) (f : A -> M B) s s1 :
  m s = Waiting s1 -> bind m f s = Waiting s1.
Proof. intros E. unfold bind. rewrite E. reflexivity. Qed.

(** Through a call of [main], at which the handler may run. *)
Lemma fault_in_measure_call {B} w e (f : unit -> M B) s :
  (forall s1, fault_in_measure w (f tt s1)) ->
  fault_in_measure w (bind (call w Main e) f s).
Proof.
  intros Hf. pose proof (careful_call w Main e s) as Hc.
  destruct (call w Main e s) as [[] s1|c s1|s1|s1] eqn:E.
  - rewrite (bind_ok _ _ _ _ _ E). apply Hf.
  - rewrite (bind_exited _ _ _ _ _ E). exact I.
  - rewrite (bind_fault _ _ _ _ E). exact Hc.
  - rewrite (bind_waiting _ _ _ _ E). exact I.
Qed.

Ltac fault_step :=
  lazymatch goal with
  | |- fault_in_measure _ (bind (bind _ _) _ _) => rewrite bind_assoc
  | |- fault_in_measure _ (bind (call _ Main _) _ _) =>
      apply fault_in_measure_call; intros ?
  | |- fault_in_measure _ (bind (ret _) _ _) =>
      rewrite (bind_ok (ret _) _ _ _ _ eq_refl)
  | |- fault_in_measure _ (bind (emit _ _) _ _) =>
      rewrite (bind_ok (emit _ _) _ _ _ _ eq_refl)
  | |- fault_in_measure _ (bind (get _) _ _) =>
      rewrite (bind_ok (get _) _ _ _ _ eq_refl)
  | |- fault_in_measure _ (bind (set_devh _) _ _) =>
      rewrite (bind_ok (set_devh _) _ _ _ _ eq_refl)
  | |- fault_in_measure _ (bind (exit _) _ _) =>
      rewrite (bind_exited (exit _) _ _ _ _ eq_refl); exact I
  | |- fault_in_measure _ (call _ Main _ _) => apply careful_call
  | |- fault_in_measure _ (ret _ _) => exact I
  | |- fault_in_measure _ (exit _ _) => exact I
  | |- context [if negb ?b then _ else _] =>
      first [ match goal with E : b = _ |- _ => rewrite E end
            | destruct b eqn:? ]; cbn [negb]
  | |- context [if ?b then _ else _] =>
      first [ match goal with E : b = _ |- _ => rewrite E end
            | destruct b eqn:? ]
  end.

Lemma careful_main_early w : reaches_loop w = false -> careful w (main w).
Proof.
  intros Hl s. unfold reaches_loop in Hl.
  unfold main, libusb_init_context, libusb_error_name,
    libusb_open_device_with_vid_pid, libusb_claim_interface, out,
    libusb_close, libusb_exit, libusb_release_interface.
  destruct (w_init_rc w <? 0) eqn:H1; [repeat fault_step|].
  destruct (w_open w =? NULL) eqn:H2.
  - repeat (fault_step; cbn [devh append]).
  - destruct (w_claim_rc w <? 0) eqn:H3; [|discriminate Hl].
    repeat (fault_step; cbn [devh append]).
Qed.

(** ** Runs in which no transfer completes *)

Lemma unattended_refl s : unattended s s.
Proof. exists []. rewrite app_nil_r. split; [reflexivity | constructor]. Qed.

Lemma unattended_trans s1 s2 s3 :
  unattended s1 s2 -> unattended s2 s3 -> unattended s1 s3.
Proof.
  intros (l1 & E1 & H1) (l2 & E2 & H2). exists (l1 ++ l2). split.
  - rewrite E2, E1, app_assoc. reflexivity.
  - apply Forall_app; auto.
Qed.

Lemma unattended_emit o e : o <> Callback -> steady unattended (emit o e).
Proof.
  intros Ho s. exists [(o, e)]. split; [reflexivity|].
  constructor; [exact Ho | constructor].
Qed.

Lemma unattended_same {A} (m : M A) :
  (forall s, log (final (m s)) = log s) -> steady unattended m.
Proof.
  intros H s. exists []. rewrite app_nil_r. split; [apply H | constructor].
Qed.

Lemma handler_ran_unattended s s' : handler_ran s s' -> unattended s s'.
Proof.
  intros (_ & _ & _ & _ & _ & _ & l & E & Hl & _). exists l. split; [exact E|].
  eapply Forall_impl; [|exact Hl]. intros [o e] [Ho _]. simpl in *.
  rewrite Ho. discriminate.
Qed.

Ltac unattended_tac :=
  repeat lazymatch goal with
    | |- steady _ (bind _ _) =>
        apply steady_bind; [exact unattended_trans | | intros ?]
    | |- steady _ (ret _) => apply steady_ret; exact unattended_refl
    | |- steady _ (get _) => apply steady_get; exact unattended_refl
    | |- steady _ (exit _) => apply steady_exit; exact unattended_refl
    | |- steady _ (emit _ _) => apply unattended_emit; discriminate
    | |- steady _ (sigpoint _) =>
        intros ?; apply handler_ran_unattended, sigpoint_ran
    | |- steady _ (sig_hdlr _) =>
        intros ?; apply handler_ran_unattended, sig_hdlr_ran
    | |- steady _ (set_devh _) => apply unattended_same; reflexivity
    | |- steady _ (set_bench_xfr _) => apply unattended_same; reflexivity
    | |- steady _ (set_tv_start _) => apply unattended_same; reflexivity
    | |- steady _ (next_clock _) => apply unattended_same; reflexivity
    | |- steady _ (next_submit _) => apply unattended_same; reflexivity
    | |- steady _ (if ?b then _ else _) => destruct b
    | |- steady _ (call _ Main _) => unfold call
    end.

Lemma run_occurrences_unattended w l :
  (forall p xfr, ~ In (Completion p xfr) l) ->
  steady unattended (run_occurrences w l).
Proof.
  induction l as [|[p xfr|] l IH]; intros Hn; cbn [run_occurrences].
  - unattended_tac.
  - exfalso. apply (Hn p xfr). left; reflexivity.
  - unattended_tac. apply IH. intros p xfr H. apply (Hn p xfr). right; exact H.
Qed.

Lemma event_loop_unattended w rounds :
  Forall no_completion rounds ->
  forall rc, steady unattended (event_loop w rounds rc).
Proof.
  induction 1 as [|r rounds Hr Hl IH]; intros rc; cbn [event_loop].
  - unattended_tac. intros s. apply unattended_refl.
  - unfold libusb_handle_events. unattended_tac.
    + apply run_occurrences_unattended. exact Hr.
    + apply IH.
Qed.

Lemma main_unattended w :
  Forall no_completion (w_rounds w) -> steady unattended (main w).
Proof.
  intros Hw.
  unfold main, libusb_init_context, libusb_error_name,
    libusb_open_device_with_vid_pid, libusb_claim_interface, out,
    libusb_close, libusb_exit, libusb_release_interface,
    benchmark_in, libusb_alloc_transfer, libusb_fill_iso_transfer,
    libusb_set_iso_packet_lengths, libusb_fill_bulk_transfer, get_timestamp,
    read_clock, libusb_submit_transfer.
  unattended_tac; apply event_loop_unattended; exact Hw.
Qed.

(** Without the callback, every call that the handler does not make is a
    call of [main]. *)
Lemma weave_calls_unattended (P : event -> bool) L tr :
  (forall e, handler_kind e -> P e = false) ->
  Forall (fun oe => fst oe <> Callback) tr ->
  weave L tr -> calls P tr = by_main (filter P L).
Proof.
  intros Hh Hn Hw. unfold calls, by_main.
  induction Hw as [|L tr e Hw IH|L tr e Hw IH Hk|L tr e Hw IH Hk Hl].
  - reflexivity.
  - apply Forall_app in Hn as [Hn _].
    rewrite !filter_app, map_app, IH by exact Hn. simpl.
    destruct (P e); reflexivity.
  - apply Forall_app in Hn as [Hn _].
    rewrite filter_app, IH by exact Hn. simpl.
    rewrite (Hh e Hk), app_nil_r. reflexivity.
  - apply Forall_app in Hn as [_ Hn]. inversion Hn as [|? ? Hc]. subst.
    exfalso. apply Hc. reflexivity.
Qed.

(** ** [benchmark_in] and [main] when no SIGINT arrives *)

Lemma own_by_main L : own (by_main L) = L.
Proof. apply weave_own, weave_by_main. Qed.

Lemma benchmark_in_quiet w ep s :
  no_sigint w ->
  exists s',
    benchmark_in w ep s =
      Ok (if w_alloc w =? NULL then -1 else w_submit_rc w (n_submit s)) s' /\
    log s' = log s ++ by_main (bench_script w (devh s) ep).
Proof.
  intros Hsig.
  unfold benchmark_in, libusb_alloc_transfer, libusb_fill_iso_transfer,
    libusb_set_iso_packet_lengths, libusb_fill_bulk_transfer, get_timestamp,
    read_clock, libusb_submit_transfer, bench_script.
  destruct (w_alloc w =? NULL) eqn:Ha; destruct (ep =? EP_ISO_IN) eqn:He;
    eexists; (split; [run_quiet Hsig; unfold ret; reflexivity|]);
    cbn [log append tick]; rewrite <- ?app_assoc; reflexivity.
Qed.

Lemma benchmark_in_null w ep s rc s' :
  w_alloc w = NULL -> benchmark_in w ep s = Ok rc s' -> rc = -1.
Proof.
  intros Ha E. unfold benchmark_in, libusb_alloc_transfer in E.
  apply bind_ok_inv in E. destruct E as (x & s1 & E1 & E).
  apply bind_ok_inv in E1. destruct E1 as ([] & s0 & _ & E1).
  unfold ret in E1. injection E1 as <- <-.
  apply bind_ok_inv in E. destruct E as ([] & s2 & _ & E).
  rewrite Ha in E. change (NULL =? NULL) with true in E. cbv iota in E.
  unfold ret in E. congruence.
Qed.

Lemma reaches_loop_tests w :
  reaches_loop w = true ->
  (w_init_rc w <? 0) = false /\ (w_open w =? NULL) = false /\
  (w_claim_rc w <? 0) = false.
Proof.
  unfold reaches_loop. intros Hl.
  apply andb_true_iff in Hl as [Hl H3]. apply andb_true_iff in Hl as [H1 H2].
  apply negb_true_iff in H1, H2, H3. auto.
Qed.

(** The loop goes on as long as nothing happens. *)
Lemma main_waits_quiet w :
  no_sigint w -> (forall n, 0 <= w_submit_rc w n) ->
  reaches_loop w = true -> Forall quiet_round (w_rounds w) ->
  exists s, main w initial_state = Waiting s /\ do_exit s = false /\
            own (log s) = loop_script w (List.length (w_rounds w)).
Proof.
  intros Hsig Hrc Hl Hq. rewrite (main_enters_loop w Hsig Hl).
  destruct (event_loop_quiet_prefix w (w_rounds w) Hsig Hrc Hq []
              (w_claim_rc w) (loop_state w) eq_refl)
    as (s1 & E & Hown & Hd & _).
  rewrite app_nil_r in E.
  exists (tick s1). split; [|split].
  - apply bind_waiting. rewrite E. apply event_loop_nil_quiet; assumption.
  - exact Hd.
  - cbn [log tick]. rewrite Hown. cbn [log loop_state]. rewrite own_by_main.
    unfold loop_script. cbn [repeat]. rewrite app_nil_r, <- !app_assoc.
    reflexivity.
Qed.

(** The loop is left after the first call that fails, and the clean-up
    follows. *)
Lemma main_breaks_quiet w qs r rest :
  no_sigint w -> (forall n, 0 <= w_submit_rc w n) ->
  reaches_loop w = true -> w_rounds w = qs ++ r :: rest ->
  Forall quiet_round qs -> Forall quiet_occurrence (r_occurrences r) ->
  r_rc r <> LIBUSB_SUCCESS ->
  exists s, main w initial_state = Ok (r_rc r) s /\ do_exit s = false /\
            own (log s) = loop_script w (S (List.length qs)) ++ teardown w.
Proof.
  intros Hsig Hrc Hl Hw Hq Ho Hr. rewrite (main_enters_loop w Hsig Hl), Hw.
  destruct (reaches_loop_tests w Hl) as (_ & H2 & _). apply Z.eqb_neq in H2.
  destruct (event_loop_quiet_prefix w qs Hsig Hrc Hq (r :: rest)
              (w_claim_rc w) (loop_state w) eq_refl)
    as (s1 & E & Hown & Hd & Hv).
  destruct (event_loop_break w r rest
              (match qs with [] => w_claim_rc w | _ => LIBUSB_SUCCESS end) s1
              Hsig Hrc Ho Hr Hd) as (s2 & E2 & Hown2 & Hd2 & Hv2).
  destruct (after_loop_quiet w (r_rc r) s2 Hsig) as (s3 & E3 & Hl3 & Hd3); auto.
  { rewrite Hv2, Hv. reflexivity. }
  exists s3. split; [|split].
  - rewrite <- E in E2. rewrite (bind_ok _ _ _ _ _ E2). exact E3.
  - rewrite Hd3. exact Hd2.
  - rewrite Hl3, own_app, own_by_main, Hown2, Hown. cbn [log loop_state].
    rewrite own_by_main. unfold loop_script. cbn [repeat].
    rewrite app_nil_r, repeat_cons, <- !app_assoc.
    reflexivity.
Qed.

(** The loop is left after the call during which SIGINT arrives. *)
Lemma main_interrupt_quiet w qs r rest :
  no_sigint w -> (forall n, 0 <= w_submit_rc w n) ->
  reaches_loop w = true -> w_rounds w = qs ++ r :: rest ->
  Forall quiet_round qs -> In Interrupt (r_occurrences r) ->
  match main w initial_state with
  | Ok rc s =>
      rc = r_rc r /\ do_exit s = true /\
      own (log s) = loop_script w (S (List.length qs)) ++ teardown w
  | Waiting _ => False
  | other => own (log (final other)) = loop_script w (S (List.length qs))
  end.
Proof.
  intros Hsig Hrc Hl Hw Hq Hin. rewrite (main_enters_loop w Hsig Hl), Hw.
  destruct (reaches_loop_tests w Hl) as (_ & H2 & _). apply Z.eqb_neq in H2.
  destruct (event_loop_quiet_prefix w qs Hsig Hrc Hq (r :: rest)
              (w_claim_rc w) (loop_state w) eq_refl)
    as (s1 & E & Hown & Hd & Hv).
  destruct (event_loop_interrupt w r rest
              (match qs with [] => w_claim_rc w | _ => LIBUSB_SUCCESS end) s1
              Hsig Hin Hd) as (Hlog & Hm).
  rewrite <- E in Hlog, Hm.
  assert (Hs : own (log s1) ++ [Call_handle_events NULL] =
               loop_script w (S (List.length qs))).
  { rewrite Hown. cbn [log loop_state]. rewrite own_by_main.
    unfold loop_script. cbn [repeat].
    rewrite app_nil_r, repeat_cons, <- !app_assoc. reflexivity. }
  rewrite Hs in Hlog.
  destruct (event_loop w (qs ++ r :: rest) (w_claim_rc w) (loop_state w))
    as [rc' s2|c s2|s2|s2] eqn:E2; cbn [final] in Hlog.
  - destruct Hm as (-> & Hd2 & Hv2).
    destruct (after_loop_quiet w (r_rc r) s2 Hsig) as (s3 & E3 & Hl3 & Hd3);
      auto.
    { rewrite Hv2, Hv. reflexivity. }
    rewrite (bind_ok _ _ _ _ _ E2), E3.
    split; [reflexivity|]. split; [rewrite Hd3; exact Hd2|].
    rewrite Hl3, own_app, own_by_main, Hlog. reflexivity.
  - rewrite (bind_exited _ _ _ _ _ E2). exact Hlog.
  - rewrite (bind_fault _ _ _ _ E2). exact Hlog.
  - contradiction.
Qed.

(** ** The event loop *)

(** C7.  The loop of [main] does nothing itself but call
    [libusb_handle_events], again and again.  In every run the actions of
    [main] during the loop are [k] such calls, and when the loop is left
    either [do_exit] is set, and then the SIGINT handler has run, or the
    last call returned something other than [LIBUSB_SUCCESS].  When no
    SIGINT arrives outside [libusb_handle_events] and the re-submissions
    succeed, the number of calls is known: as long as the calls return
    [LIBUSB_SUCCESS] and no SIGINT arrives the loop is not left; it is
    left right after the first call that returns something else, with
    that value; it is left right after the first call during which SIGINT
    arrives, with [do_exit] set; and it makes no call when [do_exit] is
    set already.  In [main] the loop stands between the calls of
    [benchmark_in] and the release of the interface, and the same holds
    of the whole run of [main]. *)
Theorem event_loop_only_handles_events w :
  (forall rounds rc L d s,
     At L d s ->
     exists k, (k <= List.length rounds)%nat /\
       own (log (final (event_loop w rounds rc s))) =
         L ++ repeat (Call_handle_events NULL) k /\
       forall rc' s', event_loop w rounds rc s = Ok rc' s' ->
         rc' = loop_rc rounds rc k /\
         ((do_exit s' = true /\ exists e, In (Handler, e) (log s')) \/
          ((0 < k)%nat /\ rc' <> LIBUSB_SUCCESS))) /\
  (no_sigint w -> (forall n, 0 <= w_submit_rc w n) ->
   (forall qs rc s,
      Forall quiet_round qs -> do_exit s = false ->
      exists s',
        event_loop w qs rc s = Waiting s' /\ do_exit s' = false /\
        own (log s') =
          own (log s) ++ repeat (Call_handle_events NULL) (List.length qs)) /\
   (forall qs r rest rc s,
      Forall quiet_round qs -> Forall quiet_occurrence (r_occurrences r) ->
      r_rc r <> LIBUSB_SUCCESS -> do_exit s = false ->
      exists s',
        event_loop w (qs ++ r :: rest) rc s = Ok (r_rc r) s' /\
        do_exit s' = false /\
        own (log s') =
          own (log s) ++
          repeat (Call_handle_events NULL) (S (List.length qs))) /\
   (forall qs r rest rc s,
      Forall quiet_round qs -> In Interrupt (r_occurrences r) ->
      do_exit s = false ->
      own (log (final (event_loop w (qs ++ r :: rest) rc s))) =
        own (log s) ++ repeat (Call_handle_events NULL) (S (List.length qs)) /\
      match event_loop w (qs ++ r :: rest) rc s with
      | Ok rc' s' => rc' = r_rc r /\ do_exit s' = true /\ devh s' = devh s
      | Waiting _ => False
      | _ => True
      end) /\
   (forall rounds rc s,
      do_exit s = true ->
      exists s', event_loop w rounds rc s = Ok rc s' /\ log s' = log s /\
                 do_exit s' = true)) /\
  (forall rc s,
     main w initial_state = Ok rc s -> reaches_loop w = true ->
     exists k, (k <= List.length (w_rounds w))%nat /\
       own (log s) =
         prelude w ++ bench_script w (w_open w) EP_ISO_IN ++
         repeat (Call_handle_events NULL) k ++
         [Call_release_interface (w_open w) 2; Call_close (w_open w);
          Call_exit NULL]) /\
  (no_sigint w -> (forall n, 0 <= w_submit_rc w n) ->
   reaches_loop w = true ->
   (Forall quiet_round (w_rounds w) ->
    exists s,
      main w initial_state = Waiting s /\
      own (log s) =
        prelude w ++ bench_script w (w_open w) EP_ISO_IN ++
        repeat (Call_handle_events NULL) (List.length (w_rounds w))) /\
   (forall qs r rest,
      w_rounds w = qs ++ r :: rest -> Forall quiet_round qs ->
      Forall quiet_occurrence (r_occurrences r) ->
      r_rc r <> LIBUSB_SUCCESS ->
      exists s,
        main w initial_state = Ok (r_rc r) s /\
        own (log s) =
          prelude w ++ bench_script w (w_open w) EP_ISO_IN ++
          repeat (Call_handle_events NULL) (S (List.length qs)) ++
          [Call_release_interface (w_open w) 2; Call_close (w_open w);
           Call_exit NULL]) /\
   (forall qs r rest,
      w_rounds w = qs ++ r :: rest -> Forall quiet_round qs ->
      In Interrupt (r_occurrences r) ->
      match main w initial_state with
      | Ok rc s =>
          rc = r_rc r /\ do_exit s = true /\
          own (log s) =
            prelude w ++ bench_script w (w_open w) EP_ISO_IN ++
            repeat (Call_handle_events NULL) (S (List.length qs)) ++
            [Call_release_interface (w_open w) 2; Call_close (w_open w);
             Call_exit NULL]
      | Waiting _ => False
      | other =>
          own (log (final other)) =
            prelude w ++ bench_script w (w_open w) EP_ISO_IN ++
            repeat (Call_handle_events NULL) (S (List.length qs))
      end)).
Proof.
  split; [|split; [|split]].
  - intros rounds rc L d s HA.
    assert (H : wp (event_loop w rounds rc)
      (fun rc' s' =>
         exists k, (k <= List.length rounds)%nat /\
           own (log s') = L ++ repeat (Call_handle_events NULL) k /\
           rc' = loop_rc rounds rc k /\
           ((do_exit s' = true /\ exists e, In (Handler, e) (log s')) \/
            ((0 < k)%nat /\ rc' <> LIBUSB_SUCCESS)))
      (fun _ s' =>
         exists k, (k <= List.length rounds)%nat /\
           own (log s') = L ++ repeat (Call_handle_events NULL) k)
      s).
    { apply (wp_event_loop_at w rounds rc L d); auto.
      - intros k rc1 s1 Hk (Hw & _ & Hf) Hex Hrc. exists k.
        repeat split; auto using weave_own.
        destruct Hex as [Hex|Hex]; [left; split; auto | right; auto].
      - intros _ k s1 Hk (Hw & _). exists k; auto using weave_own. }
    unfold wp in H.
    destruct (event_loop w rounds rc s) as [rc' s'|c s'|s'|s']; simpl.
    + destruct H as (k & Hk & Ho & Hrc & Hex).
      exists k; repeat split; auto; inversion H; subst; auto.
    + destruct H as (k & Hk & Ho). exists k; repeat split; auto; discriminate.
    + destruct H as (k & Hk & Ho). exists k; repeat split; auto; discriminate.
    + destruct H as (k & Hk & Ho). exists k; repeat split; auto; discriminate.
  - intros Hsig Hrc. split; [|split; [|split]].
    + intros qs rc s Hq Hd.
      destruct (event_loop_quiet_prefix w qs Hsig Hrc Hq [] rc s Hd)
        as (s1 & E & Hown & Hd1 & _).
      rewrite app_nil_r in E. exists (tick s1). split; [|split].
      * rewrite E. apply event_loop_nil_quiet; assumption.
      * exact Hd1.
      * exact Hown.
    + intros qs r rest rc s Hq Ho Hr Hd.
      destruct (event_loop_quiet_prefix w qs Hsig Hrc Hq (r :: rest) rc s Hd)
        as (s1 & E & Hown & Hd1 & _).
      destruct (event_loop_break w r rest
                  (match qs with [] => rc | _ => LIBUSB_SUCCESS end) s1
                  Hsig Hrc Ho Hr Hd1) as (s2 & E2 & Hown2 & Hd2 & _).
      exists s2. split; [|split].
      * rewrite E. exact E2.
      * exact Hd2.
      * rewrite Hown2, Hown, <- app_assoc, <- repeat_cons. reflexivity.
    + intros qs r rest rc s Hq Hin Hd.
      destruct (event_loop_quiet_prefix w qs Hsig Hrc Hq (r :: rest) rc s Hd)
        as (s1 & E & Hown & Hd1 & Hv1).
      destruct (event_loop_interrupt w r rest
                  (match qs with [] => rc | _ => LIBUSB_SUCCESS end) s1
                  Hsig Hin Hd1) as (Hl & Hm).
      rewrite E. split.
      * rewrite Hl, Hown, <- app_assoc, <- repeat_cons. reflexivity.
      * destruct (event_loop w (r :: rest) _ s1); auto.
        destruct Hm as (Hm1 & Hm2 & Hm3). rewrite Hm3, Hv1. auto.
    + intros rounds rc s Hd. exists (tick s). split; [|split].
      * apply event_loop_flagged_quiet; assumption.
      * reflexivity.
      * exact Hd.
  - intros rc s E Hl.
    pose proof (main_returns w) as H. rewrite E in H.
    destruct (H Hl) as (k & Hk & Hown & _). exists k. split; [exact Hk|].
    rewrite Hown. unfold loop_script, teardown. rewrite <- !app_assoc.
    reflexivity.
  - intros Hsig Hrc Hl. split; [|split].
    + intros Hq.
      destruct (main_waits_quiet w Hsig Hrc Hl Hq) as (s & E & _ & Hown).
      exists s. split; [exact E|]. rewrite Hown. reflexivity.
    + intros qs r rest Hw Hq Ho Hr.
      destruct (main_breaks_quiet w qs r rest Hsig Hrc Hl Hw Hq Ho Hr)
        as (s & E & _ & Hown).
      exists s. split; [exact E|]. rewrite Hown.
      unfold loop_script, teardown. rewrite <- !app_assoc. reflexivity.
    + intros qs r rest Hw Hq Hin.
      pose proof (main_interrupt_quiet w qs r rest Hsig Hrc Hl Hw Hq Hin) as H.
      destruct (main w initial_state) as [rc s|c s|s|s]; auto.
      destruct H as (H1 & H2 & H3). split; [exact H1|]. split; [exact H2|].
      rewrite H3. unfold loop_script, teardown. rewrite <- !app_assoc.
      reflexivity.
Qed.

Lemma event_loop_only_handles_events_witness :
  exists s,
    main break_world initial_state = Ok (-1) s /\
    own (log s) =
      prelude break_world ++
      bench_script break_world (w_open break_world) EP_ISO_IN ++
      repeat (Call_handle_events NULL) 2 ++
      [Call_release_interface (w_open break_world) 2;
       Call_close (w_open break_world); Call_exit NULL].
Proof.
  destruct (event_loop_only_handles_events break_world) as (_ & _ & _ & H).
  destruct H as (_ & H & _).
  - intros n; reflexivity.
  - intros n; simpl; lia.
  - reflexivity.
  - apply (H [{| r_occurrences := [Completion 200 sample_iso]; r_rc := 0 |}]
             {| r_occurrences := []; r_rc := -1 |}
             [{| r_occurrences := [Completion 200 sample_iso]; r_rc := 0 |}]).
    + reflexivity.
    + repeat constructor; simpl; lia.
    + constructor.
    + discriminate.
Defined.

(** ** The device and the interface *)

Lemma loop_script_opens w k :
  filter is_open (loop_script w k) =
  [Call_open_device_with_vid_pid NULL 0x16c0 0x0763].
Proof.
  rewrite filter_loop_script by reflexivity.
  unfold loop_script, prelude, bench_script.
  change (EP_ISO_IN =? EP_ISO_IN) with true. cbv iota.
  destruct (w_alloc w =? NULL); reflexivity.
Qed.

Lemma loop_script_claims w k :
  filter is_claim (loop_script w k) = [Call_claim_interface (w_open w) 2].
Proof.
  rewrite filter_loop_script by reflexivity.
  unfold loop_script, prelude, bench_script.
  change (EP_ISO_IN =? EP_ISO_IN) with true. cbv iota.
  destruct (w_alloc w =? NULL); reflexivity.
Qed.

Lemma filter_teardown_prefix (P : event -> bool) w L' :
  prefix_of L' (teardown w) -> filter P (teardown w) = [] -> filter P L' = [].
Proof.
  intros Hp E. apply (filter_prefix P) in Hp. rewrite E in Hp.
  apply prefix_of_nil; exact Hp.
Qed.

(** The calls of [main] in a run that was not cut short by undefined
    behaviour. *)
Lemma main_own_calls w :
  0 <= w_init_rc w -> (forall s, main w initial_state <> Fault s) ->
  exists k L',
    own (log (final (main w initial_state))) =
    (if w_open w =? NULL then after_no_device
     else if w_claim_rc w <? 0 then after_claim_error w
     else loop_script w k ++ L') /\
    prefix_of L' (teardown w).
Proof.
  intros Hi Hn. apply Z.ltb_ge in Hi.
  destruct (main_runs w) as (k & L & Hk & Hw & Hf & Hp & Hr).
  pose proof (main_stops w) as Hs.
  apply weave_own in Hw.
  destruct (main w initial_state) as [rc s|c s|s|s] eqn:E;
    cbn [final] in *.
  - destruct Hr as (_ & -> & _). exists k, (teardown w).
    split; [|apply prefix_of_refl]. rewrite Hw. unfold script. rewrite Hi.
    destruct (w_open w =? NULL); [reflexivity|].
    destruct (w_claim_rc w <? 0); [reflexivity|].
    unfold loop_script, teardown, prelude. rewrite <- !app_assoc. reflexivity.
  - rewrite Hi in Hr. destruct (reaches_loop_tests w Hr) as (_ & H2 & H3).
    rewrite H2, H3.
    destruct Hs as [(_ & Hneg & _)|(_ & k' & _ & Hown)];
      [apply Z.ltb_lt in Hneg; congruence|].
    exists k', []. rewrite app_nil_r. split; [exact Hown | eexists; reflexivity].
  - exfalso. apply (Hn s). reflexivity.
  - destruct (reaches_loop_tests w Hr) as (_ & H2 & H3). rewrite H2, H3.
    destruct Hs as (_ & k' & _ & Hown).
    exists k', []. rewrite app_nil_r. split; [exact Hown | eexists; reflexivity].
Qed.

(** The calls of [main] in a run in which no SIGINT arrives outside
    [libusb_handle_events]. *)
Lemma main_own_calls_quiet w :
  no_sigint w -> 0 <= w_init_rc w ->
  exists k L',
    own (log (final (main w initial_state))) =
    (if w_open w =? NULL then after_no_device
     else if w_claim_rc w <? 0 then after_claim_error w
     else loop_script w k ++ L') /\
    prefix_of L' (teardown w).
Proof.
  intros Hsig Hi.
  destruct (w_open w =? NULL) eqn:H2.
  - apply Z.eqb_eq in H2.
    destruct (main_no_device_quiet w Hsig Hi H2) as (s & E & Hl).
    exists O, []. rewrite E. cbn [final]. rewrite Hl, own_by_main.
    split; [reflexivity | eexists; reflexivity].
  - destruct (w_claim_rc w <? 0) eqn:H3.
    + apply Z.eqb_neq in H2. apply Z.ltb_lt in H3.
      destruct (main_claim_error_quiet w Hsig Hi H2 H3) as (s & E & Hl).
      exists O, []. rewrite E. cbn [final]. rewrite Hl, own_by_main.
      split; [reflexivity | eexists; reflexivity].
    + assert (Hl : reaches_loop w = true).
      { unfold reaches_loop. apply Z.ltb_ge in Hi. rewrite Hi, H2, H3.
        reflexivity. }
      destruct (main_quiet_reaches_loop w Hsig Hl) as (k & L' & _ & Hp & E).
      exists k, L'. split; [exact E | exact Hp].
Qed.

(** C3, as stated: it fails.  When the library cannot be initialized
    [main] prints the error and exits with status 1: no device is opened
    and no interface is claimed. *)
Lemma init_failure_opens_nothing :
  w_init_rc no_library_world < 0 /\
  main no_library_world initial_state =
    Exited 1 (final (main no_library_world initial_state)) /\
  log (final (main no_library_world initial_state)) =
    [(Main, Call_sigaction); (Main, Call_init_context NULL);
     (Main, Call_error_name (-1));
     (Main, Stderr "Error initializing libusb: %s\n" [-1])] /\
  calls is_open (log (final (main no_library_world initial_state))) = [] /\
  calls is_claim (log (final (main no_library_world initial_state))) = [].
Proof. repeat apply conj; vm_compute; reflexivity. Qed.

(** C3, amended.  In every run, wherever it stops: the only device that
    is opened is 0x16c0:0x0763 on the default context, by at most one
    call of [main]; the only interface that is claimed is interface 2 of
    the handle that the open returned, by at most one call of [main],
    made after the open and only if the handle is not [NULL]; and
    whenever a transfer is allocated or submitted, by [main] or by the
    callback, the claim has been made before.  The numbers are exact:
    after a failed initialization nothing is opened or claimed; after a
    successful one, every run that is not cut short by undefined
    behaviour in the SIGINT handler, and every run in which no SIGINT
    arrives outside [libusb_handle_events], has opened the device exactly
    once and has claimed the interface exactly once if the handle is not
    [NULL] and not at all if it is. *)
Theorem one_device_one_interface w :
  let r := main w initial_state in
  let tr := log (final r) in
  let opened := (Main, Call_open_device_with_vid_pid NULL 0x16c0 0x0763) in
  let claimed := (Main, Call_claim_interface (w_open w) 2) in
  (calls is_open tr = [] \/ calls is_open tr = [opened]) /\
  (calls is_claim tr = [] \/
   (calls is_claim tr = [claimed] /\ w_open w <> NULL)) /\
  (forall tr1 tr2, tr = tr1 ++ claimed :: tr2 -> In opened tr1) /\
  (forall tr1 o e tr2,
     tr = tr1 ++ (o, e) :: tr2 -> is_transfer_call e = true ->
     In claimed tr1) /\
  (w_init_rc w < 0 -> calls is_open tr = [] /\ calls is_claim tr = []) /\
  (0 <= w_init_rc w -> (forall s, r <> Fault s) ->
   calls is_open tr = [opened] /\
   calls is_claim tr = (if w_open w =? NULL then [] else [claimed])) /\
  (no_sigint w -> 0 <= w_init_rc w ->
   calls is_open tr = [opened] /\
   calls is_claim tr = (if w_open w =? NULL then [] else [claimed])).
Proof.
  intros r tr op cl. subst r tr op cl.
  destruct (main_runs w) as (k & L & Hk & Hw & Hf & Hp & Hr).
  assert (Hopen : calls is_open (log (final (main w initial_state))) =
                  by_main (filter is_open L)).
  { apply weave_calls; auto.
    - intros e [->|[args ->]]; reflexivity.
    - intros [] H; try contradiction; reflexivity. }
  assert (Hclaim : calls is_claim (log (final (main w initial_state))) =
                   by_main (filter is_claim L)).
  { apply weave_calls; auto.
    - intros e [->|[args ->]]; reflexivity.
    - intros [] H; try contradiction; reflexivity. }
  pose proof (filter_prefix is_open _ _ Hp) as Po.
  pose proof (filter_prefix is_claim _ _ Hp) as Pc.
  rewrite script_opens in Po. rewrite script_claims in Pc.
  assert (Hexact : forall k' L',
    own (log (final (main w initial_state))) =
      (if w_open w =? NULL then after_no_device
       else if w_claim_rc w <? 0 then after_claim_error w
       else loop_script w k' ++ L') ->
    prefix_of L' (teardown w) ->
    calls is_open (log (final (main w initial_state))) =
      [(Main, Call_open_device_with_vid_pid NULL 0x16c0 0x0763)] /\
    calls is_claim (log (final (main w initial_state))) =
      (if w_open w =? NULL then []
       else [(Main, Call_claim_interface (w_open w) 2)])).
  { intros k' L' E HL'. rewrite Hopen, Hclaim.
    rewrite <- (weave_own _ _ Hw), E.
    destruct (w_open w =? NULL); [split; reflexivity|].
    destruct (w_claim_rc w <? 0); [split; reflexivity|].
    rewrite !filter_app, loop_script_opens, loop_script_claims.
    rewrite (filter_teardown_prefix is_open w L' HL' eq_refl).
    rewrite (filter_teardown_prefix is_claim w L' HL' eq_refl).
    split; reflexivity. }
  split; [|split; [|split; [|split; [|split; [|split]]]]].
  - rewrite Hopen. destruct (w_init_rc w <? 0).
    + apply prefix_of_nil in Po. rewrite Po. left; reflexivity.
    + apply prefix_of_one in Po as [-> | ->]; [left | right]; reflexivity.
  - rewrite Hclaim.
    destruct ((w_init_rc w <? 0) || (w_open w =? NULL)) eqn:E.
    + apply prefix_of_nil in Pc. rewrite Pc. left; reflexivity.
    + apply prefix_of_one in Pc as [-> | ->]; [left; reflexivity | right].
      split; [reflexivity|]. apply orb_false_iff in E as [_ E].
      apply Z.eqb_neq; exact E.
  - intros tr1 tr2 E.
    destruct (weave_split _ _ Hw _ _ _ _ E) as (L1 & H1 & H2 & H3).
    apply (weave_in L1); auto.
    destruct (prefix_of_trans _ _ _ H3 Hp) as [rest Hs].
    rewrite <- app_assoc in Hs. simpl in Hs.
    eapply script_open_first; eauto.
  - intros tr1 o e tr2 E He.
    destruct (weave_split _ _ Hw _ _ _ _ E) as (L1 & H1 & H2 & H3).
    destruct o.
    + apply (weave_in L1); auto.
      destruct (prefix_of_trans _ _ _ H3 Hp) as [rest Hs].
      rewrite <- app_assoc in Hs. simpl in Hs.
      eapply script_claim_first; eauto.
    + destruct H3 as [L' ->].
      apply (weave_in (L' ++ [Call_handle_events NULL])); auto.
      apply in_or_app; left.
      destruct (prefix_of_trans _ _ _ H2 Hp) as [rest Hs].
      rewrite <- app_assoc in Hs. simpl in Hs.
      eapply script_claim_first; eauto.
    + destruct H3 as [->|[args ->]]; discriminate He.
  - intros Hi. apply Z.ltb_lt in Hi. rewrite Hi in Po, Pc. cbn [orb] in Pc.
    apply prefix_of_nil in Po, Pc. rewrite Hopen, Hclaim, Po, Pc.
    split; reflexivity.
  - intros Hi Hn. destruct (main_own_calls w Hi Hn) as (k' & L' & E & HL').
    exact (Hexact k' L' E HL').
  - intros Hsig Hi.
    destruct (main_own_calls_quiet w Hsig Hi) as (k' & L' & E & HL').
    exact (Hexact k' L' E HL').
Qed.

Lemma one_device_one_interface_witness :
  calls is_open (log (final (main break_world initial_state))) =
    [(Main, Call_open_device_with_vid_pid NULL 0x16c0 0x0763)] /\
  calls is_claim (log (final (main break_world initial_state))) =
    (if w_open break_world =? NULL then []
     else [(Main, Call_claim_interface (w_open break_world) 2)]).
Proof.
  destruct (one_device_one_interface break_world)
    as (_ & _ & _ & _ & _ & _ & H).
  apply H.
  - intros n; reflexivity.
  - simpl; lia.
Defined.

(** ** The transfer *)






(** ** Failures *)

(** C5, as stated: it fails.  The program detects two more failures, and
    for neither does it print a message.  When [libusb_alloc_transfer]
    returns [NULL], [benchmark_in] returns -1, and [main], which does not
    look at the result, neither stops nor cleans up: it goes on to call
    [libusb_handle_events].  When that call fails, [main] leaves the loop
    and cleans up without a message. *)
Lemma silent_failures :
  w_alloc no_memory_break_world = NULL /\
  (exists s',
     benchmark_in no_memory_break_world EP_ISO_IN initial_state = Ok (-1) s') /\
  main no_memory_break_world initial_state =
    Ok (-1) (final (main no_memory_break_world initial_state)) /\
  log (final (main no_memory_break_world initial_state)) =
    [(Main, Call_sigaction); (Main, Call_init_context NULL);
     (Main, Call_open_device_with_vid_pid NULL 0x16c0 0x0763);
     (Main, Call_claim_interface 100 2);
     (Main, Call_alloc_transfer 16);
     (Main, Call_handle_events NULL);
     (Main, Call_handle_events NULL);
     (Main, Call_release_interface 100 2);
     (Main, Call_close 100);
     (Main, Call_exit NULL)] /\
  calls is_stderr (log (final (main no_memory_break_world initial_state))) = [].
Proof.
  repeat apply conj; try (vm_compute; reflexivity).
  eexists. vm_compute. reflexivity.
Qed.

(** C5, amended.  The program detects eight failures and retries none of
    them.  After six it prints a message and stops or goes on to the
    clean-up.  In [main] (where a run can also be cut short by undefined
    behaviour in the handler, and then the handler has just read the
    clock and computed zero milliseconds): an initialization error is
    followed by the message and [exit(1)]; a missing device by the message
    and [libusb_exit]; a claim error by the message, [libusb_close] and
    [libusb_exit]; when no SIGINT arrives the run ends in just this way.
    In the callback: a transfer that did not complete is followed by the
    message, [libusb_free_transfer] and [exit(3)]; a packet that did not
    complete by the message and [exit(5)]; a failed re-submission by the
    message and [exit(1)].  After the other two it prints nothing: when a
    call of [libusb_handle_events] fails, [main] goes on to the clean-up
    at once and returns the result of that call; when the allocation
    fails, [benchmark_in] returns -1 after the allocation alone and
    [main] goes on into the loop. *)
Theorem failures_print_and_stop w :
  (w_init_rc w < 0 ->
   match main w initial_state with
   | Exited c s => c = 1 /\ own (log s) = after_init_error w
   | Fault s => prefix_of (own (log s)) (after_init_error w) /\
                fault_in_measure w (main w initial_state)
   | _ => False
   end /\
   (no_sigint w ->
    exists s, main w initial_state = Exited 1 s /\
              log s = by_main (after_init_error w))) /\
  (0 <= w_init_rc w -> w_open w = NULL ->
   match main w initial_state with
   | Ok rc s => rc = w_init_rc w /\ own (log s) = after_no_device
   | Fault s => prefix_of (own (log s)) after_no_device /\
                fault_in_measure w (main w initial_state)
   | _ => False
   end /\
   (no_sigint w ->
    exists s, main w initial_state = Ok (w_init_rc w) s /\
              log s = by_main after_no_device)) /\
  (0 <= w_init_rc w -> w_open w <> NULL -> w_claim_rc w < 0 ->
   match main w initial_state with
   | Ok rc s => rc = w_claim_rc w /\ own (log s) = after_claim_error w
   | Fault s => prefix_of (own (log s)) (after_claim_error w) /\
                fault_in_measure w (main w initial_state)
   | _ => False
   end /\
   (no_sigint w ->
    exists s, main w initial_state = Ok (w_claim_rc w) s /\
              log s = by_main (after_claim_error w))) /\
  (forall p xfr s,
     xfr_status xfr <> LIBUSB_TRANSFER_COMPLETED ->
     cb_xfr w p xfr s =
     Exited 3 (append [(Callback, Stderr "transfer status %d\n"
                                   [status_code (xfr_status xfr)]);
                       (Callback, Call_free_transfer p)] s)) /\
  (forall p xfr l1 x l2 s,
     wf_transfer xfr ->
     xfr_status xfr = LIBUSB_TRANSFER_COMPLETED ->
     xfr_type xfr = LIBUSB_TRANSFER_TYPE_ISOCHRONOUS ->
     packets xfr = l1 ++ x :: l2 ->
     Forall pack_completed l1 -> ~ pack_completed x ->
     cb_xfr w p xfr s =
     Exited 5 (append (lines pack_line 0 l1 ++
                       [pack_error_line (Z.of_nat (List.length l1)) x]) s)) /\
  (forall p xfr s,
     wf_transfer xfr -> completed xfr ->
     w_submit_rc w (n_submit s) < 0 ->
     cb_xfr w p xfr s =
     Exited 1 (append [(Callback, Stderr "error re-submitting URB\n" [])]
                      (resubmitted p xfr s))) /\
  ((forall rc s,
      main w initial_state = Ok rc s -> reaches_loop w = true ->
      exists k, (k <= List.length (w_rounds w))%nat /\
        own (log s) = loop_script w k ++ teardown w /\
        rc = loop_rc (w_rounds w) (w_claim_rc w) k /\
        earlier_succeeded (w_rounds w) k) /\
   (no_sigint w -> (forall n, 0 <= w_submit_rc w n) ->
    reaches_loop w = true ->
    forall qs r rest,
      w_rounds w = qs ++ r :: rest -> Forall quiet_round qs ->
      Forall quiet_occurrence (r_occurrences r) ->
      r_rc r <> LIBUSB_SUCCESS ->
      exists s,
        main w initial_state = Ok (r_rc r) s /\
        own (log s) = loop_script w (S (List.length qs)) ++ teardown w)) /\
  (w_alloc w = NULL ->
   (forall ep L d s rc s',
      At L d s -> benchmark_in w ep s = Ok rc s' ->
      rc = -1 /\
      own (log s') =
        L ++ [Call_alloc_transfer (if ep =? EP_ISO_IN then 16 else 0)]) /\
   (no_sigint w ->
    forall ep s, exists s',
      benchmark_in w ep s = Ok (-1) s' /\
      log s' =
        log s ++
        [(Main, Call_alloc_transfer (if ep =? EP_ISO_IN then 16 else 0))]) /\
   (reaches_loop w = true ->
    no_sigint w \/ (forall s, main w initial_state <> Fault s) ->
    exists k L',
      own (log (final (main w initial_state))) =
        prelude w ++ [Call_alloc_transfer 16] ++
        repeat (Call_handle_events NULL) k ++ L' /\
      prefix_of L' (teardown w))).
Proof.
  assert (Hearly : forall s,
    reaches_loop w = false -> main w initial_state = Fault s ->
    fault_in_measure w (Fault s : result Z)).
  { intros s Hl E. pose proof (careful_main_early w Hl initial_state) as H.
    rewrite E in H. exact H. }
  split; [|split; [|split; [|split; [|split; [|split; [|split]]]]]].
  - intros Hi. split.
    + pose proof (main_init_error w Hi) as H.
      destruct (main w initial_state) as [rc s|c s|s|s] eqn:E; auto.
      split; [exact H|]. apply Hearly; [|reflexivity].
      unfold reaches_loop. apply Z.ltb_lt in Hi. rewrite Hi. reflexivity.
    + intros Hsig. apply main_init_error_quiet; assumption.
  - intros Hi Ho. split.
    + pose proof (main_no_device w Hi Ho) as H.
      destruct (main w initial_state) as [rc s|c s|s|s] eqn:E; auto.
      split; [exact H|]. apply Hearly; [|reflexivity].
      unfold reaches_loop. rewrite Ho.
      change (NULL =? NULL) with true.
      destruct (w_init_rc w <? 0); reflexivity.
    + intros Hsig. apply main_no_device_quiet; assumption.
  - intros Hi Ho Hc. split.
    + pose proof (main_claim_error w Hi Ho Hc) as H.
      destruct (main w initial_state) as [rc s|c s|s|s] eqn:E; auto.
      split; [exact H|]. apply Hearly; [|reflexivity].
      unfold reaches_loop. apply Z.ltb_lt in Hc. rewrite Hc.
      destruct (w_init_rc w <? 0), (w_open w =? NULL); reflexivity.
    + intros Hsig. apply main_claim_error_quiet; assumption.
  - intros; apply cb_xfr_failed; assumption.
  - intros; eapply cb_xfr_bad_pack; eassumption.
  - intros p xfr s Hwf Hc Hrc. rewrite (cb_xfr_completed w p xfr s Hwf Hc).
    apply Z.ltb_lt in Hrc. rewrite Hrc. reflexivity.
  - split.
    + intros rc s E Hl. pose proof (main_returns w) as H. rewrite E in H.
      destruct (H Hl) as (k & Hk & Hown & Hrc & He & _). eauto.
    + intros Hsig Hrc Hl qs r rest Hw Hq Ho Hr.
      destruct (main_breaks_quiet w qs r rest Hsig Hrc Hl Hw Hq Ho Hr)
        as (s & E & _ & Hown). eauto.
  - intros Ha.
    assert (Ha' : (w_alloc w =? NULL) = true) by (rewrite Ha; reflexivity).
    split; [|split].
    + intros ep L d s rc s' HA E. split; [eapply benchmark_in_null; eauto|].
      pose proof (wp_benchmark_in_at w ep L d
        (fun _ s1 => own (log s1) = L ++ bench_script w d ep)
        (fun _ _ => True) s HA) as H.
      unfold wp in H. rewrite E in H. unfold bench_script in H.
      rewrite Ha' in H. apply H; auto.
      intros _ s1 (Hw & _). apply weave_own; exact Hw.
    + intros Hsig ep s.
      destruct (benchmark_in_quiet w ep s Hsig) as (s' & E & Hl).
      exists s'. rewrite Ha' in E. split; [exact E|]. rewrite Hl.
      unfold bench_script. rewrite Ha'. reflexivity.
    + intros Hl Hcase.
      destruct (reaches_loop_tests w Hl) as (H1 & H2 & H3).
      assert (Hi : 0 <= w_init_rc w) by (apply Z.ltb_ge; exact H1).
      assert (Hex : exists k' L',
                own (log (final (main w initial_state))) =
                  loop_script w k' ++ L' /\ prefix_of L' (teardown w)).
      { destruct Hcase as [Hsig|Hn].
        - destruct (main_own_calls_quiet w Hsig Hi) as (k' & L' & E & HL').
          rewrite H2, H3 in E. eauto.
        - destruct (main_own_calls w Hi Hn) as (k' & L' & E & HL').
          rewrite H2, H3 in E. eauto. }
      destruct Hex as (k' & L' & E & HL').
      exists k', L'. split; [|exact HL']. rewrite E.
      unfold loop_script, bench_script.
      change (EP_ISO_IN =? EP_ISO_IN) with true. cbv iota. rewrite Ha'.
      rewrite <- !app_assoc. reflexivity.
Qed.

Lemma failures_print_and_stop_witness :
  exists s,
    main no_library_world initial_state = Exited 1 s /\
    log s = by_main (after_init_error no_library_world).
Proof.
  destruct (failures_print_and_stop no_library_world) as (H & _).
  destruct H as (_ & H).
  - simpl; lia.
  - apply H. intros n; reflexivity.
Defined.

(** ** The value that [main] returns *)

(** X9.  When [main] has got as far as the loop and returns, it returns the
    result of its last call of [libusb_handle_events]; all calls before
    that one returned [LIBUSB_SUCCESS]; if the last one did so too, the
    loop was left because [do_exit] was set, otherwise it was left by
    [break].  If [main] made no such call, [do_exit] was set before the
    loop and [main] returns the result of [libusb_claim_interface], which
    is not negative. *)
Theorem main_return_value w rc s :
  main w initial_state = Ok rc s -> reaches_loop w = true ->
  let k := List.length (filter is_handle_events (own (log s))) in
  (k <= List.length (w_rounds w))%nat /\
  rc = loop_rc (w_rounds w) (w_claim_rc w) k /\
  earlier_succeeded (w_rounds w) k /\
  (k = O -> rc = w_claim_rc w /\ 0 <= rc /\ do_exit s = true) /\
  ((0 < k)%nat ->
   rc = r_rc (nth (k - 1) (w_rounds w) no_round) /\
   (rc = LIBUSB_SUCCESS -> do_exit s = true)) /\
  (do_exit s = true -> exists e, In (Handler, e) (log s)).
Proof.
  intros E Hl.
  pose proof (main_returns w) as H. rewrite E in H.
  destruct (H Hl) as (k & Hk & Hown & Hrc & He & Hex).
  rewrite Hown, filter_handle_events_loop, repeat_length.
  destruct (reaches_loop_tests w Hl) as (_ & _ & H3). apply Z.ltb_ge in H3.
  split; [exact Hk|]. split; [exact Hrc|]. split; [exact He|].
  split; [|split].
  - intros ->. cbn [loop_rc] in Hrc. subst rc. split; [reflexivity|].
    split; [exact H3|].
    destruct Hex as [[Hd _]|[Hk0 _]]; [exact Hd | lia].
  - intros Hpos. split.
    + rewrite Hrc. destruct k; [lia|]. cbn [loop_rc].
      replace (S k - 1)%nat with k by lia. reflexivity.
    + intros Hs. destruct Hex as [[Hd _]|[_ Hn]]; [exact Hd | contradiction].
  - intros Hd. destruct Hex as [[_ Hh]|[Hk0 Hn]]; [exact Hh|].
    destruct (main_runs w) as (k' & L & _ & _ & Hf & _).
    rewrite E in Hf. exact (Hf Hd).
Qed.

Lemma main_return_value_witness :
  let s := final (main break_world initial_state) in
  let k := List.length (filter is_handle_events (own (log s))) in
  (k <= List.length (w_rounds break_world))%nat /\
  -1 = loop_rc (w_rounds break_world) (w_claim_rc break_world) k /\
  earlier_succeeded (w_rounds break_world) k /\
  (k = O -> -1 = w_claim_rc break_world /\ 0 <= -1 /\ do_exit s = true) /\
  ((0 < k)%nat ->
   -1 = r_rc (nth (k - 1) (w_rounds break_world) no_round) /\
   (-1 = LIBUSB_SUCCESS -> do_exit s = true)) /\
  (do_exit s = true -> exists e, In (Handler, e) (log s)).
Proof.
  apply (main_return_value break_world (-1)).
  - vm_compute; reflexivity.
  - reflexivity.
Defined.

(** ** A failed allocation *)

(** X10.  When the allocation fails, [main] does not notice: it fills and
    submits nothing itself, and if no transfer completes (none has been
    submitted) there is no submission in the whole run; when [main] calls
    [libusb_handle_events] for the first time it has done no more than
    allocate; a run that returns has gone through the loop and the
    clean-up all the same, and so has every run that is not cut short by
    undefined behaviour in the handler or in which no SIGINT arrives
    outside [libusb_handle_events]. *)
Theorem alloc_failure_is_ignored w :
  w_alloc w = NULL ->
  filter is_submit (own (log (final (main w initial_state)))) = [] /\
  (Forall no_completion (w_rounds w) ->
   calls is_submit (log (final (main w initial_state))) = []) /\
  (forall tr1 tr2,
     log (final (main w initial_state)) =
       tr1 ++ (Main, Call_handle_events NULL) :: tr2 ->
     ~ In (Main, Call_handle_events NULL) tr1 ->
     own tr1 = prelude w ++ [Call_alloc_transfer 16]) /\
  (forall rc s,
     main w initial_state = Ok rc s -> reaches_loop w = true ->
     exists k,
       own (log s) =
         prelude w ++ [Call_alloc_transfer 16] ++
         repeat (Call_handle_events NULL) k ++ teardown w) /\
  (reaches_loop w = true ->
   no_sigint w \/ (forall s, main w initial_state <> Fault s) ->
   exists k L',
     own (log (final (main w initial_state))) =
       prelude w ++ [Call_alloc_transfer 16] ++
       repeat (Call_handle_events NULL) k ++ L' /\
     prefix_of L' (teardown w)).
Proof.
  intros Ha.
  destruct (main_runs w) as (k & L & Hk & Hw & Hf & Hp & Hr).
  assert (Hnone : filter is_submit L = []).
  { pose proof (filter_prefix is_submit _ _ Hp) as P.
    rewrite (filter_script is_submit w k) in P by reflexivity.
    apply prefix_of_nil. revert P. unfold script, bench_script. rewrite Ha.
    destruct (w_init_rc w <? 0); [exact (fun H => H)|].
    destruct (w_open w =? NULL); [exact (fun H => H)|].
    destruct (w_claim_rc w <? 0); exact (fun H => H). }
  split; [|split; [|split; [|split]]].
  - rewrite (weave_own _ _ Hw). exact Hnone.
  - intros Hn.
    destruct (main_unattended w Hn initial_state) as (l & El & Hl).
    rewrite (weave_calls_unattended is_submit L).
    + rewrite Hnone. reflexivity.
    + intros e [->|[args ->]]; reflexivity.
    + rewrite El. exact Hl.
    + exact Hw.
  - intros tr1 tr2 E Hn.
    destruct (weave_split _ _ Hw _ _ _ _ E) as (L1 & H1 & H2 & H3).
    assert (Hn1 : ~ In (Call_handle_events NULL) L1)
      by (intros H; apply Hn; eapply weave_in; eauto).
    destruct (prefix_of_trans _ _ _ H3 Hp) as [rest Hs].
    rewrite <- app_assoc in Hs. simpl in Hs.
    rewrite (weave_own _ _ H1), (script_before_loop w k L1 rest Hs Hn1).
    rewrite (bench_script_alloc_failure w _ _ Ha). reflexivity.
  - intros rc s E Hl. rewrite E in *. simpl in Hw, Hr.
    destruct Hr as (_ & -> & _). exists k.
    rewrite (weave_own _ _ Hw), (script_loop w k Hl). unfold loop_script.
    rewrite (bench_script_alloc_failure w _ _ Ha), <- !app_assoc.
    reflexivity.
  - intros Hl Hcase.
    destruct (reaches_loop_tests w Hl) as (H1 & H2 & H3).
    assert (Hi : 0 <= w_init_rc w) by (apply Z.ltb_ge; exact H1).
    assert (Hex : exists k' L',
              own (log (final (main w initial_state))) =
                loop_script w k' ++ L' /\ prefix_of L' (teardown w)).
    { destruct Hcase as [Hsig|Hn].
      - destruct (main_own_calls_quiet w Hsig Hi) as (k' & L' & E & HL').
        rewrite H2, H3 in E. eauto.
      - destruct (main_own_calls w Hi Hn) as (k' & L' & E & HL').
        rewrite H2, H3 in E. eauto. }
    destruct Hex as (k' & L' & E & HL').
    exists k', L'. split; [|exact HL']. rewrite E. unfold loop_script.
    rewrite (bench_script_alloc_failure w _ _ Ha), <- !app_assoc.
    reflexivity.
Qed.

Lemma alloc_failure_is_ignored_witness :
  let tr := log (final (main no_memory_world initial_state)) in
  filter is_submit (own tr) = [] /\
  (Forall no_completion (w_rounds no_memory_world) ->
   calls is_submit tr = []) /\
  (forall tr1 tr2,
     tr = tr1 ++ (Main, Call_handle_events NULL) :: tr2 ->
     ~ In (Main, Call_handle_events NULL) tr1 ->
     own tr1 = prelude no_memory_world ++ [Call_alloc_transfer 16]) /\
  (forall rc s,
     main no_memory_world initial_state = Ok rc s ->
     reaches_loop no_memory_world = true ->
     exists k,
       own (log s) =
         prelude no_memory_world ++ [Call_alloc_transfer 16] ++
         repeat (Call_handle_events NULL) k ++ teardown no_memory_world) /\
  (reaches_loop no_memory_world = true ->
   no_sigint no_memory_world \/
   (forall s, main no_memory_world initial_state <> Fault s) ->
   exists k L',
     own tr =
       prelude no_memory_world ++ [Call_alloc_transfer 16] ++
       repeat (Call_handle_events NULL) k ++ L' /\
     prefix_of L' (teardown no_memory_world)).
Proof.
  apply (alloc_failure_is_ignored no_memory_world). reflexivity.
Defined.
